(** * Edge caching / coalescing gateway (edge-functions/src/index.ts)

    A shallow embedding of the Cloudflare worker that fronts the
    recommendation, storefront, upsell and handle-recommendation origins.

    Conventions of the model
    - A JavaScript string is the [string] that holds its UTF-8 encoding (the
      bytes the digest is taken of); [Str.codeUnits] gives its UTF-16 code
      units, which is what [charCodeAt], the default sort and the conversion
      to a header value look at.
    - JSON values are [Json]; JSON numbers are integers ([Z]).  [undefined]
      is [None] in an [option Json].
    - Code that may throw returns [Result]; [Threw e] carries the thrown value.
    - The worker is single-threaded and cooperative.  A handler invocation is a
      [Task]; it runs without interruption between two [await]s, so a stretch
      of code between awaits is one atomic transition ([exec]) of the worker
      state [Worker].  The awaits on [request.json()] and on the digest touch
      neither the in-flight map nor the store, and the code from the arrival
      of a request to its read of the cache is one transition.  Values
      delivered by the environment (the clock, the result of a KV read, the
      outcome of the origin call) are carried by the [Event] that resumes the
      task.  Continuations of the same promise may run in any order.
    - The KV namespace is one consistent store whose entries disappear when
      their TTL is over; what it holds are [CachedResponse] values (the text
      written by [JSON.stringify] and read back by [get] is not represented).
    - Platform functions whose result no property below depends on
      (the SHA-256 digest, [String.prototype.localeCompare], the numeric value
      of a string) are fields of a [Platform] record.
    - [Headers] follows the Fetch standard: a header value is stripped of
      leading and trailing HTTP whitespace and must consist of bytes other
      than NUL, LF and CR. *)

From Stdlib Require Import ZArith Lia Ascii DecimalString DecimalZ DecimalPos.
From stdpp Require Import gmap strings list sorting.

Set Warnings "-register-all".

(* ===================================================================== *)
(** ** Strings                                                            *)
(* ===================================================================== *)

Module Str.

Definition dquote : ascii := "034"%char.
Definition backslash : ascii := "092"%char.

(** [s.startsWith(p)] *)
Fixpoint startsWith (p s : string) : bool :=
  match p, s with
  | EmptyString, _ => true
  | String a p', String b s' => if Ascii.eqb a b then startsWith p' s' else false
  | String _ _, EmptyString => false
  end.

(** [s.includes(needle)] *)
Fixpoint includes (needle s : string) : bool :=
  if startsWith needle s then true
  else match s with
       | EmptyString => false
       | String _ s' => includes needle s'
       end.

(** membership of one code unit *)
Fixpoint hasChar (c : ascii) (s : string) : bool :=
  match s with
  | EmptyString => false
  | String a s' => if Ascii.eqb c a then true else hasChar c s'
  end.

(** [s.split(sep)] for a one-character separator; never returns [[]]. *)
Fixpoint split (sep : ascii) (s : string) : list string :=
  match s with
  | EmptyString => [EmptyString]
  | String a s' =>
      if Ascii.eqb a sep then EmptyString :: split sep s'
      else match split sep s' with
           | [] => [String a EmptyString]
           | w :: ws => String a w :: ws
           end
  end.

(** [parts.join(sep)] *)
Fixpoint join (sep : string) (parts : list string) : string :=
  match parts with
  | [] => EmptyString
  | [p] => p
  | p :: ps => p +:+ sep +:+ join sep ps
  end.

Fixpoint bytes (s : string) : list Z :=
  match s with
  | EmptyString => []
  | String c s' => Z.of_N (N_of_ascii c) :: bytes s'
  end.

Definition continuation (b : Z) : bool := ((128 <=? b) && (b <? 192))%Z.

(** The UTF-16 code units of the character that starts with byte [b0],
    and the bytes after it; [None] when [b0] does not start a well-formed
    UTF-8 sequence (overlong forms and encoded surrogates are not well
    formed). *)
Definition character (b0 : Z) (rest : list Z) : option (list Z * list Z) :=
  if (b0 <? 128)%Z then Some ([b0], rest)
  else
    match rest with
    | b1 :: r1 =>
        if continuation b1 then
          if ((194 <=? b0) && (b0 <? 224))%Z
          then Some ([(b0 - 192) * 64 + (b1 - 128)]%Z, r1)
          else
            match r1 with
            | b2 :: r2 =>
                if continuation b2 then
                  let cp := ((b0 - 224) * 4096 + (b1 - 128) * 64 + (b2 - 128))%Z in
                  if ((224 <=? b0) && (b0 <? 240) && (2048 <=? cp)
                      && negb ((55296 <=? cp) && (cp <? 57344)))%Z
                  then Some ([cp], r2)
                  else
                    match r2 with
                    | b3 :: r3 =>
                        if continuation b3 then
                          let cp := ((b0 - 240) * 262144 + (b1 - 128) * 4096
                                     + (b2 - 128) * 64 + (b3 - 128))%Z in
                          if ((240 <=? b0) && (b0 <? 245) && (65536 <=? cp)
                              && (cp <? 1114112))%Z
                          then Some ([55296 + (cp - 65536) / 1024;
                                      56320 + (cp - 65536) mod 1024]%Z, r3)
                          else None
                        else None
                    | [] => None
                    end
                else None
            | [] => None
            end
        else None
    | [] => None
    end.

(** A byte that does not belong to a well-formed sequence counts as the code
    unit of its value. *)
Fixpoint decode (fuel : nat) (bs : list Z) : list Z :=
  match fuel, bs with
  | S fuel', b0 :: rest =>
      match character b0 rest with
      | Some (units, rest') => units ++ decode fuel' rest'
      | None => b0 :: decode fuel' rest
      end
  | _, _ => []
  end.

(** [s.charCodeAt(0)], [s.charCodeAt(1)], ... *)
Definition codeUnits (s : string) : list Z :=
  decode (length (bytes s)) (bytes s).

(** Comparison of two sequences of code units, unit by unit. *)
Fixpoint compareUnits (a b : list Z) : comparison :=
  match a, b with
  | [], [] => Eq
  | [], _ :: _ => Lt
  | _ :: _, [] => Gt
  | x :: a', y :: b' =>
      match (x ?= y)%Z with
      | Eq => compareUnits a' b'
      | c => c
      end
  end.

(** [s1 <= s2] on code units.  Two encodings of the same text (which differ
    only in bytes outside well-formed sequences) are told apart by their
    bytes, so that the order is total on [string]. *)
Definition leb (s1 s2 : string) : bool :=
  match compareUnits (codeUnits s1) (codeUnits s2) with
  | Lt => true
  | Gt => false
  | Eq => String.leb s1 s2
  end.

(** [s1 < s2] on code units, as the default sort comparator uses it *)
Definition ltb (s1 s2 : string) : bool := negb (leb s2 s1).

(** [String(n)] / [n.toString()] for an integer *)
Definition ofZ (n : Z) : string := NilZero.string_of_int (Z.to_int n).

Definition isEmpty (s : string) : bool :=
  match s with EmptyString => true | _ => false end.

End Str.

(* ===================================================================== *)
(** ** Thrown values                                                      *)
(* ===================================================================== *)

(** What a [catch (error)] clause of the worker looks at:
    [error instanceof Error] and [error.message]. *)
Record JsError := mkJsError { instanceofError : bool; message : string }.

(** [new Error(msg)] *)
Definition newError (msg : string) : JsError := mkJsError true msg.

(** A [TypeError] raised by the engine (property of null, call of a non-function). *)
Definition typeError : JsError := mkJsError true "TypeError".

(** The rejection of [fetch] after [controller.abort()]: a DOMException
    named AbortError, an instance of [Error]. *)
Definition abortError : JsError := mkJsError true "The operation was aborted".

Inductive Result (A : Type) : Type :=
  | Ok (a : A)
  | Threw (e : JsError).
Arguments Ok {A} a.
Arguments Threw {A} e.

Global Instance Result_ret : MRet Result := @Ok.
Global Instance Result_bind : MBind Result := fun A B k r =>
  match r with
  | Ok a => k a
  | Threw e => Threw e
  end.

(* ===================================================================== *)
(** ** Header values                                                      *)
(* ===================================================================== *)

Module Headers.

(** HTTP whitespace: tab, line feed, carriage return, space *)
Definition isWhitespace (c : ascii) : bool :=
  let n := N_of_ascii c in ((n =? 9) || (n =? 10) || (n =? 13) || (n =? 32))%N.

Fixpoint trimStart (s : string) : string :=
  match s with
  | String c s' => if isWhitespace c then trimStart s' else s
  | EmptyString => s
  end.

Fixpoint trimEnd (s : string) : string :=
  match s with
  | String c s' =>
      let t := trimEnd s' in
      if Str.isEmpty t && isWhitespace c then EmptyString else String c t
  | EmptyString => s
  end.

(** the value without leading and trailing HTTP whitespace *)
Definition normalize (s : string) : string := trimEnd (trimStart s).

(** a code unit that a header value may hold: a byte other than NUL, LF, CR *)
Definition legalUnit (u : Z) : bool :=
  ((u <=? 255) && negb ((u =? 0) || (u =? 10) || (u =? 13)))%Z.

Definition legal (s : string) : bool := forallb legalUnit (Str.codeUnits s).

(** What [headers.set(name, v)] stores for [v], or the [TypeError] it
    throws. *)
Definition value (v : string) : Result string :=
  let normalized := normalize v in
  if legal normalized then Ok normalized else Threw typeError.

End Headers.

(** A value that [headers.get(name)] returns: it is one that [Headers] holds. *)
Record HeaderValue := {
  headerText : string;
  headerHeld : Headers.value headerText = Ok headerText;
}.

(* ===================================================================== *)
(** ** JSON values                                                        *)
(* ===================================================================== *)

Inductive Json :=
  | JNull
  | JBool (b : bool)
  | JNum (n : Z)
  | JStr (s : string)
  | JArr (xs : list Json)
  | JObj (fields : list (string * Json)).

(** JavaScript numbers as far as the worker needs them *)
Inductive JsNumber := NaN | Num (n : Z).

Module JS.

(** Truthiness of a value read from a JSON document ([None] is [undefined]). *)
Definition truthy (v : option Json) : bool :=
  match v with
  | None | Some JNull => false
  | Some (JBool b) => b
  | Some (JNum n) => negb (n =? 0)%Z
  | Some (JStr s) => negb (Str.isEmpty s)
  | Some (JArr _) | Some (JObj _) => true
  end.

(** Truthiness of [string | null] / [string | undefined]. *)
Definition truthyStr (v : option string) : bool :=
  match v with
  | Some s => negb (Str.isEmpty s)
  | None => false
  end.

(** [v || undefined] on [string | null] *)
Definition orUndefined (v : option string) : option string :=
  if truthyStr v then v else None.

Fixpoint assoc {A} (name : string) (fields : list (string * A)) : option A :=
  match fields with
  | [] => None
  | (k, v) :: rest => if String.eqb k name then Some v else assoc name rest
  end.

(** [o.name] where [o] is a non-null value of a JSON document.  Objects built
    by [JSON.parse] have distinct keys.  None of the names the worker reads
    is a built-in property of strings, numbers, booleans or arrays. *)
Definition prop (o : Json) (name : string) : option Json :=
  match o with
  | JObj fields => assoc name fields
  | _ => None
  end.

(** [o.name] where [o] may be [null]: reading a property of [null] throws. *)
Definition propOf (o : Json) (name : string) : Result (option Json) :=
  match o with
  | JNull => Threw typeError
  | _ => Ok (prop o name)
  end.

(** [o?.name] where [o] may be [undefined] or [null]. *)
Definition optProp (o : option Json) (name : string) : option Json :=
  match o with
  | None | Some JNull => None
  | Some o' => prop o' name
  end.

(** [o.name = v] on an object that already has the property or not *)
Fixpoint setField (name : string) (v : Json) (fields : list (string * Json))
  : list (string * Json) :=
  match fields with
  | [] => [(name, v)]
  | (k, w) :: rest =>
      if String.eqb k name then (k, v) :: rest else (k, w) :: setField name v rest
  end.

(** An object literal [{ k1: e1, ..., kn: en }] as [JSON.stringify] sees it:
    a property whose value is [undefined] is left out. *)
Definition objectLiteral (props : list (string * option Json)) : Json :=
  JObj (omap (fun kv => match snd kv with
                        | Some v => Some (fst kv, v)
                        | None => None
                        end) props).

(** [ToString] of a JSON value (used by the default sort comparator). *)
Fixpoint toString (j : Json) : string :=
  match j with
  | JNull => "null"
  | JBool true => "true"
  | JBool false => "false"
  | JNum n => Str.ofZ n
  | JStr s => s
  | JArr xs =>
      Str.join "," (map (fun x => match x with
                                  | JNull => EmptyString
                                  | _ => toString x
                                  end) xs)
  | JObj _ => "[object Object]"
  end.

End JS.

(** *** [JSON.stringify] *)

Module JSON.

Definition hexDigit (n : N) : ascii :=
  ascii_of_N (if (n <? 10)%N then 48 + n else 87 + n).

(** Escaping of one code unit inside a JSON string literal. *)
Definition escape (c : ascii) : string :=
  let n := N_of_ascii c in
  if Ascii.eqb c Str.dquote then String Str.backslash (String Str.dquote EmptyString)
  else if Ascii.eqb c Str.backslash then String Str.backslash (String Str.backslash EmptyString)
  else if (n =? 8)%N then String Str.backslash "b"
  else if (n =? 9)%N then String Str.backslash "t"
  else if (n =? 10)%N then String Str.backslash "n"
  else if (n =? 12)%N then String Str.backslash "f"
  else if (n =? 13)%N then String Str.backslash "r"
  else if (n <? 32)%N then
    String Str.backslash
      (String "u" (String "0" (String "0"
         (String (hexDigit (n / 16)) (String (hexDigit (n mod 16)) EmptyString)))))
  else String c EmptyString.

Fixpoint escapeAll (s : string) : string :=
  match s with
  | EmptyString => EmptyString
  | String c s' => escape c +:+ escapeAll s'
  end.

Definition quote (s : string) : string :=
  String Str.dquote (escapeAll s +:+ String Str.dquote EmptyString).

Fixpoint stringify (j : Json) : string :=
  match j with
  | JNull => "null"
  | JBool true => "true"
  | JBool false => "false"
  | JNum n => Str.ofZ n
  | JStr s => quote s
  | JArr xs => "[" +:+ Str.join "," (map stringify xs) +:+ "]"
  | JObj fields =>
      "{" +:+ Str.join "," (map (fun kv => quote (fst kv) +:+ ":" +:+ stringify (snd kv))
                                fields) +:+ "}"
  end.

(** A number in property position: [NaN] is written [null]. *)
Definition ofNumber (n : JsNumber) : Json :=
  match n with
  | NaN => JNull
  | Num z => JNum z
  end.

End JSON.

(* ===================================================================== *)
(** ** [Array.prototype.sort]                                             *)
(* ===================================================================== *)

(** The sort is stable (ECMAScript 2019).  For a comparator that is a
    consistent order on the elements the result does not depend on the
    algorithm; the model is the stable insertion sort.  [gt a b] is
    [comparefn(a, b) > 0].  For a comparator that is not consistent (for
    instance [a.id - b.id] when an id is not a number) ECMAScript leaves the
    order to the engine, and the model says nothing about the source. *)

Module ArraySort.
Section WithComparator.
Context {A : Type} (gt : A -> A -> bool).

Fixpoint insert (x : A) (sorted : list A) : list A :=
  match sorted with
  | [] => [x]
  | y :: ys => if gt x y then y :: insert x ys else x :: y :: ys
  end.

Fixpoint sort (l : list A) : list A :=
  match l with
  | [] => []
  | x :: xs => insert x (sort xs)
  end.
End WithComparator.

(** The same sort with a comparator that may throw.  Which pairs the engine
    compares, and which element is the receiver, depends on its algorithm:
    the model agrees with the source when the comparator throws on every
    pair or on none. *)
Section WithThrowingComparator.
Context {A : Type} (gt : A -> A -> Result bool).

Fixpoint insertR (x : A) (sorted : list A) : Result (list A) :=
  match sorted with
  | [] => Ok [x]
  | y :: ys =>
      match gt x y with
      | Threw e => Threw e
      | Ok true => match insertR x ys with
                   | Ok r => Ok (y :: r)
                   | Threw e => Threw e
                   end
      | Ok false => Ok (x :: y :: ys)
      end
  end.

Fixpoint sortR (l : list A) : Result (list A) :=
  match l with
  | [] => Ok []
  | x :: xs => match sortR xs with
               | Ok s => insertR x s
               | Threw e => Threw e
               end
  end.
End WithThrowingComparator.

(** [array.sort()] with no comparator: by [ToString], code unit order. *)
Definition defaultGt (a b : Json) : bool := Str.ltb (JS.toString b) (JS.toString a).
Definition sortDefault (l : list Json) : list Json := sort defaultGt l.

(** [ids.sort()] on an array of strings *)
Definition sortStrings (l : list string) : list string :=
  sort (fun a b => Str.ltb b a) l.

End ArraySort.

(* ===================================================================== *)
(** ** Platform functions and the worker environment                      *)
(* ===================================================================== *)

Record Platform := {
  (** lower-case hex of [crypto.subtle.digest('SHA-256', utf8(s))] *)
  sha256Hex : string -> string;
  (** [a.localeCompare(b)] *)
  localeCompare : string -> string -> Z;
  (** the numeric value of a string ([ToNumber]) *)
  stringToNumber : string -> JsNumber;
}.

(** [interface Env] without the KV binding, which is part of the worker state. *)
Record Env := {
  ORIGIN_URL : string;
  THINK_ORIGIN_URL : string;
}.

(** [interface CachedResponse] *)
Record CachedResponse := {
  data : Json;
  timestamp : Z;
  etag : option string;
}.

(** [interface ProductRequestBody] *)
Record ProductRequestBody := {
  shop : string;
  productId : option string;
  productHandle : option string;
  type : string;
  layout : option string;
  limit : option JsNumber;
  excludeProductIds : option (list string);
  cartToken : option string;
}.

(** The inbound request: method, [new URL(request.url)] and the outcome of
    [request.json()]. *)
Record Request := {
  method : string;
  pathname : string;
  searchParams : list (string * string);
  json : Result Json;
}.

(* ===================================================================== *)
(** ** Parsing and validation                                             *)
(* ===================================================================== *)

Module Parse.

Definition isSpace (c : ascii) : bool :=
  let n := N_of_ascii c in ((9 <=? n) && (n <=? 13) || (n =? 32))%N.

Definition digit (c : ascii) : option Z :=
  let n := N_of_ascii c in
  if ((48 <=? n) && (n <=? 57))%N then Some (Z.of_N n - 48)%Z else None.

Fixpoint dropSpaces (s : string) : string :=
  match s with
  | String c s' => if isSpace c then dropSpaces s' else s
  | EmptyString => s
  end.

Fixpoint digits (s : string) (acc : option Z) : option Z :=
  match s with
  | String c s' =>
      match digit c with
      | Some d => digits s' (Some (10 * default 0%Z acc + d)%Z)
      | None => acc
      end
  | EmptyString => acc
  end.

(** [parseInt(s, 10)].  The result is exact; the source's is the nearest
    double, which is the same number up to 2^53 in magnitude. *)
Definition parseInt (s : string) : JsNumber :=
  let s := dropSpaces s in
  let '(neg, s) := match s with
                   | String "-" s' => (true, s')
                   | String "+" s' => (false, s')
                   | _ => (false, s)
                   end in
  match digits s None with
  | None => NaN
  | Some n => Num (if neg then - n else n)%Z
  end.

End Parse.

(** [parseProductQueryParams(url)]; [params.get] is [JS.assoc]. *)
Definition parseProductQueryParams (params : list (string * string))
  : option ProductRequestBody :=
  let shop := JS.assoc "shop" params in
  let type := JS.assoc "type" params in
  let productId := JS.assoc "productId" params in
  let productHandle := JS.assoc "productHandle" params in
  let layout := JS.assoc "layout" params in
  let cartToken := JS.assoc "cartToken" params in
  match shop, type with
  | Some shop, Some type =>
      if Str.isEmpty shop || Str.isEmpty type then None
      else if negb (JS.truthyStr productId) && negb (JS.truthyStr productHandle) then None
      else
        let excludeProductIds :=
          if JS.truthyStr (JS.assoc "excludeProductIds" params)
          then Str.split "," <$> JS.assoc "excludeProductIds" params
          else None in
        let limit :=
          if JS.truthyStr (JS.assoc "limit" params)
          then Parse.parseInt <$> JS.assoc "limit" params
          else None in
        Some {| shop := shop;
                type := type;
                productId := JS.orUndefined productId;
                productHandle := JS.orUndefined productHandle;
                layout := JS.orUndefined layout;
                cartToken := JS.orUndefined cartToken;
                excludeProductIds := excludeProductIds;
                limit := limit |}
  | _, _ => None
  end.

(** [parseCartRequestBody(request)]: the whole body of the function is inside
    [try], so a rejected [request.json()] and a [null] document both give [null]. *)
Definition parseCartRequestBody (req : Request) : option Json :=
  match json req with
  | Threw _ => None
  | Ok body =>
      match JS.propOf body "shop", JS.propOf body "type" with
      | Ok shop, Ok type =>
          if negb (JS.truthy shop) || negb (JS.truthy type) then None else Some body
      | _, _ => None
      end
  end.

(** [parseStorefrontRequestBody(request)] *)
Definition parseStorefrontRequestBody (req : Request) : option Json :=
  match json req with
  | Threw _ => None
  | Ok body =>
      match JS.propOf body "cart", JS.propOf body "shop" with
      | Ok cart, Ok shop =>
          if negb (JS.truthy cart) || negb (JS.truthy shop) then None else Some body
      | _, _ => None
      end
  end.

(** [parseUpsellRequestBody(request)] *)
Definition parseUpsellRequestBody (req : Request) : option Json :=
  match json req with
  | Threw _ => None
  | Ok body =>
      match JS.propOf body "shop", JS.propOf body "type" with
      | Ok shop, Ok type =>
          if negb (JS.truthy shop) || negb (JS.truthy type) then None
          else if negb (JS.truthy (JS.prop body "items"))
                  && negb (JS.truthy (JS.prop body "productId")) then None
          else Some body
      | _, _ => None
      end
  end.

(* ===================================================================== *)
(** ** Cache key generators                                               *)
(* ===================================================================== *)

Section KeyGenerators.
Context (P : Platform).

(** The object handed to [JSON.stringify] by [generateProductCacheKey]. *)
Definition productKeyData (body : ProductRequestBody) : Json :=
  JS.objectLiteral
    [ ("shop", Some (JStr (shop body)));
      ("productId", JStr <$> productId body);
      ("productHandle", JStr <$> productHandle body);
      ("type", Some (JStr (type body)));
      ("layout", JStr <$> layout body);
      ("limit", JSON.ofNumber <$> limit body);
      ("excludeProductIds",
        (fun ids => JArr (JStr <$> ArraySort.sortStrings ids)) <$> excludeProductIds body) ].

Definition generateProductCacheKey (body : ProductRequestBody) : string :=
  "rec_product_" +:+ sha256Hex P (JSON.stringify (productKeyData body)).

(** [body.products?.sort()]: [undefined] for a missing or null property, the
    sorted array for an array, a TypeError for anything else. *)
Definition sortedProducts (body : Json) : Result (option (list Json)) :=
  match JS.prop body "products" with
  | None | Some JNull => Ok None
  | Some (JArr xs) => Ok (Some (ArraySort.sortDefault xs))
  | Some _ => Threw typeError
  end.

Definition cartKeyData (body : Json) : Result Json :=
  match sortedProducts body with
  | Threw e => Threw e
  | Ok products =>
      Ok (JS.objectLiteral
            [ ("shop", JS.prop body "shop");
              ("type", JS.prop body "type");
              ("products", JArr <$> products);
              ("layout", JS.prop body "layout");
              ("limit", JS.prop body "limit") ])
  end.

Definition generateCartCacheKey (body : Json) : Result string :=
  match cartKeyData body with
  | Threw e => Threw e
  | Ok keyData => Ok ("rec_cart_" +:+ sha256Hex P (JSON.stringify keyData))
  end.

(** [sort()] works in place: the body that [fetchCartFromOrigin] later
    serialises carries the sorted [products]. *)
Definition cartBodyAfterKey (body : Json) : Json :=
  match body, sortedProducts body with
  | JObj fields, Ok (Some sorted) => JObj (JS.setField "products" (JArr sorted) fields)
  | _, _ => body
  end.

(** One element of the simplified items array of the storefront key. *)
Record StorefrontKeyItem := {
  id : option Json;
  quantity : option Json;
  properties : option Json;
}.

Definition storefrontKeyItemJson (it : StorefrontKeyItem) : Json :=
  JS.objectLiteral
    [ ("id", id it); ("quantity", quantity it); ("properties", properties it) ].

(** [item => ({ id: item.variant_id, quantity: item.quantity,
     properties: item.properties })] *)
Definition storefrontKeyItem (item : Json) : Result StorefrontKeyItem :=
  match item with
  | JNull => Threw typeError
  | _ => Ok {| id := JS.prop item "variant_id";
               quantity := JS.prop item "quantity";
               properties := JS.prop item "properties" |}
  end.

(** [ToNumber] of a value of a JSON document *)
Definition toNumber (v : option Json) : JsNumber :=
  match v with
  | None => NaN
  | Some JNull => Num 0
  | Some (JBool b) => Num (if b then 1 else 0)
  | Some (JNum n) => Num n
  | Some (JStr s) => stringToNumber P s
  | Some (JArr xs) => stringToNumber P (JS.toString (JArr xs))
  | Some (JObj _) => NaN
  end.

(** [(a, b) => a.id - b.id] is positive *)
Definition byIdGt (a b : StorefrontKeyItem) : bool :=
  match toNumber (id a), toNumber (id b) with
  | Num x, Num y => (0 <? x - y)%Z
  | _, _ => false
  end.

Fixpoint mapR {A B} (f : A -> Result B) (l : list A) : Result (list B) :=
  match l with
  | [] => Ok []
  | x :: xs =>
      match f x with
      | Threw e => Threw e
      | Ok y => match mapR f xs with
                | Threw e => Threw e
                | Ok ys => Ok (y :: ys)
                end
      end
  end.

(** [body.cart?.items?.map(...).sort(...)] *)
Definition storefrontKeyItems (cart : option Json)
  : Result (option (list StorefrontKeyItem)) :=
  match JS.optProp cart "items" with
  | None | Some JNull => Ok None
  | Some (JArr items) =>
      match mapR storefrontKeyItem items with
      | Threw e => Threw e
      | Ok mapped => Ok (Some (ArraySort.sort byIdGt mapped))
      end
  | Some _ => Threw typeError
  end.

Definition storefrontKeyData (body : Json) : Result Json :=
  let cart := JS.prop body "cart" in
  match storefrontKeyItems cart with
  | Threw e => Threw e
  | Ok items =>
      Ok (JS.objectLiteral
            [ ("shop", JS.prop body "shop");
              ("cartToken", JS.optProp cart "token");
              ("cartTotal", JS.optProp cart "total_price");
              ("itemCount", JS.optProp cart "item_count");
              ("items", (fun l => JArr (storefrontKeyItemJson <$> l)) <$> items) ])
  end.

Definition generateStorefrontCacheKey (body : Json) : Result string :=
  match storefrontKeyData body with
  | Threw e => Threw e
  | Ok keyData => Ok ("storefront_" +:+ sha256Hex P (JSON.stringify keyData))
  end.

(** One element of the items array of the upsell key. *)
Record UpsellKeyItem := {
  uProductId : option Json;
  uVariantId : option Json;
}.

Definition upsellKeyItemJson (it : UpsellKeyItem) : Json :=
  JS.objectLiteral [ ("productId", uProductId it); ("variantId", uVariantId it) ].

Definition upsellKeyItem (item : Json) : Result UpsellKeyItem :=
  match item with
  | JNull => Threw typeError
  | _ => Ok {| uProductId := JS.prop item "productId";
               uVariantId := JS.prop item "variantId" |}
  end.

(** [(a, b) => a.productId.localeCompare(b.productId)] is positive;
    the receiver must be a string, the argument is converted to one. *)
Definition byProductIdGt (a b : UpsellKeyItem) : Result bool :=
  match uProductId a with
  | Some (JStr x) =>
      let y := match uProductId b with
               | None => "undefined"
               | Some v => JS.toString v
               end in
      Ok (0 <? localeCompare P x y)%Z
  | _ => Threw typeError
  end.

Definition upsellKeyItems (body : Json) : Result (option (list UpsellKeyItem)) :=
  match JS.prop body "items" with
  | None | Some JNull => Ok None
  | Some (JArr items) =>
      match mapR upsellKeyItem items with
      | Threw e => Threw e
      | Ok mapped =>
          match ArraySort.sortR byProductIdGt mapped with
          | Threw e => Threw e
          | Ok sorted => Ok (Some sorted)
          end
      end
  | Some _ => Threw typeError
  end.

Definition generateUpsellCacheKey (body : Json) : Result string :=
  match upsellKeyItems body with
  | Threw e => Threw e
  | Ok items =>
      Ok ("upsell_" +:+ sha256Hex P (JSON.stringify
            (JS.objectLiteral
               [ ("shop", JS.prop body "shop");
                 ("type", JS.prop body "type");
                 ("items", (fun l => JArr (upsellKeyItemJson <$> l)) <$> items);
                 ("productId", JS.prop body "productId");
                 ("variantId", JS.prop body "variantId") ])))
  end.

Definition generateRecommendationsCacheKey (shop productHandle : string) : string :=
  "recommendations_" +:+ sha256Hex P (JSON.stringify
     (JS.objectLiteral [ ("shop", Some (JStr shop));
                         ("productHandle", Some (JStr productHandle)) ])).

End KeyGenerators.

(* ===================================================================== *)
(** ** Responses                                                          *)
(* ===================================================================== *)

Inductive CacheStatus := HIT | MISS | STALE | BYPASS.

Definition cacheStatusText (c : CacheStatus) : string :=
  match c with
  | HIT => "HIT"
  | MISS => "MISS"
  | STALE => "STALE"
  | BYPASS => "BYPASS"
  end.

Record Response := {
  status : Z;
  headers : list (string * string);
  body : option string;
}.

(** the body the response was built with *)
Definition responseBody (r : Response) : option string := body r.

(** [response.headers.get(name)] *)
Definition header (name : string) (r : Response) : option string :=
  JS.assoc name (headers r).

(** [response.clone()]: a response of the model is a value, and its copy is
    the response itself. *)
Definition clone (r : Response) : Response := r.

Definition allowHeaders : string :=
  "Content-Type, CF-Access-Client-Id, CF-Access-Client-Secret, cf-access-client-id, cf-access-client-secret, Accept, Accept-Language, Cache-Control, DNT, Origin, Pragma, Priority, Referer, Sec-CH-UA, Sec-CH-UA-Mobile, Sec-CH-UA-Platform, Sec-Fetch-Dest, Sec-Fetch-Mode, Sec-Fetch-Site, User-Agent".

Definition corsHeaders : list (string * string) :=
  [ ("Access-Control-Allow-Origin", "*");
    ("Access-Control-Allow-Methods", "GET, POST, OPTIONS");
    ("Access-Control-Allow-Headers", allowHeaders) ].

(** [`${responseTime}ms`] *)
Definition responseTimeText (startTime now : Z) : string :=
  Str.ofZ (now - startTime) +:+ "ms".

(** The response of [createSuccessResponse] whose headers end with
    [etagHeaders]. *)
Definition successResponse (data : Json) (cacheStatus : CacheStatus)
    (startTime : Z) (etagHeaders : list (string * string)) (now : Z) : Response :=
  {| status := 200;
     headers :=
       [ ("Content-Type", "application/json");
         ("X-Cache", cacheStatusText cacheStatus);
         ("X-Response-Time", responseTimeText startTime now);
         ("X-Powered-By", "Cloudflare-Worker");
         ("Cache-Control", match cacheStatus with
                           | HIT => "public, max-age=60"
                           | _ => "public, max-age=10"
                           end) ]
       ++ corsHeaders
       ++ etagHeaders;
     body := Some (JSON.stringify data) |}.

(** [createSuccessResponse(data, cacheStatus, startTime, etag)];
    [now] is the value of [Date.now()].  [headers.set('ETag', etag)] throws
    when [etag] is not a header value. *)
Definition createSuccessResponse (data : Json) (cacheStatus : CacheStatus)
    (startTime : Z) (etag : option string) (now : Z) : Result Response :=
  if JS.truthyStr etag then
    match Headers.value (default EmptyString etag) with
    | Ok held => Ok (successResponse data cacheStatus startTime [("ETag", held)] now)
    | Threw e => Threw e
    end
  else Ok (successResponse data cacheStatus startTime [] now).

(** [createErrorResponse(message, status, startTime)] *)
Definition createErrorResponse (message : string) (status : Z) (startTime now : Z)
  : Response :=
  {| status := status;
     headers :=
       [ ("Content-Type", "application/json");
         ("X-Response-Time", responseTimeText startTime now);
         ("X-Powered-By", "Cloudflare-Worker") ]
       ++ corsHeaders;
     body := Some (JSON.stringify
                     (JObj [ ("success", JBool false); ("error", JStr message) ])) |}.

(** [new Response('Not found', { status: 404 })]; the content type is the one
    the platform gives to a string body. *)
Definition notFoundResponse : Response :=
  {| status := 404;
     headers := [ ("Content-Type", "text/plain;charset=UTF-8") ];
     body := Some "Not found" |}.

(** The answer to [OPTIONS]. *)
Definition preflightResponse : Response :=
  {| status := 200; headers := corsHeaders; body := None |}.

(** The outer [try ... catch] of a handler around an expression that gives
    its response: what is thrown is answered 500. *)
Definition orInternalError (r : Result Response) (startTime now : Z) : Response :=
  match r with
  | Ok response => response
  | Threw _ => createErrorResponse "Internal server error" 500 startTime now
  end.

(* ===================================================================== *)
(** ** Staleness                                                          *)
(* ===================================================================== *)

Definition ONE_HOUR : Z := 3600 * 1000.

(** [isStale(cached)]; [now] is the value of [Date.now()]. *)
Definition isStale (now : Z) (cached : CachedResponse) : bool :=
  (ONE_HOUR <? now - timestamp cached)%Z.

(** [getCachedResponse(cache, key)]: [read] is the outcome of
    [cache.get(key, { type: 'json' })]. *)
Definition getCachedResponse (read : Result (option CachedResponse))
  : option CachedResponse :=
  match read with
  | Ok cached => cached
  | Threw _ => None
  end.

(* ===================================================================== *)
(** ** ETag                                                               *)
(* ===================================================================== *)

Module Etag.

(** [ToInt32] *)
Definition toInt32 (n : Z) : Z :=
  let m := (n mod 2 ^ 32)%Z in
  if (2 ^ 31 <=? m)%Z then (m - 2 ^ 32)%Z else m.

(** The loop of [generateEtag] over the code units of [str]. *)
Fixpoint hashLoop (units : list Z) (hash : Z) : Z :=
  match units with
  | [] => hash
  | char :: rest =>
      let hash := (toInt32 (hash * 2 ^ 5) - hash + char)%Z in
      hashLoop rest (toInt32 hash)
  end.

Definition digit36 (d : Z) : ascii :=
  ascii_of_N (Z.to_N (if (d <? 10)%Z then 48 + d else 87 + d)).

(** [n.toString(36)] for [0 <= n < 36 ^ (fuel + 1)] *)
Fixpoint toString36 (fuel : nat) (n : Z) : string :=
  match fuel with
  | O => String (digit36 (n mod 36)) EmptyString
  | S fuel' =>
      if (n <? 36)%Z then String (digit36 n) EmptyString
      else toString36 fuel' (n / 36) +:+ String (digit36 (n mod 36)) EmptyString
  end.

(** [generateEtag(data)] *)
Definition generateEtag (data : Json) : string :=
  let hash := hashLoop (Str.codeUnits (JSON.stringify data)) 0 in
  String Str.dquote (toString36 6 (Z.abs hash) +:+ String Str.dquote EmptyString).

End Etag.

(* ===================================================================== *)
(** ** Origin fetchers                                                    *)
(* ===================================================================== *)

(** What the origin call comes back with: a rejection of [fetch] (network
    failure, abort by the timeout), or a response with its status, what
    [headers.get('etag')] returns and the outcome of [originResponse.json()]. *)
Inductive FetchOutcome :=
  | Rejected (e : JsError)
  | Resolved (status : Z) (etagHeader : option HeaderValue) (payload : Result Json).

(** [originResponse.ok] *)
Definition responseOk (status : Z) : bool := ((200 <=? status) && (status <=? 299))%Z.

(** [env.CACHE.put(key, JSON.stringify(cacheData), { expirationTtl })] handed
    to [ctx.waitUntil]. *)
Record KvPut := {
  putKey : string;
  putValue : CachedResponse;
  expirationTtl : Z;
}.

(** The request sent to the origin.  [accessHeaders] tells whether the
    CF-Access client id and secret headers are attached. *)
Record OriginRequest := {
  originMethod : string;
  originUrl : string;
  originQuery : list (string * string);
  originBody : option string;
  accessHeaders : bool;
  timeoutMs : Z;
}.

(** [originResponse.headers.get('etag') || generateEtag(data)] *)
Definition originEtag (etagHeader : option HeaderValue) (data : Json) : string :=
  let received := headerText <$> etagHeader in
  if JS.truthyStr received then default EmptyString received
  else Etag.generateEtag data.

(** The five fetchers share the code that runs once the origin call has come
    back; they differ in the timeout message, the TTL, in whether the entry is
    written ([writeKey]) and in the tag of a fresh result ([freshStatus]). *)
Section AfterFetch.
Context (timeoutMessage : string) (ttl : Z)
        (freshStatus : CacheStatus) (writeKey : option string).
Context (staleCache : option CachedResponse) (startTime : Z).

(** the [try] block from [await fetch(...)] on: what it returns or throws,
    and the puts it has handed to [ctx.waitUntil] by then *)
Definition afterFetchTry (outcome : FetchOutcome) (now : Z)
  : Result Response * list KvPut :=
  match outcome with
  | Rejected e => (Threw e, [])
  | Resolved status etagHeader payload =>
      if negb (responseOk status) then
        match staleCache with
        | Some stale =>
            (createSuccessResponse (data stale) STALE startTime (etag stale) now, [])
        | None => (Threw (newError ("Origin returned " +:+ Str.ofZ status)), [])
        end
      else
        match payload with
        | Threw e => (Threw e, [])
        | Ok data =>
            let etag := originEtag etagHeader data in
            let cacheData := {| data := data; timestamp := now; etag := Some etag |} in
            (createSuccessResponse data freshStatus startTime (Some etag) now,
             match writeKey with
             | Some key => [ {| putKey := key; putValue := cacheData;
                                expirationTtl := ttl |} ]
             | None => []
             end)
        end
  end.

(** the [catch (error)] block; what it throws rejects the fetcher's promise *)
Definition afterFetchCatch (error : JsError) (now : Z) : Result Response :=
  match staleCache with
  | Some stale => createSuccessResponse (data stale) STALE startTime (etag stale) now
  | None =>
      let errorMessage :=
        if instanceofError error && Str.includes "abort" (message error)
        then timeoutMessage else "Origin unavailable" in
      Ok (createErrorResponse errorMessage 503 startTime now)
  end.

Definition afterFetch (outcome : FetchOutcome) (now : Z)
  : Result Response * list KvPut :=
  match afterFetchTry outcome now with
  | (Ok r, puts) => (Ok r, puts)
  | (Threw error, puts) => (afterFetchCatch error now, puts)
  end.
End AfterFetch.

Definition protectedOrigin (env : Env) : bool :=
  Str.includes "tunnel.magicsell.ai" (ORIGIN_URL env)
  || Str.includes "api.magicsell.ai" (ORIGIN_URL env).

Definition optParam (name : string) (v : option string) : list (string * string) :=
  if JS.truthyStr v then [(name, default EmptyString v)] else [].

(** *** [fetchProductFromOrigin] *)

Definition productOriginRequest (env : Env) (body : ProductRequestBody) : OriginRequest :=
  {| originMethod := "GET";
     originUrl := ORIGIN_URL env +:+ "/api/v2/recommendation/product";
     originQuery :=
       [ ("shop", shop body); ("type", type body) ]
       ++ optParam "productId" (productId body)
       ++ optParam "productHandle" (productHandle body)
       ++ optParam "layout" (layout body)
       ++ optParam "cartToken" (cartToken body);
     originBody := None;
     accessHeaders := protectedOrigin env;
     timeoutMs := 10000 |}.

Definition fetchProductFromOrigin (cacheKey : string)
    (staleCache : option CachedResponse) (startTime : Z)
    (outcome : FetchOutcome) (now : Z) : Result Response * list KvPut :=
  afterFetch "Origin timeout (10s)" 3600 MISS (Some cacheKey)
             staleCache startTime outcome now.

(** *** [fetchCartFromOrigin] *)

Definition postOriginRequest (env : Env) (path : string) (body : Json) (timeout : Z)
  : OriginRequest :=
  {| originMethod := "POST";
     originUrl := ORIGIN_URL env +:+ path;
     originQuery := [];
     originBody := Some (JSON.stringify body);
     accessHeaders := protectedOrigin env;
     timeoutMs := timeout |}.

Definition cartOriginRequest (env : Env) (body : Json) : OriginRequest :=
  postOriginRequest env "/api/v2/recommendation/cart" body 10000.

Definition fetchCartFromOrigin (cacheKey : string)
    (staleCache : option CachedResponse) (startTime : Z)
    (outcome : FetchOutcome) (now : Z) : Result Response * list KvPut :=
  afterFetch "Origin timeout (10s)" 3600 MISS (Some cacheKey)
             staleCache startTime outcome now.

(** *** [fetchStorefrontFromOrigin] *)

Definition storefrontOriginRequest (env : Env) (body : Json) : OriginRequest :=
  postOriginRequest env "/api/storefront" body 15000.

(** [cacheKey && !body.actionType] guards the write; [cacheKey ? 'MISS' : 'BYPASS']
    is the tag. *)
Definition fetchStorefrontFromOrigin (body : Json) (cacheKey : option string)
    (staleCache : option CachedResponse) (startTime : Z)
    (outcome : FetchOutcome) (now : Z) : Result Response * list KvPut :=
  afterFetch "Origin timeout (15s)" 300
             (if JS.truthyStr cacheKey then MISS else BYPASS)
             (if JS.truthyStr cacheKey && negb (JS.truthy (JS.prop body "actionType"))
              then cacheKey else None)
             staleCache startTime outcome now.

(** *** [fetchUpsellFromOrigin] *)

Definition upsellOriginRequest (env : Env) (body : Json) : OriginRequest :=
  postOriginRequest env "/api/v2/funnel/upsell" body 10000.

Definition fetchUpsellFromOrigin (cacheKey : string)
    (staleCache : option CachedResponse) (startTime : Z)
    (outcome : FetchOutcome) (now : Z) : Result Response * list KvPut :=
  afterFetch "Origin timeout (10s)" 1800 MISS (Some cacheKey)
             staleCache startTime outcome now.

(** *** [fetchRecommendationsFromOrigin] *)

Definition recommendationsOriginRequest (env : Env) (shop productHandle : string)
  : OriginRequest :=
  {| originMethod := "GET";
     originUrl := THINK_ORIGIN_URL env +:+ "/recommendations/handle/"
                  +:+ shop +:+ "/" +:+ productHandle;
     originQuery := [];
     originBody := None;
     accessHeaders := false;
     timeoutMs := 10000 |}.

Definition fetchRecommendationsFromOrigin (cacheKey : string)
    (staleCache : option CachedResponse) (startTime : Z)
    (outcome : FetchOutcome) (now : Z) : Result Response * list KvPut :=
  afterFetch "Origin timeout (10s)" 600 MISS (Some cacheKey)
             staleCache startTime outcome now.

(* ===================================================================== *)
(** ** Handlers up to their first await on shared state                   *)
(* ===================================================================== *)

(** A validated request of one of the five cacheable paths, as the handler
    holds it when it reads the cache. *)
Inductive Cacheable :=
  | ProductRequest (body : ProductRequestBody)
  | CartRequest (body : Json)
  | StorefrontRequest (body : Json)
  | UpsellRequest (body : Json)
  | RecommendationsRequest (shop productHandle : string).

(** A call of one of the five fetchers with its [body] and [cacheKey]
    arguments. *)
Inductive OriginCall :=
  | CallProduct (body : ProductRequestBody) (cacheKey : string)
  | CallCart (body : Json) (cacheKey : string)
  | CallStorefront (body : Json) (cacheKey : option string)
  | CallUpsell (body : Json) (cacheKey : string)
  | CallRecommendations (shop productHandle : string) (cacheKey : string).

(** The fetcher a handler calls on a miss. *)
Definition producer (c : Cacheable) (cacheKey : string) : OriginCall :=
  match c with
  | ProductRequest body => CallProduct body cacheKey
  | CartRequest body => CallCart body cacheKey
  | StorefrontRequest body => CallStorefront body (Some cacheKey)
  | UpsellRequest body => CallUpsell body cacheKey
  | RecommendationsRequest shop productHandle =>
      CallRecommendations shop productHandle cacheKey
  end.

Definition callKey (c : OriginCall) : option string :=
  match c with
  | CallProduct _ k | CallCart _ k | CallUpsell _ k | CallRecommendations _ _ k => Some k
  | CallStorefront _ k => k
  end.

(** What a handler has done when it reaches its first await on the cache or on
    the origin: answered, asked the cache for [cacheKey], or called the
    storefront fetcher directly. *)
Inductive Started :=
  | Respond (r : Response)
  | ReadCache (c : Cacheable) (cacheKey : string)
  | CallOrigin (call : OriginCall).

Section Handlers.
Context (P : Platform).

(** [excludeProductIds?.sort()] works in place. *)
Definition productBodyAfterKey (body : ProductRequestBody) : ProductRequestBody :=
  {| shop := shop body;
     productId := productId body;
     productHandle := productHandle body;
     type := type body;
     layout := layout body;
     limit := limit body;
     excludeProductIds := ArraySort.sortStrings <$> excludeProductIds body;
     cartToken := cartToken body |}.

Definition handleProductRecommendation (req : Request) (startTime now : Z) : Started :=
  if negb (String.eqb (method req) "GET") then
    Respond (createErrorResponse "Method not allowed" 405 startTime now)
  else
    match parseProductQueryParams (searchParams req) with
    | None => Respond (createErrorResponse "Invalid request parameters" 400 startTime now)
    | Some body =>
        ReadCache (ProductRequest (productBodyAfterKey body))
                  (generateProductCacheKey P body)
    end.

Definition handleCartRecommendation (req : Request) (startTime now : Z) : Started :=
  if negb (String.eqb (method req) "POST") then
    Respond (createErrorResponse "Method not allowed" 405 startTime now)
  else
    match parseCartRequestBody req with
    | None => Respond (createErrorResponse "Invalid request parameters" 400 startTime now)
    | Some body =>
        match generateCartCacheKey P body with
        | Threw _ => Respond (createErrorResponse "Internal server error" 500 startTime now)
        | Ok cacheKey => ReadCache (CartRequest (cartBodyAfterKey body)) cacheKey
        end
    end.

Definition handleStorefrontRequest (req : Request) (startTime now : Z) : Started :=
  if negb (String.eqb (method req) "POST") then
    Respond (createErrorResponse "Method not allowed" 405 startTime now)
  else
    match parseStorefrontRequestBody req with
    | None => Respond (createErrorResponse "Invalid request parameters" 400 startTime now)
    | Some body =>
        if negb (JS.truthy (JS.prop body "actionType")) then
          match generateStorefrontCacheKey P body with
          | Threw _ =>
              Respond (createErrorResponse "Internal server error" 500 startTime now)
          | Ok cacheKey => ReadCache (StorefrontRequest body) cacheKey
          end
        else CallOrigin (CallStorefront body None)
    end.

Definition handleUpsellRequest (req : Request) (startTime now : Z) : Started :=
  if negb (String.eqb (method req) "POST") then
    Respond (createErrorResponse "Method not allowed" 405 startTime now)
  else
    match parseUpsellRequestBody req with
    | None => Respond (createErrorResponse "Invalid request parameters" 400 startTime now)
    | Some body =>
        match generateUpsellCacheKey P body with
        | Threw _ => Respond (createErrorResponse "Internal server error" 500 startTime now)
        | Ok cacheKey => ReadCache (UpsellRequest body) cacheKey
        end
    end.

Definition handleThinkRecommendations (req : Request) (startTime now : Z) : Started :=
  if negb (String.eqb (method req) "GET") then
    Respond (createErrorResponse "Method not allowed" 405 startTime now)
  else
    let pathParts := Str.split "/" (pathname req) in
    if (length pathParts <? 5)%nat
       || negb (bool_decide (pathParts !! 1%nat = Some "recommendations"))
       || negb (bool_decide (pathParts !! 2%nat = Some "handle"))
    then Respond (createErrorResponse "Invalid URL format" 400 startTime now)
    else
      let shop := pathParts !! 3%nat in
      let productHandle := pathParts !! 4%nat in
      if negb (JS.truthyStr shop) || negb (JS.truthyStr productHandle) then
        Respond (createErrorResponse "Missing shop or product handle" 400 startTime now)
      else
        let shop := default EmptyString shop in
        let productHandle := default EmptyString productHandle in
        ReadCache (RecommendationsRequest shop productHandle)
                  (generateRecommendationsCacheKey P shop productHandle).

(** The [fetch] entry point: routing. *)
Definition fetch (req : Request) (startTime now : Z) : Started :=
  let isProductEndpoint := Str.includes "/api/v2/recommendation/product" (pathname req) in
  let isCartEndpoint := Str.includes "/api/v2/recommendation/cart" (pathname req) in
  let isStorefrontEndpoint := Str.includes "/api/storefront" (pathname req) in
  let isUpsellEndpoint := Str.includes "/api/v2/funnel/upsell" (pathname req) in
  let isThinkRecommendationsEndpoint :=
    Str.startsWith "/recommendations/handle/" (pathname req) in
  if negb isProductEndpoint && negb isCartEndpoint && negb isStorefrontEndpoint
     && negb isUpsellEndpoint && negb isThinkRecommendationsEndpoint
  then Respond notFoundResponse
  else if String.eqb (method req) "OPTIONS" then Respond preflightResponse
  else if isProductEndpoint then handleProductRecommendation req startTime now
  else if isCartEndpoint then handleCartRecommendation req startTime now
  else if isStorefrontEndpoint then handleStorefrontRequest req startTime now
  else if isUpsellEndpoint then handleUpsellRequest req startTime now
  else if isThinkRecommendationsEndpoint then handleThinkRecommendations req startTime now
  else Respond (createErrorResponse "Internal server error" 500 startTime now).

End Handlers.

(* ===================================================================== *)
(** ** The worker as a transition system                                  *)
(* ===================================================================== *)

(** One call of a fetcher: its arguments and, once the origin call has come
    back and the fetcher has returned or thrown, the response its promise is
    fulfilled with or the error it is rejected with.  This is the promise
    stored in [inFlightRequests]. *)
Record OriginFetch := {
  fetchCall : OriginCall;
  fetchStale : option CachedResponse;
  fetchStart : Z;
  fetchResult : option (Result Response);
}.

Definition fetchKey (f : OriginFetch) : option string := callKey (fetchCall f).

(** The origin call is outstanding. *)
Definition outstanding (f : OriginFetch) : bool :=
  match fetchResult f with
  | None => true
  | Some _ => false
  end.

(** The request a fetcher sends. *)
Definition originRequest (env : Env) (c : OriginCall) : OriginRequest :=
  match c with
  | CallProduct body _ => productOriginRequest env body
  | CallCart body _ => cartOriginRequest env body
  | CallStorefront body _ => storefrontOriginRequest env body
  | CallUpsell body _ => upsellOriginRequest env body
  | CallRecommendations shop productHandle _ =>
      recommendationsOriginRequest env shop productHandle
  end.

(** The rest of the fetcher once the origin call has come back. *)
Definition settle (f : OriginFetch) (outcome : FetchOutcome) (now : Z)
  : Result Response * list KvPut :=
  match fetchCall f with
  | CallProduct _ cacheKey =>
      fetchProductFromOrigin cacheKey (fetchStale f) (fetchStart f) outcome now
  | CallCart _ cacheKey =>
      fetchCartFromOrigin cacheKey (fetchStale f) (fetchStart f) outcome now
  | CallStorefront body cacheKey =>
      fetchStorefrontFromOrigin body cacheKey (fetchStale f) (fetchStart f) outcome now
  | CallUpsell _ cacheKey =>
      fetchUpsellFromOrigin cacheKey (fetchStale f) (fetchStart f) outcome now
  | CallRecommendations _ _ cacheKey =>
      fetchRecommendationsFromOrigin cacheKey (fetchStale f) (fetchStart f) outcome now
  end.

(** A handler invocation, between two awaits, with its [startTime].
    [Finished r from] records the fetch whose response the handler returned,
    if any. *)
Inductive Task :=
  | AwaitCache (c : Cacheable) (cacheKey : string) (startTime : Z)
  | AwaitExisting (pid : nat) (startTime : Z)
  | AwaitOwn (cacheKey : string) (pid : nat) (startTime : Z)
  | AwaitDirect (pid : nat) (startTime : Z)
  | Finished (r : Response) (from : option nat).

(** An entry of the KV namespace with the time at which the store drops it. *)
Record KvEntry := {
  kvValue : CachedResponse;
  kvExpires : Z;
}.

Record Worker := {
  (** the module-level [inFlightRequests] map; a promise is the index of its
      fetch in [fetches] *)
  inFlightRequests : gmap string nat;
  (** every fetcher call made so far, in order *)
  fetches : list OriginFetch;
  tasks : list Task;
  (** [env.CACHE] *)
  CACHE : gmap string KvEntry;
  (** puts handed to [ctx.waitUntil] that have not landed yet *)
  scheduled : list KvPut;
}.

Definition initial (cache : gmap string KvEntry) : Worker :=
  {| inFlightRequests := ∅; fetches := []; tasks := []; CACHE := cache; scheduled := [] |}.

(** [cache.get(key)] at time [now] when the store answers. *)
Definition kvGet (cache : gmap string KvEntry) (key : string) (now : Z)
  : option CachedResponse :=
  match cache !! key with
  | Some e => if (now <? kvExpires e)%Z then Some (kvValue e) else None
  | None => None
  end.

(** The outcome of [cache.get(key, { type: 'json' })]: it throws [e] when
    [failure] is [Some e], and returns what the store holds otherwise. *)
Definition cacheGet (cache : gmap string KvEntry) (key : string)
    (failure : option JsError) (now : Z) : Result (option CachedResponse) :=
  match failure with
  | Some e => Threw e
  | None => Ok (kvGet cache key now)
  end.

(** A put lands at time [now]; [expirationTtl] is in seconds. *)
Definition kvPut (cache : gmap string KvEntry) (p : KvPut) (now : Z)
  : gmap string KvEntry :=
  <[putKey p := {| kvValue := putValue p;
                   kvExpires := (now + expirationTtl p * 1000)%Z |}]> cache.

(** What the environment does to the worker. *)
Inductive Event :=
  (** a request arrives; [startTime] and [now] are the two clock readings of
      the code that runs before the first await on the cache *)
  | Arrive (req : Request) (startTime now : Z)
  (** the KV read of task [task] completes, with an exception or with what the
      store holds *)
  | CacheRead (task : nat) (failure : option JsError) (now : Z)
  (** the origin call of fetch [pid] comes back *)
  | OriginSettles (pid : nat) (outcome : FetchOutcome) (now : Z)
  (** a task waiting for a settled fetch continues *)
  | Resume (task : nat) (now : Z)
  (** the [n]-th scheduled put lands in the store *)
  | PutLands (n : nat) (now : Z).

Section Transitions.
Context (P : Platform).

Definition setTask (w : Worker) (i : nat) (t : Task) : Worker :=
  {| inFlightRequests := inFlightRequests w; fetches := fetches w;
     tasks := <[i := t]> (tasks w); CACHE := CACHE w; scheduled := scheduled w |}.

Definition addTask (w : Worker) (t : Task) : Worker :=
  {| inFlightRequests := inFlightRequests w; fetches := fetches w;
     tasks := tasks w ++ [t]; CACHE := CACHE w; scheduled := scheduled w |}.

(** calling a fetcher: the origin request goes out, the promise is new *)
Definition addFetch (w : Worker) (call : OriginCall)
    (staleCache : option CachedResponse) (startTime : Z) : Worker :=
  {| inFlightRequests := inFlightRequests w;
     fetches := fetches w ++ [ {| fetchCall := call; fetchStale := staleCache;
                                  fetchStart := startTime; fetchResult := None |} ];
     tasks := tasks w; CACHE := CACHE w; scheduled := scheduled w |}.

Definition setInFlight (w : Worker) (m : gmap string nat) : Worker :=
  {| inFlightRequests := m; fetches := fetches w;
     tasks := tasks w; CACHE := CACHE w; scheduled := scheduled w |}.

(** The handler from the lookup in [inFlightRequests] to its next await: the
    lookup, the call of the fetcher and the registration of its promise
    happen without an await in between. *)
Definition joinOrFetch (w : Worker) (i : nat) (c : Cacheable) (cacheKey : string)
    (startTime : Z) (cachedResponse : option CachedResponse) : Worker :=
  match inFlightRequests w !! cacheKey with
  | Some existingRequest => setTask w i (AwaitExisting existingRequest startTime)
  | None =>
      let requestPromise := length (fetches w) in
      let w := addFetch w (producer c cacheKey) cachedResponse startTime in
      let w := setInFlight w (<[cacheKey := requestPromise]> (inFlightRequests w)) in
      setTask w i (AwaitOwn cacheKey requestPromise startTime)
  end.

(** The handler from the result of [getCachedResponse] to its next await. *)
Definition afterCacheRead (w : Worker) (i : nat) (c : Cacheable) (cacheKey : string)
    (startTime : Z) (cachedResponse : option CachedResponse) (now : Z) : Worker :=
  match cachedResponse with
  | Some cached =>
      if negb (isStale now cached) then
        setTask w i
          (Finished (orInternalError
                       (createSuccessResponse (data cached) HIT startTime
                                              (etag cached) now)
                       startTime now) None)
      else joinOrFetch w i c cacheKey startTime cachedResponse
  | None => joinOrFetch w i c cacheKey startTime cachedResponse
  end.

Definition exec (w : Worker) (ev : Event) : option Worker :=
  match ev with
  | Arrive req startTime now =>
      match fetch P req startTime now with
      | Respond r => Some (addTask w (Finished r None))
      | ReadCache c cacheKey => Some (addTask w (AwaitCache c cacheKey startTime))
      | CallOrigin call =>
          Some (addTask (addFetch w call None startTime)
                        (AwaitDirect (length (fetches w)) startTime))
      end
  | CacheRead i failure now =>
      match tasks w !! i with
      | Some (AwaitCache c cacheKey startTime) =>
          let read := cacheGet (CACHE w) cacheKey failure now in
          Some (afterCacheRead w i c cacheKey startTime (getCachedResponse read) now)
      | _ => None
      end
  | OriginSettles pid outcome now =>
      match fetches w !! pid with
      | Some f =>
          if outstanding f then
            let '(r, puts) := settle f outcome now in
            Some {| inFlightRequests := inFlightRequests w;
                    fetches := <[pid := {| fetchCall := fetchCall f;
                                           fetchStale := fetchStale f;
                                           fetchStart := fetchStart f;
                                           fetchResult := Some r |}]> (fetches w);
                    tasks := tasks w;
                    CACHE := CACHE w;
                    scheduled := scheduled w ++ puts |}
          else None
      | None => None
      end
  | Resume i now =>
      match tasks w !! i with
      | Some (AwaitExisting pid startTime) =>
          match fetches w !! pid ≫= fetchResult with
          | Some (Ok response) =>
              Some (setTask w i (Finished (clone response) (Some pid)))
          | Some (Threw error) =>
              Some (setTask w i (Finished (orInternalError (Threw error) startTime now)
                                          None))
          | None => None
          end
      | Some (AwaitOwn cacheKey pid startTime) =>
          let w' := setInFlight w (delete cacheKey (inFlightRequests w)) in
          match fetches w !! pid ≫= fetchResult with
          | Some (Ok response) => Some (setTask w' i (Finished response (Some pid)))
          | Some (Threw error) =>
              Some (setTask w' i (Finished (orInternalError (Threw error) startTime now)
                                           None))
          | None => None
          end
      | Some (AwaitDirect pid startTime) =>
          match fetches w !! pid ≫= fetchResult with
          | Some (Ok response) => Some (setTask w i (Finished response (Some pid)))
          | Some (Threw error) =>
              Some (setTask w i (Finished (orInternalError (Threw error) startTime now)
                                          None))
          | None => None
          end
      | _ => None
      end
  | PutLands n now =>
      match scheduled w !! n with
      | Some p =>
          Some {| inFlightRequests := inFlightRequests w;
                  fetches := fetches w;
                  tasks := tasks w;
                  CACHE := kvPut (CACHE w) p now;
                  scheduled := delete n (scheduled w) |}
      | None => None
      end
  end.

(** One transition, and the states the worker can reach from a start with an
    arbitrary store. *)
Definition step (w w' : Worker) : Prop := ∃ ev, exec w ev = Some w'.

Inductive reachable : Worker -> Prop :=
  | reach_initial cache : reachable (initial cache)
  | reach_step w w' : reachable w -> step w w' -> reachable w'.

(** Running a list of events. *)
Fixpoint run (w : Worker) (evs : list Event) : option Worker :=
  match evs with
  | [] => Some w
  | ev :: evs' =>
      match exec w ev with
      | Some w' => run w' evs'
      | None => None
      end
  end.

End Transitions.

(* ===================================================================== *)
(** ** Vocabulary of the properties                                       *)
(* ===================================================================== *)

(** A product request with another [excludeProductIds] / [cartToken]. *)
Definition withExcludeProductIds (ids : option (list string)) (body : ProductRequestBody)
  : ProductRequestBody :=
  {| shop := shop body; productId := productId body; productHandle := productHandle body;
     type := type body; layout := layout body; limit := limit body;
     excludeProductIds := ids; cartToken := cartToken body |}.

Definition withCartToken (token : option string) (body : ProductRequestBody)
  : ProductRequestBody :=
  {| shop := shop body; productId := productId body; productHandle := productHandle body;
     type := type body; layout := layout body; limit := limit body;
     excludeProductIds := excludeProductIds body; cartToken := token |}.

(** A JSON object with property [name] set to [v]. *)
Definition withProp (name : string) (v : Json) (o : Json) : Json :=
  match o with
  | JObj fields => JObj (JS.setField name v fields)
  | _ => o
  end.

(** *** The projection of a storefront request, in the specification's words

    "The shop and the projection of the cart onto (token, total_price,
    item_count) and, per line item, (variant_id, quantity, properties) sorted
    by variant_id." *)

(** One line item of the projection; the variant_id is a number. *)
Record ProjectedItem := {
  itemVariant : Z;
  itemQuantity : option Json;
  itemProperties : option Json;
}.

Definition projectItem (item : Json) : option ProjectedItem :=
  match JS.prop item "variant_id" with
  | Some (JNum variant) =>
      Some {| itemVariant := variant;
              itemQuantity := JS.prop item "quantity";
              itemProperties := JS.prop item "properties" |}
  | _ => None
  end.

(** [sorted] is [items] sorted by variant_id: the variant_ids ascend, and the
    items of one variant_id are those of [items], in the order they have
    there. *)
Definition SortedByVariant (items sorted : list ProjectedItem) : Prop :=
  Sorted (fun a b => (itemVariant a ≤ itemVariant b)%Z) sorted
  ∧ ∀ variant, filter (fun item => itemVariant item = variant) sorted
               = filter (fun item => itemVariant item = variant) items.

Record StorefrontProjection := {
  projShop : option Json;
  projToken : option Json;
  projTotalPrice : option Json;
  projItemCount : option Json;
  (** [None] when the cart has no line items array *)
  projItems : option (list ProjectedItem);
}.

(** [p] is the projection of [body]. *)
Definition Projects (body : Json) (p : StorefrontProjection) : Prop :=
  let cart := JS.prop body "cart" in
  projShop p = JS.prop body "shop"
  ∧ projToken p = JS.optProp cart "token"
  ∧ projTotalPrice p = JS.optProp cart "total_price"
  ∧ projItemCount p = JS.optProp cart "item_count"
  ∧ match JS.optProp cart "items" with
    | None | Some JNull => projItems p = None
    | Some (JArr items) =>
        ∃ projected sorted,
          mapM projectItem items = Some projected
          ∧ SortedByVariant projected sorted
          ∧ projItems p = Some sorted
    | Some _ => False
    end.

(** The comparator of the generator on projected items: [a.id - b.id > 0]. *)
Definition variantGt (a b : ProjectedItem) : bool := (itemVariant b <? itemVariant a)%Z.

(** The element of the generator's items array for a projected item. *)
Definition keyItemOf (item : ProjectedItem) : StorefrontKeyItem :=
  {| id := Some (JNum (itemVariant item));
     quantity := itemQuantity item;
     properties := itemProperties item |}.

(** The key that belongs to a projection. *)
Definition projectedItemJson (item : ProjectedItem) : Json :=
  JS.objectLiteral [ ("id", Some (JNum (itemVariant item)));
                     ("quantity", itemQuantity item);
                     ("properties", itemProperties item) ].

Definition projectionKey (P : Platform) (p : StorefrontProjection) : string :=
  "storefront_"
  +:+ sha256Hex P
        (JSON.stringify
           (JS.objectLiteral
              [ ("shop", projShop p);
                ("cartToken", projToken p);
                ("cartTotal", projTotalPrice p);
                ("itemCount", projItemCount p);
                ("items", (fun items => JArr (projectedItemJson <$> items))
                            <$> projItems p) ])).

(** The five cacheable paths. *)
Inductive Endpoint :=
  | ProductRecommendation
  | CartRecommendation
  | StorefrontCartRules
  | UpsellFunnel
  | HandleRecommendation.

Definition endpointOf (c : Cacheable) : Endpoint :=
  match c with
  | ProductRequest _ => ProductRecommendation
  | CartRequest _ => CartRecommendation
  | StorefrontRequest _ => StorefrontCartRules
  | UpsellRequest _ => UpsellFunnel
  | RecommendationsRequest _ _ => HandleRecommendation
  end.

(** The freshness window of the specification's table, in milliseconds. *)
Definition specFreshnessWindow (e : Endpoint) : Z :=
  match e with
  | ProductRecommendation | CartRecommendation => 60 * 60 * 1000
  | StorefrontCartRules => 5 * 60 * 1000
  | UpsellFunnel => 30 * 60 * 1000
  | HandleRecommendation => 10 * 60 * 1000
  end.

(** The specification's classification: FRESH iff
    [now - entry.writtenAt <= freshnessWindow]. *)
Definition specFresh (e : Endpoint) (now : Z) (entry : CachedResponse) : bool :=
  (now - timestamp entry <=? specFreshnessWindow e)%Z.

(** The hard TTL, in seconds, that each fetcher passes to the store. *)
Definition hardTtl (e : Endpoint) : Z :=
  match e with
  | ProductRecommendation | CartRecommendation => 3600
  | StorefrontCartRules => 300
  | UpsellFunnel => 1800
  | HandleRecommendation => 600
  end.

(** The origin call has failed: [fetch] rejected, or the origin answered with
    a status outside 200..299. *)
Definition originFailed (outcome : FetchOutcome) : bool :=
  match outcome with
  | Rejected _ => true
  | Resolved status _ _ => negb (responseOk status)
  end.

(** The [etag] of an entry can be set as a header: it is absent or empty (and
    then not set), or a header value. *)
Definition etagHeld (etag : option string) : bool :=
  negb (JS.truthyStr etag)
  || match Headers.value (default EmptyString etag) with
     | Ok _ => true
     | Threw _ => false
     end.

(** The message of a fetcher for a timed-out origin call. *)
Definition timeoutMessage (c : OriginCall) : string :=
  match c with
  | CallStorefront _ _ => "Origin timeout (15s)"
  | _ => "Origin timeout (10s)"
  end.

(** The origin call gives no payload: it has failed, or the body of a 2xx
    answer is not JSON. *)
Definition noPayload (outcome : FetchOutcome) : bool :=
  match outcome with
  | Rejected _ => true
  | Resolved status _ (Ok _) => negb (responseOk status)
  | Resolved _ _ (Threw _) => true
  end.

(** The message of the 503 of a fetcher whose origin call comes back with
    [outcome]: what is thrown is an error of [fetch], the error for a status
    outside 200..299, or an error of [originResponse.json()]. *)
Definition failureMessage (onTimeout : string) (outcome : FetchOutcome) : string :=
  let ofError (e : JsError) :=
    if instanceofError e && Str.includes "abort" (message e)
    then onTimeout else "Origin unavailable" in
  match outcome with
  | Rejected e => ofError e
  | Resolved status _ payload =>
      if responseOk status then
        match payload with
        | Threw e => ofError e
        | Ok _ => "Origin unavailable"
        end
      else "Origin unavailable"
  end.

(** The body of an error response: [{ success: false, error: message }]. *)
Definition errorBody (message : string) : string :=
  JSON.stringify (JObj [ ("success", JBool false); ("error", JStr message) ]).

Definition permissiveCors (r : Response) : Prop :=
  header "Access-Control-Allow-Origin" r = Some "*"
  ∧ header "Access-Control-Allow-Methods" r = Some "GET, POST, OPTIONS"
  ∧ header "Access-Control-Allow-Headers" r = Some allowHeaders.

(** The four kinds of response the worker builds. *)
Inductive ResponseKind (r : Response) : Prop :=
  | IsSuccess (cacheStatus : CacheStatus) :
      status r = 200%Z ->
      header "X-Cache" r = Some (cacheStatusText cacheStatus) ->
      is_Some (header "X-Response-Time" r) ->
      permissiveCors r ->
      ResponseKind r
  | IsError :
      status r ∈ [400; 405; 500; 503]%Z ->
      header "X-Cache" r = None ->
      is_Some (header "X-Response-Time" r) ->
      permissiveCors r ->
      ResponseKind r
  | IsNotFound :
      r = notFoundResponse ->
      header "X-Cache" r = None ->
      header "X-Response-Time" r = None ->
      header "Access-Control-Allow-Origin" r = None ->
      ResponseKind r
  | IsPreflight :
      r = preflightResponse ->
      header "X-Cache" r = None ->
      header "X-Response-Time" r = None ->
      permissiveCors r ->
      ResponseKind r.

(** Every response held in a state of the worker is of one of the four kinds. *)
Definition responsesInv (w : Worker) : Prop :=
  (∀ i r from, tasks w !! i = Some (Finished r from) -> ResponseKind r)
  ∧ (∀ pid f r, fetches w !! pid = Some f -> fetchResult f = Some (Ok r) ->
                ResponseKind r).

(** The worker with another store. *)
Definition withCache (cache : gmap string KvEntry) (w : Worker) : Worker :=
  {| inFlightRequests := inFlightRequests w; fetches := fetches w;
     tasks := tasks w; CACHE := cache; scheduled := scheduled w |}.

(** The bookkeeping of the in-flight map in a state of the worker. *)
Record Coalescing (w : Worker) : Prop := {
  (** a registered promise is a fetch for that key ... *)
  registered_fetch : ∀ k pid,
    inFlightRequests w !! k = Some pid ->
    ∃ f, fetches w !! pid = Some f ∧ fetchKey f = Some k;
  (** ... whose caller is still waiting for it inside [try ... finally] *)
  registered_owner : ∀ k pid,
    inFlightRequests w !! k = Some pid ->
    ∃ i startTime, tasks w !! i = Some (AwaitOwn k pid startTime);
  (** an outstanding fetch with a key is the registered promise of its key *)
  outstanding_registered : ∀ pid f k,
    fetches w !! pid = Some f -> fetchKey f = Some k -> fetchResult f = None ->
    inFlightRequests w !! k = Some pid;
  owner_registered : ∀ i k pid startTime,
    tasks w !! i = Some (AwaitOwn k pid startTime) -> inFlightRequests w !! k = Some pid;
  owner_unique : ∀ i j k pid pid' startTime startTime',
    tasks w !! i = Some (AwaitOwn k pid startTime) ->
    tasks w !! j = Some (AwaitOwn k pid' startTime') -> i = j;
  (** a task that waits for a promise waits for a fetch that was made *)
  waiting_fetch : ∀ i pid startTime,
    tasks w !! i = Some (AwaitExisting pid startTime)
    ∨ tasks w !! i = Some (AwaitDirect pid startTime) ->
    is_Some (fetches w !! pid);
  (** a handler that returned the response of a fetch returned that response *)
  finished_from : ∀ i r pid,
    tasks w !! i = Some (Finished r (Some pid)) ->
    ∃ f, fetches w !! pid = Some f ∧ fetchResult f = Some (Ok r);
}.




(* ===================================================================== *)
(** ** Sample data                                                        *)
(* ===================================================================== *)

Module Sample.

(** A platform to run the model with: the digest is the identity, strings
    compare by code units. *)
Definition platform : Platform :=
  {| sha256Hex := fun s => s;
     localeCompare := fun a b =>
       if String.eqb a b then 0%Z else if String.leb a b then (-1)%Z else 1%Z;
     stringToNumber := Parse.parseInt |}.

Definition env : Env :=
  {| ORIGIN_URL := "https://api.magicsell.ai";
     THINK_ORIGIN_URL := "https://think.magicsell.ai" |}.

Definition productBody : ProductRequestBody :=
  {| shop := "s.myshopify.com"; productId := Some "123"; productHandle := None;
     type := "cart"; layout := None; limit := None;
     excludeProductIds := Some ["3"; "2"; "1"]; cartToken := Some "tokenA" |}.

Definition productRequest : Request :=
  {| method := "GET";
     pathname := "/api/v2/recommendation/product";
     searchParams := [ ("shop", "s.myshopify.com"); ("productId", "123");
                       ("type", "cart") ];
     json := Threw typeError |}.

Definition parsedProduct : ProductRequestBody :=
  {| shop := "s.myshopify.com"; productId := Some "123"; productHandle := None;
     type := "cart"; layout := None; limit := None;
     excludeProductIds := None; cartToken := None |}.

Definition payload : Json := JObj [ ("products", JArr []) ].

Definition entry : CachedResponse :=
  {| data := payload; timestamp := 1000; etag := None |}.


Definition cartBody : Json :=
  JObj [ ("shop", JStr "s.myshopify.com"); ("type", JStr "cart");
         ("products", JArr [JNum 30; JNum 4; JNum 100]) ].

Definition storefrontBodyA : Json :=
  JObj [ ("cart",
           JObj [ ("token", JStr "t1"); ("total_price", JNum 5000);
                  ("item_count", JNum 2);
                  ("items",
                    JArr [ JObj [ ("variant_id", JNum 20); ("quantity", JNum 1) ];
                           JObj [ ("variant_id", JNum 7); ("quantity", JNum 1);
                                  ("title", JStr "Mug") ] ]) ]);
         ("shop", JStr "s.myshopify.com") ].

(** The same shop and cart projection: the line items arrive in the other
    order and carry other properties, the cart has a note and a currency, and
    the body names a variant and an attribute. *)
Definition storefrontBodyB : Json :=
  JObj [ ("shop", JStr "s.myshopify.com");
         ("variantId", JStr "v-20"); ("attribute", JStr "gift");
         ("cart",
           JObj [ ("note", JStr "leave at the door"); ("currency", JStr "EUR");
                  ("item_count", JNum 2); ("total_price", JNum 5000);
                  ("token", JStr "t1");
                  ("items",
                    JArr [ JObj [ ("variant_id", JNum 7); ("quantity", JNum 1);
                                  ("title", JStr "Cup"); ("price", JNum 2500) ];
                           JObj [ ("quantity", JNum 1); ("variant_id", JNum 20) ] ]) ]) ].

(** The projection that both bodies have. *)
Definition sortedItems : list ProjectedItem :=
  [ {| itemVariant := 7; itemQuantity := Some (JNum 1); itemProperties := None |};
    {| itemVariant := 20; itemQuantity := Some (JNum 1); itemProperties := None |} ].

Definition projection : StorefrontProjection :=
  {| projShop := Some (JStr "s.myshopify.com");
     projToken := Some (JStr "t1");
     projTotalPrice := Some (JNum 5000);
     projItemCount := Some (JNum 2);
     projItems := Some sortedItems |}.

Definition storefrontRequest (body : Json) : Request :=
  {| method := "POST"; pathname := "/api/storefront"; searchParams := [];
     json := Ok body |}.

(** A storefront body whose [actionType] is present and names an action, and
    one whose [actionType] is present and empty. *)
Definition actionBody : Json :=
  withProp "actionType" (JStr "addFreeGift") storefrontBodyA.

Definition emptyActionBody : Json :=
  withProp "actionType" (JStr EmptyString) storefrontBodyA.

Definition origin200 : FetchOutcome := Resolved 200 None (Ok payload).

(** A storefront entry written at time 1000 whose put landed 2 ms later. *)
Definition storefrontKey : string :=
  match generateStorefrontCacheKey platform storefrontBodyA with
  | Ok key => key
  | Threw _ => EmptyString
  end.

Definition storefrontStore : gmap string KvEntry :=
  kvPut ∅ {| putKey := storefrontKey; putValue := entry; expirationTtl := 300 |} 1002.

Definition waitingStorefront : Worker :=
  addTask (initial storefrontStore)
          (AwaitCache (StorefrontRequest storefrontBodyA) storefrontKey 301000).

Definition waitingProduct (cache : gmap string KvEntry) : Worker :=
  addTask (initial cache)
          (AwaitCache (ProductRequest (productBodyAfterKey parsedProduct))
                      (generateProductCacheKey platform parsedProduct) 2000).

Definition productStore : gmap string KvEntry :=
  kvPut ∅ {| putKey := generateProductCacheKey platform parsedProduct;
             putValue := entry; expirationTtl := 3600 |} 1002.

(** The life of a storefront request whose [actionType] is the empty string. *)
Definition emptyActionRun : list Event :=
  [ Arrive (storefrontRequest emptyActionBody) 0 0;
    CacheRead 0 None 1;
    OriginSettles 0 origin200 5;
    Resume 0 5 ].




Definition failedFetch (staleCache : option CachedResponse) : OriginFetch :=
  {| fetchCall := CallProduct parsedProduct (generateProductCacheKey platform parsedProduct);
     fetchStale := staleCache; fetchStart := 5000000; fetchResult := None |}.




Definition wrongMethod : Request :=
  {| method := "POST"; pathname := "/api/v2/recommendation/product";
     searchParams := []; json := Threw typeError |}.

End Sample.

(** The requests and store contents of the worker's own test suite. *)
Module Suite.

Definition valid : Request :=
  {| method := "GET"; pathname := "/api/v2/recommendation/product";
     searchParams := [ ("shop", "test.myshopify.com"); ("productId", "123456");
                       ("type", "cart") ];
     json := Threw typeError |}.

Definition missingFields : Request :=
  {| method := "GET"; pathname := "/api/v2/recommendation/product";
     searchParams := [ ("shop", "test.myshopify.com") ];
     json := Threw typeError |}.

Definition withExclude (ids : string) : Request :=
  {| method := "GET"; pathname := "/api/v2/recommendation/product";
     searchParams := [ ("shop", "test.myshopify.com"); ("productId", "123456");
                       ("type", "cart"); ("excludeProductIds", ids) ];
     json := Threw typeError |}.

Definition key : string :=
  generateProductCacheKey Sample.platform
    {| shop := "test.myshopify.com"; productId := Some "123456"; productHandle := None;
       type := "cart"; layout := None; limit := None;
       excludeProductIds := None; cartToken := None |}.

Definition products (name : string) : Json :=
  JObj [ ("success", JBool true);
         ("data", JObj [ ("products", JArr [JStr name]); ("styles", JArr []);
                         ("config", JObj []) ]) ].

(** the store holds [entry] under [key] for a long time *)
Definition store (entry : CachedResponse) : gmap string KvEntry :=
  {[ key := {| kvValue := entry; kvExpires := 100000000 |} ]}.

Definition now : Z := 10000000.

(** the response of the only task after the events *)
Definition response (cache : gmap string KvEntry) (evs : list Event) : option Response :=
  run Sample.platform (initial cache) evs
  ≫= fun w => tasks w !! 0%nat
  ≫= fun t => match t with
              | Finished r _ => Some r
              | _ => None
              end.

Definition cachedKey (req : Request) : option string :=
  match fetch Sample.platform req 0 0 with
  | ReadCache _ k => Some k
  | _ => None
  end.

End Suite.

(* ===================================================================== *)
(** ** Vocabulary of the further properties                               *)
(* ===================================================================== *)

(** The fetcher called for [c] writes its result back: always, except for a
    storefront body with a truthy [actionType]. *)
Definition writesBack (c : Cacheable) : bool :=
  match c with
  | StorefrontRequest body => negb (JS.truthy (JS.prop body "actionType"))
  | _ => true
  end.

(** The fetch a handler starts for [c] under [cacheKey]. *)
Definition fetchFor (c : Cacheable) (cacheKey : string)
    (staleCache : option CachedResponse) (startTime : Z) : OriginFetch :=
  {| fetchCall := producer c cacheKey; fetchStale := staleCache;
     fetchStart := startTime; fetchResult := None |}.

(** The hash of [generateEtag] without the wrap-around: [31 * hash + char] for
    each code unit. *)
Fixpoint poly31 (units : list Z) (hash : Z) : Z :=
  match units with
  | [] => hash
  | char :: rest => poly31 rest (31 * hash + char)
  end.

(** The numerals in base 36: one or more of the digits 0-9 and a-z, the first
    of which is not 0 unless it is the only one; and the number one stands
    for. *)
Definition isDigit36 (c : ascii) : bool :=
  let n := Z.of_N (N_of_ascii c) in
  ((48 <=? n) && (n <=? 57) || (97 <=? n) && (n <=? 122))%Z.

Fixpoint allDigits36 (s : string) : bool :=
  match s with
  | EmptyString => true
  | String c rest => isDigit36 c && allDigits36 rest
  end.

Definition numeral36 (s : string) : bool :=
  match s with
  | EmptyString => false
  | String c rest =>
      allDigits36 s && (negb (Ascii.eqb c "0"%char) || Str.isEmpty rest)
  end.

Definition digitValue (c : ascii) : Z :=
  let n := Z.of_N (N_of_ascii c) in
  if (n <? 58)%Z then (n - 48)%Z else (n - 87)%Z.

Fixpoint value36 (s : string) (acc : Z) : Z :=
  match s with
  | EmptyString => acc
  | String c rest => value36 rest (36 * acc + digitValue c)
  end.

(** A product request with another [limit]. *)
Definition withLimit (l : option JsNumber) (body : ProductRequestBody)
  : ProductRequestBody :=
  {| shop := shop body; productId := productId body; productHandle := productHandle body;
     type := type body; layout := layout body; limit := l;
     excludeProductIds := excludeProductIds body; cartToken := cartToken body |}.

(** A request with another JSON body. *)
Definition withJson (body : Json) (req : Request) : Request :=
  {| method := method req; pathname := pathname req;
     searchParams := searchParams req; json := Ok body |}.

(** A line item of a cart with a numeric [variant_id]. *)
Definition lineItem (variant : Z) (rest : list (string * Json)) : Json :=
  JObj (("variant_id", JNum variant) :: rest).

Definition variantOf (item : Json) : option Json := JS.prop item "variant_id".

(** The events of one request from its cache read to its response. *)
Definition ofRequest (i : nat) (outcome : FetchOutcome) (now : Z) (ev : Event) : Prop :=
  ev = CacheRead i None now
  ∨ (∃ pid, ev = OriginSettles pid outcome now)
  ∨ ev = Resume i now.

Module More.

(** A caller whose read throws starts the origin call without a fallback; a
    second caller reads a stale entry and joins. *)
Definition staleEntry : CachedResponse :=
  {| data := Sample.payload; timestamp := 0; etag := None |}.

Definition staleStore : gmap string KvEntry :=
  {[ generateProductCacheKey Sample.platform Sample.parsedProduct :=
       {| kvValue := staleEntry; kvExpires := 100000000 |} ]}.

Definition producerWithoutFallback : Worker :=
  default (initial staleStore)
    (run Sample.platform (initial staleStore)
       [ Arrive Sample.productRequest 4000000 4000000;
         Arrive Sample.productRequest 4000001 4000001;
         CacheRead 0 (Some typeError) 4000002 ]).

(** An [etag] header of the origin, as [headers.get] returns it. *)
Definition originTag : HeaderValue :=
  {| headerText := "W/origin"; headerHeld := eq_refl |}.

Definition thinkRequest (path : string) : Request :=
  {| method := "GET"; pathname := path; searchParams := []; json := Threw typeError |}.

Definition cartRequest (body : Json) : Request :=
  {| method := "POST"; pathname := "/api/v2/recommendation/cart"; searchParams := [];
     json := Ok body |}.

Definition upsellRequest (body : Json) : Request :=
  {| method := "POST"; pathname := "/api/v2/funnel/upsell"; searchParams := [];
     json := Ok body |}.

Definition upsellBody : Json :=
  JObj [ ("shop", JStr "s.myshopify.com"); ("type", JStr "upsell");
         ("productId", JStr "123") ].

(** An item of an upsell request with a number as [productId]. *)
Definition upsellItem (product : Z) : Json :=
  JObj [ ("productId", JNum product); ("variantId", JNum 1) ].

Definition upsellItems (items : list Json) : Json :=
  JObj [ ("shop", JStr "s.myshopify.com"); ("type", JStr "upsell");
         ("items", JArr items) ].

Definition cartWithItems (items : Json) : Json :=
  JObj [ ("cart", JObj [ ("token", JStr "t1"); ("items", items) ]);
         ("shop", JStr "s.myshopify.com") ].

End More.

(* ===================================================================== *)
(** ** Strings and sorting: lemmas                                        *)
(* ===================================================================== *)

Lemma startsWith_hasChar c p s :
  Str.startsWith (String c p) s = true -> Str.hasChar c s = true.
Proof.
  destruct s as [|a s]; simpl; [done|].
  destruct (Ascii.eqb c a); done.
Qed.

Lemma includes_hasChar c p s :
  Str.includes (String c p) s = true -> Str.hasChar c s = true.
Proof.
  induction s as [|a s IH].
  - simpl. done.
  - intros H. cbn [Str.includes] in H.
    destruct (Str.startsWith (String c p) (String a s)) eqn:E.
    + by apply startsWith_hasChar in E.
    + simpl. destruct (Ascii.eqb c a); [done|]. by apply IH.
Qed.

Lemma hasChar_app c s t :
  Str.hasChar c (s +:+ t) = Str.hasChar c s || Str.hasChar c t.
Proof.
  induction s as [|a s IH]; simpl; [done|].
  destruct (Ascii.eqb c a); [done|]. apply IH.
Qed.

Lemma hasChar_uint d :
  Str.hasChar "a" (NilEmpty.string_of_uint d) = false.
Proof. induction d; simpl; done. Qed.

Lemma hasChar_uint_zero d :
  Str.hasChar "a" (NilZero.string_of_uint d) = false.
Proof. destruct d; [done|exact (hasChar_uint _)..]. Qed.

Lemma hasChar_ofZ n : Str.hasChar "a" (Str.ofZ n) = false.
Proof.
  unfold Str.ofZ. destruct (Z.to_int n) as [d|d]; simpl.
  - apply hasChar_uint_zero.
  - apply hasChar_uint_zero.
Qed.

Lemma ofZ_inj a b : Str.ofZ a = Str.ofZ b -> a = b.
Proof.
  unfold Str.ofZ. intros H.
  apply DecimalZ.to_int_inj.
  assert (Hn : ∀ z, Z.to_int z ≠ Decimal.Pos Decimal.Nil
                    ∧ Z.to_int z ≠ Decimal.Neg Decimal.Nil).
  { intros [|p|p]; simpl; split; try discriminate;
      intros [= E]; by apply Unsigned.to_uint_nonnil in E. }
  assert (Some (Z.to_int a) = Some (Z.to_int b)) as [= ->]; [|done].
  rewrite <- (NilZero.isi (Z.to_int a)), <- (NilZero.isi (Z.to_int b));
    try apply Hn.
  by rewrite H.
Qed.

Lemma bytes_leb_total a b : String.leb a b = false -> String.leb b a = true.
Proof.
  intros H. destruct (total String.le a b) as [Hab|Hba].
  - unfold String.le in Hab. rewrite H in Hab. done.
  - unfold String.le in Hba. by destruct (String.leb b a).
Qed.

Lemma bytes_leb_antisym a b : String.leb a b = true -> String.leb b a = true -> a = b.
Proof.
  intros H1 H2. apply (anti_symm String.le); unfold String.le; by rewrite ?H1, ?H2.
Qed.

Lemma bytes_leb_trans a b c :
  String.leb a b = true -> String.leb b c = true -> String.leb a c = true.
Proof.
  intros H1 H2.
  assert (String.le a c) as H.
  { transitivity b; unfold String.le; by rewrite ?H1, ?H2. }
  unfold String.le in H. by destruct (String.leb a c).
Qed.

(** The order on code units is a total order on [string]. *)
Lemma compareUnits_antisym a : ∀ b,
  Str.compareUnits b a = CompOpp (Str.compareUnits a b).
Proof.
  induction a as [|x a IH]; intros [|y b]; simpl; try done.
  rewrite (Z.compare_antisym x y). destruct (x ?= y)%Z; simpl; [apply IH|done|done].
Qed.

Lemma compareUnits_Eq a : ∀ b, Str.compareUnits a b = Eq -> a = b.
Proof.
  induction a as [|x a IH]; intros [|y b]; simpl; try done.
  destruct (x ?= y)%Z eqn:E; try done.
  apply Z.compare_eq in E as ->. by intros ->%IH.
Qed.

Lemma compareUnits_refl a : Str.compareUnits a a = Eq.
Proof. induction a as [|x a IH]; simpl; [done|]. by rewrite Z.compare_refl. Qed.

Lemma compareUnits_Lt_trans a : ∀ b c,
  Str.compareUnits a b = Lt -> Str.compareUnits b c = Lt -> Str.compareUnits a c = Lt.
Proof.
  induction a as [|x a IH]; intros [|y b] [|z c]; simpl; try done.
  destruct (x ?= y)%Z eqn:Exy, (y ?= z)%Z eqn:Eyz; try done.
  - apply Z.compare_eq in Exy as ->, Eyz as ->. rewrite Z.compare_refl. apply IH.
  - apply Z.compare_eq in Exy as ->. by rewrite Eyz.
  - apply Z.compare_eq in Eyz as <-. by rewrite Exy.
  - intros _ _. assert ((x ?= z)%Z = Lt) as ->; [|done].
    rewrite Z.compare_lt_iff in *. lia.
Qed.

Lemma string_leb_total a b : Str.leb a b = false -> Str.leb b a = true.
Proof.
  unfold Str.leb. rewrite (compareUnits_antisym (Str.codeUnits a) (Str.codeUnits b)).
  destruct (Str.compareUnits (Str.codeUnits a) (Str.codeUnits b)); simpl; try done.
  apply bytes_leb_total.
Qed.

Lemma string_leb_antisym a b : Str.leb a b = true -> Str.leb b a = true -> a = b.
Proof.
  unfold Str.leb. rewrite (compareUnits_antisym (Str.codeUnits a) (Str.codeUnits b)).
  destruct (Str.compareUnits (Str.codeUnits a) (Str.codeUnits b)); simpl; try done.
  apply bytes_leb_antisym.
Qed.

Lemma string_leb_trans a b c :
  Str.leb a b = true -> Str.leb b c = true -> Str.leb a c = true.
Proof.
  unfold Str.leb.
  destruct (Str.compareUnits (Str.codeUnits a) (Str.codeUnits b)) eqn:Eab; [| |done];
    destruct (Str.compareUnits (Str.codeUnits b) (Str.codeUnits c)) eqn:Ebc; try done.
  - apply compareUnits_Eq in Eab, Ebc. rewrite Eab, Ebc, compareUnits_refl.
    apply bytes_leb_trans.
  - apply compareUnits_Eq in Eab. by rewrite Eab, Ebc.
  - apply compareUnits_Eq in Ebc. by rewrite <- Ebc, Eab.
  - by rewrite (compareUnits_Lt_trans _ _ _ Eab Ebc).
Qed.

(** The stable insertion sort returns the same list for every arrangement of
    its input when the comparator is a total order. *)
Section SortOfPermutation.
Context {A : Type} (gt : A -> A -> bool).
Hypothesis gt_asym : ∀ x y, gt x y = true -> gt y x = false.
Hypothesis gt_antisym : ∀ x y, gt x y = false -> gt y x = false -> x = y.
Hypothesis le_trans : ∀ x y z, gt x y = false -> gt y z = false -> gt x z = false.

Lemma insert_insert x y l :
  ArraySort.insert gt x (ArraySort.insert gt y l)
  = ArraySort.insert gt y (ArraySort.insert gt x l).
Proof.
  induction l as [|z zs IH]; simpl.
  - destruct (gt x y) eqn:Exy, (gt y x) eqn:Eyx; simpl; rewrite ?Exy, ?Eyx; try done.
    + by rewrite (gt_asym _ _ Exy) in Eyx.
    + by rewrite (gt_antisym _ _ Exy Eyx).
  - destruct (gt y z) eqn:Eyz, (gt x z) eqn:Exz; simpl; rewrite ?Eyz, ?Exz.
    + by rewrite IH.
    + destruct (gt y x) eqn:Eyx; simpl; rewrite ?Eyz; [done|].
      by rewrite (le_trans _ _ _ Eyx Exz) in Eyz.
    + destruct (gt x y) eqn:Exy; simpl; rewrite ?Exz; [done|].
      by rewrite (le_trans _ _ _ Exy Eyz) in Exz.
    + destruct (gt x y) eqn:Exy, (gt y x) eqn:Eyx; simpl; rewrite ?Eyz, ?Exz; try done.
      * by rewrite (gt_asym _ _ Exy) in Eyx.
      * by rewrite (gt_antisym _ _ Exy Eyx).
Qed.

Lemma sort_Permutation l l' :
  l ≡ₚ l' -> ArraySort.sort gt l = ArraySort.sort gt l'.
Proof.
  induction 1 as [|x l l' _ IH|x y l|l l' l'' _ IH1 _ IH2]; simpl.
  - done.
  - by rewrite IH.
  - apply insert_insert.
  - by rewrite IH1.
Qed.
End SortOfPermutation.

Lemma insert_fmap {A B} (f : A -> B) (gt : B -> B -> bool) x l :
  ArraySort.insert gt (f x) (f <$> l)
  = f <$> ArraySort.insert (fun a b => gt (f a) (f b)) x l.
Proof.
  induction l as [|y ys IH]; csimpl; [done|].
  destruct (gt (f x) (f y)); csimpl; [|done]. f_equal. apply IH.
Qed.

Lemma sort_fmap {A B} (f : A -> B) (gt : B -> B -> bool) l :
  ArraySort.sort gt (f <$> l) = f <$> ArraySort.sort (fun a b => gt (f a) (f b)) l.
Proof.
  induction l as [|x xs IH]; csimpl; [done|].
  rewrite IH. apply insert_fmap.
Qed.

Lemma sortStrings_Permutation l l' :
  l ≡ₚ l' -> ArraySort.sortStrings l = ArraySort.sortStrings l'.
Proof.
  apply sort_Permutation; unfold Str.ltb; intros x y.
  - intros H%negb_true_iff. by rewrite (string_leb_total _ _ H).
  - intros H1%negb_false_iff H2%negb_false_iff. by apply string_leb_antisym.
  - intros z H1%negb_false_iff H2%negb_false_iff.
    apply negb_false_iff. by eapply string_leb_trans.
Qed.

Lemma sortDefault_numbers_Permutation (l l' : list Z) :
  l ≡ₚ l' -> ArraySort.sortDefault (JNum <$> l) = ArraySort.sortDefault (JNum <$> l').
Proof.
  intros H. unfold ArraySort.sortDefault. rewrite !sort_fmap. f_equal.
  revert H. apply sort_Permutation; unfold ArraySort.defaultGt, Str.ltb; simpl; intros x y.
  - intros H%negb_true_iff. by rewrite (string_leb_total _ _ H).
  - intros H1%negb_false_iff H2%negb_false_iff.
    apply ofZ_inj. by apply string_leb_antisym.
  - intros z H1%negb_false_iff H2%negb_false_iff.
    apply negb_false_iff. by eapply string_leb_trans.
Qed.

Lemma assoc_setField name name' (v : Json) fields :
  JS.assoc name' (JS.setField name v fields)
  = if String.eqb name name' then Some v else JS.assoc name' fields.
Proof.
  induction fields as [|[k w] rest IH]; simpl.
  - by destruct (String.eqb name name').
  - destruct (String.eqb k name) eqn:Ek; simpl.
    + apply String.eqb_eq in Ek as ->.
      by destruct (String.eqb name name').
    + destruct (String.eqb k name') eqn:Ek'.
      * apply String.eqb_eq in Ek' as ->.
        rewrite String.eqb_sym in Ek. by rewrite Ek.
      * apply IH.
Qed.

(* ===================================================================== *)
(** ** Success responses                                                  *)
(* ===================================================================== *)

Lemma createSuccessResponse_Ok data cacheStatus startTime etag now r :
  createSuccessResponse data cacheStatus startTime etag now = Ok r ->
  status r = 200%Z
  ∧ body r = Some (JSON.stringify data)
  ∧ header "X-Cache" r = Some (cacheStatusText cacheStatus)
  ∧ is_Some (header "X-Response-Time" r)
  ∧ permissiveCors r.
Proof.
  unfold createSuccessResponse.
  destruct (JS.truthyStr etag); [destruct (Headers.value _); [|done]|];
    intros [= <-]; repeat split; by eexists.
Qed.

Lemma createSuccessResponse_held data cacheStatus startTime etag now :
  etagHeld etag = true ->
  ∃ r, createSuccessResponse data cacheStatus startTime etag now = Ok r.
Proof.
  unfold etagHeld, createSuccessResponse.
  destruct (JS.truthyStr etag); simpl; [|by eexists].
  destruct (Headers.value _); [by eexists|done].
Qed.

Lemma createSuccessResponse_not_held data cacheStatus startTime etag now :
  etagHeld etag = false ->
  createSuccessResponse data cacheStatus startTime etag now = Threw typeError.
Proof.
  unfold etagHeld, createSuccessResponse, Headers.value.
  destruct (JS.truthyStr etag); simpl; [|done].
  by destruct (Headers.legal _).
Qed.

(** The etag that a fetcher passes on is a header value: it comes from
    [headers.get] or from [generateEtag]. *)
Lemma decode_ascii fuel : ∀ bs,
  Forall (fun b => (b < 128)%Z) bs -> (length bs ≤ fuel)%nat -> Str.decode fuel bs = bs.
Proof.
  induction fuel as [|fuel IH]; intros [|b bs] HF Hlen; simpl in *; try done; try lia.
  apply Forall_cons in HF as [Hb HF]. unfold Str.character.
  rewrite (proj2 (Z.ltb_lt b 128) Hb). simpl. f_equal. apply IH; [done|lia].
Qed.

Lemma codeUnits_ascii s :
  Forall (fun b => (b < 128)%Z) (Str.bytes s) -> Str.codeUnits s = Str.bytes s.
Proof. intros H. by apply decode_ascii. Qed.

Lemma legal_printable s :
  Forall (fun b => (32 ≤ b < 127)%Z) (Str.bytes s) -> Headers.legal s = true.
Proof.
  intros H. unfold Headers.legal. rewrite codeUnits_ascii.
  - induction H as [|b bs Hb _ IH]; simpl; [done|]. rewrite IH, andb_true_r.
    unfold Headers.legalUnit.
    repeat match goal with
           | |- context [(?a <=? ?b)%Z] => destruct (Z.leb_spec a b); try lia
           | |- context [(?a =? ?b)%Z] => destruct (Z.eqb_spec a b); try lia
           end; done.
  - eapply Forall_impl; [done|]. simpl. lia.
Qed.

Lemma bytes_app s t : Str.bytes (s +:+ t) = Str.bytes s ++ Str.bytes t.
Proof. induction s as [|c s IH]; [done|]. cbn. by rewrite <- IH. Qed.

Lemma byte_digit36 d :
  (0 ≤ d < 36)%Z ->
  Z.of_N (N_of_ascii (Etag.digit36 d)) = (if (d <? 10)%Z then 48 + d else 87 + d)%Z.
Proof.
  intros Hd. unfold Etag.digit36. rewrite N_ascii_embedding.
  - rewrite Z2N.id; [done|]. destruct (d <? 10)%Z; lia.
  - destruct (d <? 10)%Z; lia.
Qed.

Lemma bytes_toString36 fuel : ∀ n,
  (0 ≤ n)%Z -> Forall (fun b => (32 ≤ b < 127)%Z) (Str.bytes (Etag.toString36 fuel n)).
Proof.
  assert (Hdigit : ∀ d, (0 ≤ d < 36)%Z ->
            (32 ≤ Z.of_N (N_of_ascii (Etag.digit36 d)) < 127)%Z).
  { intros d Hd. rewrite byte_digit36 by done. destruct (d <? 10)%Z eqn:E; [|lia].
    apply Z.ltb_lt in E. lia. }
  induction fuel as [|fuel IH]; intros n Hn; cbn [Etag.toString36].
  - repeat constructor; apply Hdigit; apply Z.mod_pos_bound; lia.
  - destruct (n <? 36)%Z eqn:E.
    + apply Z.ltb_lt in E. repeat constructor; apply Hdigit; lia.
    + rewrite bytes_app. apply Forall_app. split.
      * apply IH. apply Z.div_pos; lia.
      * repeat constructor; apply Hdigit; apply Z.mod_pos_bound; lia.
Qed.

Lemma trimEnd_snoc a q :
  Headers.isWhitespace q = false ->
  Headers.trimEnd (a +:+ String q EmptyString) = a +:+ String q EmptyString.
Proof.
  intros Hq. induction a as [|c a IH].
  - change (EmptyString +:+ String q EmptyString) with (String q EmptyString).
    simpl. by rewrite Hq.
  - change (String c a +:+ String q EmptyString)
      with (String c (a +:+ String q EmptyString)).
    cbn [Headers.trimEnd]. rewrite IH. by destruct a.
Qed.

Lemma generateEtag_held data :
  Headers.value (Etag.generateEtag data) = Ok (Etag.generateEtag data).
Proof.
  unfold Etag.generateEtag, Headers.value, Headers.normalize.
  set (digits := Etag.toString36 6 _).
  assert (Hnorm : Headers.trimEnd
            (Headers.trimStart (String Str.dquote (digits +:+ String Str.dquote EmptyString)))
          = String Str.dquote (digits +:+ String Str.dquote EmptyString)).
  { change (Headers.trimStart (String Str.dquote ?s)) with (String Str.dquote s).
    apply (trimEnd_snoc (String Str.dquote digits)). done. }
  rewrite Hnorm. rewrite legal_printable; [done|].
  cbn [Str.bytes]. constructor; [done|]. rewrite bytes_app. apply Forall_app. split.
  - apply bytes_toString36. lia.
  - by repeat constructor.
Qed.

Lemma originEtag_held etagHeader data :
  Headers.value (originEtag etagHeader data) = Ok (originEtag etagHeader data)
  ∧ JS.truthyStr (Some (originEtag etagHeader data)) = true.
Proof.
  unfold originEtag.
  destruct (JS.truthyStr (headerText <$> etagHeader)) eqn:E.
  - destruct etagHeader as [[text Hheld]|]; [|done]. simpl in *. done.
  - split; [apply generateEtag_held|done].
Qed.

Lemma createSuccessResponse_fresh data cacheStatus startTime etagHeader now :
  createSuccessResponse data cacheStatus startTime (Some (originEtag etagHeader data)) now
  = Ok (successResponse data cacheStatus startTime
          [("ETag", originEtag etagHeader data)] now).
Proof.
  unfold createSuccessResponse.
  destruct (originEtag_held etagHeader data) as [Hheld ->]. simpl. by rewrite Hheld.
Qed.

(* ===================================================================== *)
(** ** Cache keys                                                         *)
(* ===================================================================== *)

(** C5.  Two product requests that differ only in the order of
    [excludeProductIds], and two cart requests that differ only in the order of
    the numbers in [products], get the same cache key. *)
Theorem key_ignores_collection_order (P : Platform) :
  (∀ (A : ProductRequestBody) (idsA idsB : list string),
      excludeProductIds A = Some idsA ->
      idsA ≡ₚ idsB ->
      generateProductCacheKey P A
      = generateProductCacheKey P (withExcludeProductIds (Some idsB) A))
  ∧ (∀ (A : Json) (productsA productsB : list Z),
      JS.prop A "products" = Some (JArr (JNum <$> productsA)) ->
      productsA ≡ₚ productsB ->
      generateCartCacheKey P A
      = generateCartCacheKey P (withProp "products" (JArr (JNum <$> productsB)) A)).
Proof.
  split.
  - intros A idsA idsB HA Hperm.
    unfold generateProductCacheKey, productKeyData. simpl.
    rewrite HA. simpl. by rewrite (sortStrings_Permutation _ _ Hperm).
  - intros A productsA productsB HA Hperm.
    destruct A as [| | | | |fields]; try done.
    unfold generateCartCacheKey, cartKeyData, sortedProducts, withProp.
    rewrite HA. simpl in *.
    rewrite !assoc_setField. simpl.
    by rewrite (sortDefault_numbers_Permutation _ _ Hperm).
Qed.

Lemma key_ignores_collection_order_witness :
  generateProductCacheKey Sample.platform Sample.productBody
  = generateProductCacheKey Sample.platform
      (withExcludeProductIds (Some ["1"; "2"; "3"]) Sample.productBody)
  ∧ generateCartCacheKey Sample.platform Sample.cartBody
    = generateCartCacheKey Sample.platform
        (withProp "products" (JArr (JNum <$> [100; 30; 4]%Z)) Sample.cartBody).
Proof.
  split.
  - apply (proj1 (key_ignores_collection_order Sample.platform)
             Sample.productBody ["3"; "2"; "1"] ["1"; "2"; "3"]).
    + reflexivity.
    + change ["1"; "2"; "3"] with (reverse ["3"; "2"; "1"]).
      symmetry. apply reverse_Permutation.
  - apply (proj2 (key_ignores_collection_order Sample.platform)
             Sample.cartBody [30; 4; 100]%Z [100; 30; 4]%Z).
    + reflexivity.
    + symmetry. apply (Permutation_cons_append [30; 4]%Z 100%Z).
Defined.

(** C9.  The product key does not look at [cartToken]: requests that differ
    only there share a key, although the fetcher called on a miss sends a
    non-empty token to the origin; an entry stored under the key of one is
    served, as a HIT, to the other (what the handler answers is what
    [createSuccessResponse] gives for the entry under the [try] of the
    handler; it is a HIT whenever the entry's etag can be set as a header, as
    that of an entry written by the worker can). *)
Theorem product_key_ignores_cartToken
    (P : Platform) (env : Env) (body : ProductRequestBody)
    (tokenA tokenB : option string)
    (w : Worker) (i : nat) (startTime now : Z) (cached : CachedResponse) :
  let A := withCartToken tokenA body in
  let B := withCartToken tokenB body in
  JS.truthyStr tokenA = true ->
  tasks w !! i = Some (AwaitCache (ProductRequest (productBodyAfterKey B))
                                  (generateProductCacheKey P B) startTime) ->
  kvGet (CACHE w) (generateProductCacheKey P A) now = Some cached ->
  isStale now cached = false ->
  generateProductCacheKey P A = generateProductCacheKey P B
  ∧ JS.assoc "cartToken"
      (originQuery (originRequest env (producer (ProductRequest (productBodyAfterKey A))
                                                (generateProductCacheKey P A))))
    = tokenA
  ∧ exec P w (CacheRead i None now)
    = Some (setTask w i
              (Finished (orInternalError
                           (createSuccessResponse (data cached) HIT startTime
                                                  (etag cached) now)
                           startTime now) None))
  ∧ (etagHeld (etag cached) = true ->
     ∃ r, exec P w (CacheRead i None now) = Some (setTask w i (Finished r None))
          ∧ status r = 200%Z
          ∧ header "X-Cache" r = Some "HIT"
          ∧ responseBody r = Some (JSON.stringify (data cached))).
Proof.
  intros A B HtokenA Htask Hcache Hfresh.
  assert (Hkey : generateProductCacheKey P A = generateProductCacheKey P B) by done.
  assert (Hexec : exec P w (CacheRead i None now)
    = Some (setTask w i
              (Finished (orInternalError
                           (createSuccessResponse (data cached) HIT startTime
                                                  (etag cached) now)
                           startTime now) None))).
  { simpl. rewrite Htask. rewrite <- Hkey, Hcache. simpl.
    unfold afterCacheRead. by rewrite Hfresh. }
  split; [done|]. split; [|split; [done|]].
  - unfold originRequest, producer, productOriginRequest, optParam. simpl.
    destruct (JS.truthyStr (productId body)), (JS.truthyStr (productHandle body)),
      (JS.truthyStr (layout body)); simpl; rewrite HtokenA; simpl;
      by destruct tokenA.
  - intros Hheld.
    destruct (createSuccessResponse_held (data cached) HIT startTime (etag cached) now Hheld)
      as [r Hr].
    exists r. rewrite Hexec, Hr.
    by destruct (createSuccessResponse_Ok _ _ _ _ _ _ Hr) as (? & ? & ? & _).
Qed.

Lemma product_key_ignores_cartToken_witness :
  let A := withCartToken (Some "tokenA") Sample.productBody in
  let B := withCartToken (Some "tokenB") Sample.productBody in
  let w := addTask (initial {[ generateProductCacheKey Sample.platform A :=
                                 {| kvValue := Sample.entry; kvExpires := 4000000 |} ]})
                   (AwaitCache (ProductRequest (productBodyAfterKey B))
                               (generateProductCacheKey Sample.platform B) 2000) in
  generateProductCacheKey Sample.platform A = generateProductCacheKey Sample.platform B
  ∧ JS.assoc "cartToken"
      (originQuery (originRequest Sample.env
                      (producer (ProductRequest (productBodyAfterKey A))
                                (generateProductCacheKey Sample.platform A))))
    = Some "tokenA"
  ∧ exec Sample.platform w (CacheRead 0 None 2005)
    = Some (setTask w 0 (Finished (successResponse Sample.payload HIT 2000 [] 2005)
                                  None)).
Proof.
  intros A B w.
  destruct (product_key_ignores_cartToken Sample.platform Sample.env Sample.productBody
              (Some "tokenA") (Some "tokenB") w 0 2000 2005 Sample.entry)
    as (Hkey & Htoken & Hexec & _).
  - reflexivity.
  - reflexivity.
  - vm_compute. reflexivity.
  - reflexivity.
  - split; [exact Hkey|]. split; [exact Htoken|exact Hexec].
Defined.

(** Properties of the body other than [shop] and [cart] (such as [variantId]
    and [attribute]) are not part of the key. *)
Lemma storefrontKey_other_prop (P : Platform) (body : Json) name v :
  name ≠ "shop" -> name ≠ "cart" ->
  generateStorefrontCacheKey P (withProp name v body) = generateStorefrontCacheKey P body.
Proof.
  intros Hshop Hcart. destruct body as [| | | | |fields]; try done.
  unfold generateStorefrontCacheKey, storefrontKeyData, withProp. simpl.
  rewrite !assoc_setField.
  destruct (String.eqb_spec name "shop"); [done|].
  destruct (String.eqb_spec name "cart"); done.
Qed.

(** Properties of the cart other than the four that are read are not part of
    the key. *)
Lemma storefrontKey_other_cart_prop (P : Platform) fields cartFields name v :
  name ∉ ["token"; "total_price"; "item_count"; "items"] ->
  JS.assoc "cart" fields = Some (JObj cartFields) ->
  generateStorefrontCacheKey P
    (JObj (JS.setField "cart" (JObj (JS.setField name v cartFields)) fields))
  = generateStorefrontCacheKey P (JObj fields).
Proof.
  intros Hname Hcart.
  unfold generateStorefrontCacheKey, storefrontKeyData, storefrontKeyItems. simpl.
  rewrite !assoc_setField, Hcart. simpl. rewrite !assoc_setField.
  destruct (String.eqb_spec name "token") as [->|]; [set_solver|].
  destruct (String.eqb_spec name "total_price") as [->|]; [set_solver|].
  destruct (String.eqb_spec name "item_count") as [->|]; [set_solver|].
  destruct (String.eqb_spec name "items") as [->|]; [set_solver|].
  done.
Qed.

(** Properties of a line item other than the three that are read are not part
    of its simplified form. *)
Lemma storefrontKeyItem_other_prop (item : Json) name v :
  name ∉ ["variant_id"; "quantity"; "properties"] ->
  storefrontKeyItem (withProp name v item) = storefrontKeyItem item.
Proof.
  intros Hname. destruct item as [| | | | |fields]; try done.
  unfold storefrontKeyItem, withProp. simpl. rewrite !assoc_setField.
  destruct (String.eqb_spec name "variant_id") as [->|]; [set_solver|].
  destruct (String.eqb_spec name "quantity") as [->|]; [set_solver|].
  destruct (String.eqb_spec name "properties") as [->|]; [set_solver|].
  done.
Qed.

(** *** The generator's sort against "sorted by variant_id" *)

Lemma byIdGt_keyItemOf (P : Platform) a b :
  byIdGt P (keyItemOf a) (keyItemOf b) = variantGt a b.
Proof.
  unfold byIdGt, variantGt. simpl.
  destruct (Z.ltb_spec 0 (itemVariant a - itemVariant b)),
    (Z.ltb_spec (itemVariant b) (itemVariant a)); try done; lia.
Qed.

Lemma insert_variant_filter x l variant :
  filter (fun item => itemVariant item = variant) (ArraySort.insert variantGt x l)
  = filter (fun item => itemVariant item = variant) (x :: l).
Proof.
  induction l as [|y ys IH]; simpl; [done|].
  destruct (variantGt x y) eqn:E; [|done].
  unfold variantGt in E. apply Z.ltb_lt in E.
  rewrite (filter_cons _ y (ArraySort.insert _ _ _)), IH, !filter_cons.
  repeat case_decide; try done; lia.
Qed.

Lemma sort_variant_filter l variant :
  filter (fun item => itemVariant item = variant) (ArraySort.sort variantGt l)
  = filter (fun item => itemVariant item = variant) l.
Proof.
  induction l as [|x xs IH]; simpl; [done|].
  by rewrite insert_variant_filter, !filter_cons, IH.
Qed.

Lemma insert_variant_Sorted x l :
  Sorted (fun a b => (itemVariant a ≤ itemVariant b)%Z) l ->
  Sorted (fun a b => (itemVariant a ≤ itemVariant b)%Z) (ArraySort.insert variantGt x l).
Proof.
  induction l as [|y ys IH]; simpl; intros Hs.
  - by repeat constructor.
  - destruct (variantGt x y) eqn:E; unfold variantGt in E.
    + apply Z.ltb_lt in E. apply Sorted_inv in Hs as [Hs Hhd].
      constructor; [by apply IH|].
      destruct ys as [|z zs]; simpl.
      * constructor. lia.
      * apply HdRel_inv in Hhd. destruct (variantGt x z); constructor; lia.
    + apply Z.ltb_ge in E. constructor; [done|]. by constructor.
Qed.

Lemma sort_variant_Sorted l :
  Sorted (fun a b => (itemVariant a ≤ itemVariant b)%Z) (ArraySort.sort variantGt l).
Proof.
  induction l as [|x xs IH]; simpl; [constructor|by apply insert_variant_Sorted].
Qed.

(** There is one way to sort by variant_id. *)
Lemma SortedByVariant_unique items s1 s2 :
  SortedByVariant items s1 -> SortedByVariant items s2 -> s1 = s2.
Proof.
  intros [H1 Hf1] [H2 Hf2].
  assert (Hf : ∀ variant, filter (fun item => itemVariant item = variant) s1
                          = filter (fun item => itemVariant item = variant) s2)
    by (intros variant; by rewrite Hf1, Hf2).
  clear Hf1 Hf2.
  apply Sorted_StronglySorted in H1; [|intros a b c; simpl; lia].
  apply Sorted_StronglySorted in H2; [|intros a b c; simpl; lia].
  revert s2 H2 Hf. induction H1 as [|a t1 Ht1 IH Ha]; intros [|b t2] H2 Hf.
  - done.
  - specialize (Hf (itemVariant b)). by rewrite filter_nil, filter_cons_True in Hf.
  - specialize (Hf (itemVariant a)). by rewrite filter_nil, filter_cons_True in Hf.
  - apply StronglySorted_inv in H2 as [Ht2 Hb].
    assert (Hba : (itemVariant b ≤ itemVariant a)%Z).
    { assert (a ∈ b :: t2) as [->|Hin]%elem_of_cons; [|lia|].
      - eapply (list_elem_of_filter (fun item => itemVariant item = itemVariant a)).
        rewrite <- Hf, filter_cons_True by done. left.
      - rewrite Forall_forall in Hb. by apply Hb. }
    assert (Hab : (itemVariant a ≤ itemVariant b)%Z).
    { assert (b ∈ a :: t1) as [->|Hin]%elem_of_cons; [|lia|].
      - eapply (list_elem_of_filter (fun item => itemVariant item = itemVariant b)).
        rewrite Hf, filter_cons_True by done. left.
      - rewrite Forall_forall in Ha. by apply Ha. }
    assert (a = b) as <-.
    { specialize (Hf (itemVariant a)).
      rewrite !filter_cons_True in Hf by lia. congruence. }
    f_equal. apply IH; [done|]. intros variant. specialize (Hf variant).
    rewrite !filter_cons in Hf. case_decide; congruence.
Qed.

Lemma sort_SortedByVariant items :
  SortedByVariant items (ArraySort.sort variantGt items).
Proof. split; [apply sort_variant_Sorted|apply sort_variant_filter]. Qed.

Lemma mapR_storefrontKeyItem items projected :
  mapM projectItem items = Some projected ->
  mapR storefrontKeyItem items = Ok (keyItemOf <$> projected).
Proof.
  rewrite mapM_Some. induction 1 as [|item p items projected Hitem _ IH]; [done|].
  simpl. rewrite IH.
  unfold projectItem in Hitem.
  destruct (JS.prop item "variant_id") as [[]|] eqn:Hv; try done.
  injection Hitem as <-. destruct item; try done.
  unfold storefrontKeyItem, keyItemOf. cbn [itemVariant itemQuantity itemProperties].
  by rewrite Hv.
Qed.

Lemma storefrontKeyItems_projected (P : Platform) items projected :
  mapM projectItem items = Some projected ->
  mapR storefrontKeyItem items ≫= (fun mapped => Ok (ArraySort.sort (byIdGt P) mapped))
  = Ok (keyItemOf <$> ArraySort.sort variantGt projected).
Proof.
  intros ->%mapR_storefrontKeyItem. simpl. rewrite sort_fmap. do 2 f_equal.
  clear. induction projected as [|x xs IH]; simpl; [done|]. rewrite IH.
  generalize (ArraySort.sort variantGt xs). intros l.
  induction l as [|y ys IHl]; simpl; [done|].
  rewrite byIdGt_keyItemOf. destruct (variantGt x y); [|done]. by rewrite IHl.
Qed.

Lemma Projects_key (P : Platform) body p :
  Projects body p -> generateStorefrontCacheKey P body = Ok (projectionKey P p).
Proof.
  intros (Hshop & Htoken & Htotal & Hcount & Hitems).
  unfold generateStorefrontCacheKey, storefrontKeyData, storefrontKeyItems, projectionKey.
  rewrite Hshop, Htoken, Htotal, Hcount.
  destruct (JS.optProp (JS.prop body "cart") "items") as [[| | | |items|]|]; try done.
  - by rewrite Hitems.
  - destruct Hitems as (projected & sorted & Hmap & Hsorted & ->).
    pose proof (storefrontKeyItems_projected P items projected Hmap) as Hkey.
    destruct (mapR storefrontKeyItem items) as [mapped|]; [|done].
    simpl in Hkey. injection Hkey as ->.
    rewrite (SortedByVariant_unique _ _ _ Hsorted (sort_SortedByVariant projected)).
    simpl. by rewrite <- list_fmap_compose.
  - by rewrite Hitems.
Qed.

Lemma Projects_exists body items :
  JS.optProp (JS.prop body "cart") "items" = Some (JArr items) ->
  (∀ item, item ∈ items -> ∃ variant, JS.prop item "variant_id" = Some (JNum variant)) ->
  ∃ p, Projects body p.
Proof.
  intros Hitems Hnum.
  assert (∃ projected, mapM projectItem items = Some projected) as [projected Hmap].
  { clear Hitems. induction items as [|item items IH]; [by eexists|].
    destruct IH as [projected Hmap]; [intros ??; apply Hnum; by right|].
    destruct (Hnum item) as [variant Hv]; [left|].
    eexists. simpl. rewrite Hmap. unfold projectItem. rewrite Hv. done. }
  exists {| projShop := JS.prop body "shop";
            projToken := JS.optProp (JS.prop body "cart") "token";
            projTotalPrice := JS.optProp (JS.prop body "cart") "total_price";
            projItemCount := JS.optProp (JS.prop body "cart") "item_count";
            projItems := Some (ArraySort.sort variantGt projected) |}.
  repeat split. rewrite Hitems.
  exists projected, (ArraySort.sort variantGt projected).
  split; [done|]. split; [apply sort_SortedByVariant|done].
Qed.

(** C10.  The storefront key is the key of the request's projection: the shop,
    the [token], [total_price] and [item_count] of the cart, and the line
    items as (variant_id, quantity, properties) sorted by variant_id.  Two
    bodies with the same projection get the same key; every body whose line
    items have a number as [variant_id], and every body without line items,
    has a projection; and another property of the body (such as [variantId]
    or [attribute]), of the cart or of a line item changes nothing. *)
Theorem storefront_key_depends_on_projection (P : Platform) :
  (∀ (body : Json) (p : StorefrontProjection),
      Projects body p -> generateStorefrontCacheKey P body = Ok (projectionKey P p))
  ∧ (∀ (A B : Json) (p : StorefrontProjection),
      Projects A p -> Projects B p ->
      generateStorefrontCacheKey P A = generateStorefrontCacheKey P B)
  ∧ (∀ (body : Json) (items : list Json),
      JS.optProp (JS.prop body "cart") "items" = Some (JArr items) ->
      (∀ item, item ∈ items ->
               ∃ variant, JS.prop item "variant_id" = Some (JNum variant)) ->
      ∃ p, Projects body p)
  ∧ (∀ (body : Json) name v,
      name ≠ "shop" -> name ≠ "cart" ->
      generateStorefrontCacheKey P (withProp name v body)
      = generateStorefrontCacheKey P body)
  ∧ (∀ fields cartFields name v,
      name ∉ ["token"; "total_price"; "item_count"; "items"] ->
      JS.assoc "cart" fields = Some (JObj cartFields) ->
      generateStorefrontCacheKey P
        (JObj (JS.setField "cart" (JObj (JS.setField name v cartFields)) fields))
      = generateStorefrontCacheKey P (JObj fields))
  ∧ (∀ (item : Json) name v,
      name ∉ ["variant_id"; "quantity"; "properties"] ->
      storefrontKeyItem (withProp name v item) = storefrontKeyItem item)
  ∧ (∀ (body : Json),
      JS.optProp (JS.prop body "cart") "items" = None
      ∨ JS.optProp (JS.prop body "cart") "items" = Some JNull ->
      ∃ p, Projects body p).
Proof.
  split; [apply Projects_key|]. split.
  { intros A B p HA HB. by rewrite (Projects_key P A p HA), (Projects_key P B p HB). }
  split; [apply Projects_exists|]. split; [apply storefrontKey_other_prop|].
  split; [apply storefrontKey_other_cart_prop|].
  split; [apply storefrontKeyItem_other_prop|].
  intros body Hitems.
  exists {| projShop := JS.prop body "shop";
            projToken := JS.optProp (JS.prop body "cart") "token";
            projTotalPrice := JS.optProp (JS.prop body "cart") "total_price";
            projItemCount := JS.optProp (JS.prop body "cart") "item_count";
            projItems := None |}.
  repeat split. by destruct Hitems as [-> | ->].
Qed.

Lemma storefront_key_depends_on_projection_witness :
  generateStorefrontCacheKey Sample.platform Sample.storefrontBodyA
  = generateStorefrontCacheKey Sample.platform Sample.storefrontBodyB
  ∧ generateStorefrontCacheKey Sample.platform
      (withProp "variantId" (JStr "v-20") Sample.storefrontBodyA)
    = generateStorefrontCacheKey Sample.platform Sample.storefrontBodyA.
Proof.
  split.
  - apply (proj1 (proj2 (storefront_key_depends_on_projection Sample.platform))
             Sample.storefrontBodyA Sample.storefrontBodyB Sample.projection).
    + repeat split.
      exists [ {| itemVariant := 20; itemQuantity := Some (JNum 1); itemProperties := None |};
               {| itemVariant := 7; itemQuantity := Some (JNum 1); itemProperties := None |} ],
             Sample.sortedItems.
      split; [reflexivity|]. split; [|reflexivity]. split.
      * repeat constructor. simpl. lia.
      * intros variant. unfold Sample.sortedItems. rewrite !filter_cons, !filter_nil. simpl.
        repeat case_decide; try reflexivity; lia.
    + repeat split.
      exists Sample.sortedItems, Sample.sortedItems.
      split; [reflexivity|]. split; [|reflexivity]. split.
      * repeat constructor. simpl. lia.
      * reflexivity.
  - apply (proj1 (proj2 (proj2 (proj2 (storefront_key_depends_on_projection Sample.platform))))
             Sample.storefrontBodyA "variantId" (JStr "v-20")).
    + discriminate.
    + discriminate.
Defined.

(* ===================================================================== *)
(** ** Staleness                                                          *)
(* ===================================================================== *)

Lemma isStale_false now cached :
  isStale now cached = false ↔ (now - timestamp cached ≤ 60 * 60 * 1000)%Z.
Proof. unfold isStale, ONE_HOUR. rewrite Z.ltb_ge. lia. Qed.

Lemma includes_abort_origin_returned status :
  Str.includes "abort" ("Origin returned " +:+ Str.ofZ status) = false.
Proof.
  destruct (Str.includes _ _) eqn:E; [|done].
  apply includes_hasChar in E. rewrite hasChar_app, hasChar_ofZ in E. done.
Qed.

(** An origin call that gives a payload: the response is tagged with the
    fetcher's tag, and the write is handed over. *)
Lemma afterFetch_success tm ttl fs wk stale start code etagHeader payload now :
  responseOk code = true ->
  afterFetch tm ttl fs wk stale start (Resolved code etagHeader (Ok payload)) now
  = (Ok (successResponse payload fs start [("ETag", originEtag etagHeader payload)] now),
     match wk with
     | Some key => [ {| putKey := key;
                        putValue := {| data := payload; timestamp := now;
                                       etag := Some (originEtag etagHeader payload) |};
                        expirationTtl := ttl |} ]
     | None => []
     end).
Proof.
  intros Hok. unfold afterFetch, afterFetchTry. rewrite Hok. cbn [negb].
  by rewrite createSuccessResponse_fresh.
Qed.

(** An origin call that gives none: the stale entry if there is one, a 503
    otherwise; nothing is written. *)
Lemma afterFetch_noPayload tm ttl fs wk stale start outcome now :
  noPayload outcome = true ->
  afterFetch tm ttl fs wk stale start outcome now
  = (match stale with
     | Some entry => createSuccessResponse (data entry) STALE start (etag entry) now
     | None => Ok (createErrorResponse (failureMessage tm outcome) 503 start now)
     end, []).
Proof.
  intros Hno. unfold afterFetch, afterFetchTry, afterFetchCatch, failureMessage.
  assert (Hstatus : ∀ code,
    (if instanceofError (newError ("Origin returned " +:+ Str.ofZ code))
        && Str.includes "abort" (message (newError ("Origin returned " +:+ Str.ofZ code)))
     then tm else "Origin unavailable") = "Origin unavailable").
  { intros code. cbn [newError instanceofError message andb].
    by rewrite includes_abort_origin_returned. }
  destruct outcome as [e|code h [payload|e]]; cbn [noPayload] in Hno.
  - done.
  - rewrite Hno. apply negb_true_iff in Hno. rewrite Hno.
    destruct stale as [entry|].
    + by destruct (createSuccessResponse _ _ _ _ _).
    + by rewrite Hstatus.
  - destruct (responseOk code); cbn [negb]; [done|].
    destruct stale as [entry|].
    + by destruct (createSuccessResponse _ _ _ _ _).
    + by rewrite Hstatus.
Qed.

Lemma noPayload_cases outcome :
  noPayload outcome = true
  ∨ ∃ code etagHeader payload,
      outcome = Resolved code etagHeader (Ok payload) ∧ responseOk code = true.
Proof.
  destruct outcome as [e|code h [payload|e]]; simpl; auto.
  destruct (responseOk code) eqn:E; simpl; [right; by eexists _, _, _|by left].
Qed.

Lemma originFailed_noPayload outcome : originFailed outcome = true -> noPayload outcome = true.
Proof. destruct outcome as [e|code h [payload|e]]; simpl; auto. Qed.

Lemma afterFetch_puts tm ttl fs wk stale start outcome now p :
  p ∈ (afterFetch tm ttl fs wk stale start outcome now).2 ->
  wk = Some (putKey p) ∧ expirationTtl p = ttl.
Proof.
  destruct (noPayload_cases outcome) as [Hno|(code & h & payload & -> & Hok)].
  - rewrite afterFetch_noPayload by done. simpl. intros H. by apply elem_of_nil in H.
  - rewrite afterFetch_success by done. simpl. destruct wk as [k|].
    + intros ->%list_elem_of_singleton. done.
    + intros H. by apply elem_of_nil in H.
Qed.

Lemma settle_afterFetch (f : OriginFetch) outcome now :
  ∃ ttl freshStatus writeKey,
    settle f outcome now
    = afterFetch (timeoutMessage (fetchCall f)) ttl freshStatus writeKey
                 (fetchStale f) (fetchStart f) outcome now.
Proof.
  unfold settle. destruct (fetchCall f); simpl; eauto.
Qed.

Lemma settle_noPayload (f : OriginFetch) outcome now :
  noPayload outcome = true ->
  settle f outcome now
  = (match fetchStale f with
     | Some entry =>
         createSuccessResponse (data entry) STALE (fetchStart f) (etag entry) now
     | None =>
         Ok (createErrorResponse (failureMessage (timeoutMessage (fetchCall f)) outcome)
                                 503 (fetchStart f) now)
     end, []).
Proof.
  intros Hno. destruct (settle_afterFetch f outcome now) as (ttl & fs & wk & ->).
  by apply afterFetch_noPayload.
Qed.

Lemma settle_success (f : OriginFetch) code etagHeader payload now :
  responseOk code = true ->
  ∃ freshStatus,
    (settle f (Resolved code etagHeader (Ok payload)) now).1
    = Ok (successResponse payload freshStatus (fetchStart f)
            [("ETag", originEtag etagHeader payload)] now).
Proof.
  intros Hok.
  destruct (settle_afterFetch f (Resolved code etagHeader (Ok payload)) now)
    as (ttl & fs & wk & ->).
  exists fs. by rewrite afterFetch_success.
Qed.

Lemma settle_ttl (c : Cacheable) cacheKey stale start outcome now :
  ∀ p, p ∈ (settle {| fetchCall := producer c cacheKey; fetchStale := stale;
                      fetchStart := start; fetchResult := None |} outcome now).2 ->
       putKey p = cacheKey ∧ expirationTtl p = hardTtl (endpointOf c).
Proof.
  intros p.
  destruct c; simpl; intros [Hk Ht]%afterFetch_puts; (split; [|done]).
  1, 2, 4, 5: congruence.
  repeat case_match; congruence.
Qed.

(** C2 as the code has it.  For every one of the five endpoints an entry is
    fresh iff [now - timestamp <= 1 hour]: the handler answers HIT for a fresh
    entry, keeps a stale one as the fallback of the origin call, and has no
    fallback when there is no entry.  The per-endpoint durations (1 h, 1 h,
    5 min, 30 min, 10 min) are the TTL handed to the store with each write. *)
Theorem freshness_window_is_one_hour
    (w : Worker) (i : nat) (c : Cacheable) (cacheKey : string) (startTime now : Z) :
  (∀ cached,
      (now - timestamp cached ≤ 60 * 60 * 1000)%Z ->
      isStale now cached = false
      ∧ afterCacheRead w i c cacheKey startTime (Some cached) now
        = setTask w i
            (Finished (orInternalError
                         (createSuccessResponse (data cached) HIT startTime
                                                (etag cached) now)
                         startTime now) None))
  ∧ (∀ cached,
      (60 * 60 * 1000 < now - timestamp cached)%Z ->
      isStale now cached = true
      ∧ afterCacheRead w i c cacheKey startTime (Some cached) now
        = joinOrFetch w i c cacheKey startTime (Some cached))
  ∧ afterCacheRead w i c cacheKey startTime None now
    = joinOrFetch w i c cacheKey startTime None
  ∧ (∀ stale start outcome now' p,
      p ∈ (settle {| fetchCall := producer c cacheKey; fetchStale := stale;
                     fetchStart := start; fetchResult := None |} outcome now').2 ->
      expirationTtl p = hardTtl (endpointOf c)).
Proof.
  repeat split.
  - by apply isStale_false.
  - unfold afterCacheRead. by rewrite (proj2 (isStale_false now cached)).
  - unfold isStale, ONE_HOUR. apply Z.ltb_lt. lia.
  - unfold afterCacheRead.
    assert (isStale now cached = true) as ->; [|done].
    unfold isStale, ONE_HOUR. apply Z.ltb_lt. lia.
  - intros stale start outcome now' p Hp. by apply settle_ttl in Hp as [_ ?].
Qed.

Lemma freshness_window_is_one_hour_witness :
  (isStale 301001 Sample.entry = false
   ∧ afterCacheRead Sample.waitingStorefront 0 (StorefrontRequest Sample.storefrontBodyA)
       Sample.storefrontKey 301000 (Some Sample.entry) 301001
     = setTask Sample.waitingStorefront 0
         (Finished (successResponse Sample.payload HIT 301000 [] 301001) None))
  ∧ (isStale 3601001 Sample.entry = true
     ∧ afterCacheRead Sample.waitingStorefront 0 (StorefrontRequest Sample.storefrontBodyA)
         Sample.storefrontKey 301000 (Some Sample.entry) 3601001
       = joinOrFetch Sample.waitingStorefront 0 (StorefrontRequest Sample.storefrontBodyA)
           Sample.storefrontKey 301000 (Some Sample.entry)).
Proof.
  split.
  - apply (proj1 (freshness_window_is_one_hour Sample.waitingStorefront 0
                    (StorefrontRequest Sample.storefrontBodyA) Sample.storefrontKey
                    301000 301001)).
    simpl. lia.
  - apply (proj1 (proj2 (freshness_window_is_one_hour Sample.waitingStorefront 0
                    (StorefrontRequest Sample.storefrontBodyA) Sample.storefrontKey
                    301000 3601001))).
    simpl. lia.
Defined.

(** C2 as stated fails for the storefront endpoint: an entry written at time
    1000 is past the 5-minute window of the table at time 301001, the store
    still holds it, and the handler answers HIT. *)
Lemma storefront_window_counterexample :
  specFresh StorefrontCartRules 301001 Sample.entry = false
  ∧ run Sample.platform (initial Sample.storefrontStore)
        [ Arrive (Sample.storefrontRequest Sample.storefrontBodyA) 301000 301000;
          CacheRead 0 None 301001 ]
    = Some (addTask (initial Sample.storefrontStore)
              (Finished (successResponse Sample.payload HIT 301000 [] 301001)
                        None)).
Proof. split; vm_compute; reflexivity. Qed.

(* ===================================================================== *)
(** ** Origin failure                                                     *)
(* ===================================================================== *)





(* ===================================================================== *)
(** ** Cache read                                                         *)
(* ===================================================================== *)

Lemma withCache_same (w : Worker) : withCache (CACHE w) w = w.
Proof. by destruct w. Qed.

Lemma joinOrFetch_withCache cache w i c cacheKey startTime cached :
  joinOrFetch (withCache cache w) i c cacheKey startTime cached
  = withCache cache (joinOrFetch w i c cacheKey startTime cached).
Proof.
  unfold joinOrFetch. simpl. by destruct (inFlightRequests w !! cacheKey).
Qed.

Lemma joinOrFetch_CACHE w i c cacheKey startTime cached :
  CACHE (joinOrFetch w i c cacheKey startTime cached) = CACHE w.
Proof.
  unfold joinOrFetch. by destruct (inFlightRequests w !! cacheKey).
Qed.

Lemma joinOrFetch_task w i c cacheKey startTime cached :
  (i < length (tasks w))%nat ->
  ∃ pid, tasks (joinOrFetch w i c cacheKey startTime cached) !! i
         = Some (AwaitExisting pid startTime)
         ∨ tasks (joinOrFetch w i c cacheKey startTime cached) !! i
           = Some (AwaitOwn cacheKey pid startTime).
Proof.
  intros Hi. unfold joinOrFetch.
  destruct (inFlightRequests w !! cacheKey) as [pid|]; simpl.
  - exists pid. left. by apply list_lookup_insert_eq.
  - exists (length (fetches w)). right. by apply list_lookup_insert_eq.
Qed.

(** C7.  A failed read of the store is a miss: the handler goes on exactly as
    it does when the store has no entry for the key, towards the in-flight
    request or the origin, and does not answer with an error. *)
Theorem cache_read_failure_is_a_miss
    (P : Platform) (w : Worker) (i : nat) (c : Cacheable) (cacheKey : string)
    (startTime : Z) (e : JsError) (now : Z) :
  tasks w !! i = Some (AwaitCache c cacheKey startTime) ->
  getCachedResponse (Threw e) = getCachedResponse (Ok None)
  ∧ exec P w (CacheRead i (Some e) now)
    = withCache (CACHE w)
        <$> exec P (withCache (delete cacheKey (CACHE w)) w) (CacheRead i None now)
  ∧ ∃ w', exec P w (CacheRead i (Some e) now) = Some w'
          ∧ ∃ pid, tasks w' !! i = Some (AwaitExisting pid startTime)
                   ∨ tasks w' !! i = Some (AwaitOwn cacheKey pid startTime).
Proof.
  intros Htask. split; [done|]. split.
  - simpl. rewrite Htask. unfold kvGet. rewrite lookup_delete_eq. simpl.
    rewrite joinOrFetch_withCache.
    change (withCache ?a (withCache ?b ?x)) with (withCache a x).
    by rewrite <- (joinOrFetch_CACHE w i c cacheKey startTime None), withCache_same.
  - simpl. rewrite Htask. simpl. eexists; split; [done|].
    apply joinOrFetch_task. by eapply lookup_lt_Some.
Qed.

Lemma cache_read_failure_is_a_miss_witness :
  exec Sample.platform (Sample.waitingProduct Sample.productStore)
       (CacheRead 0 (Some typeError) 2005)
  = withCache Sample.productStore
      <$> exec Sample.platform
            (withCache (delete (generateProductCacheKey Sample.platform Sample.parsedProduct)
                               Sample.productStore)
                       (Sample.waitingProduct Sample.productStore))
            (CacheRead 0 None 2005).
Proof.
  apply (cache_read_failure_is_a_miss Sample.platform
           (Sample.waitingProduct Sample.productStore) 0
           (ProductRequest (productBodyAfterKey Sample.parsedProduct))
           (generateProductCacheKey Sample.platform Sample.parsedProduct)
           2000 typeError 2005).
  reflexivity.
Defined.




(* ===================================================================== *)
(** ** Coalescing                                                         *)
(* ===================================================================== *)

(** Only the storefront handler calls a fetcher before reading the cache, and
    it passes no key. *)
Lemma fetch_CallOrigin (P : Platform) req startTime now call :
  fetch P req startTime now = CallOrigin call -> callKey call = None.
Proof.
  unfold fetch, handleProductRecommendation, handleCartRecommendation,
    handleStorefrontRequest, handleUpsellRequest, handleThinkRecommendations.
  intros H. repeat case_match; simplify_eq; done.
Qed.

Lemma lookup_snoc_Some {A} (l : list A) (x y : A) (i : nat) :
  (l ++ [x]) !! i = Some y -> l !! i = Some y ∨ (i = length l ∧ x = y).
Proof.
  intros H. apply lookup_app_Some in H as [H|[Hle H]]; [by left|right].
  destruct (i - length l)%nat eqn:E; simpl in H; [|done].
  split; [lia|congruence].
Qed.

Lemma Coalescing_initial cache : Coalescing (initial cache).
Proof. split; simpl; intros; try done. by destruct H. Qed.

Section CoalescingSteps.
Context (P : Platform).

Lemma Coalescing_addTask w t :
  (∀ k pid st, t ≠ AwaitOwn k pid st) ->
  (∀ pid st, t = AwaitExisting pid st ∨ t = AwaitDirect pid st ->
             is_Some (fetches w !! pid)) ->
  (∀ r pid, t ≠ Finished r (Some pid)) ->
  Coalescing w -> Coalescing (addTask w t).
Proof.
  intros Hown Hwait Hfin [Ha Hb Hc Hd He Hw Hf]. split; simpl.
  - done.
  - intros k pid H. destruct (Hb k pid H) as (i & st & Hi).
    exists i, st. by apply lookup_app_l_Some.
  - done.
  - intros i k pid st [H|[_ Ht]]%lookup_snoc_Some; [eauto|]. by destruct (Hown k pid st).
  - intros i j k pid pid' st st' [Hi|[_ Ht]]%lookup_snoc_Some;
      [|by destruct (Hown k pid st)].
    intros [Hj|[_ Ht]]%lookup_snoc_Some; [eauto|by destruct (Hown k pid' st')].
  - intros i pid st [[H|[_ Ht]]%lookup_snoc_Some|[H|[_ Ht]]%lookup_snoc_Some]; eauto.
  - intros i r pid [H|[_ Ht]]%lookup_snoc_Some; [eauto|]. by destruct (Hfin r pid).
Qed.

Lemma Coalescing_addFetch w call stale start :
  callKey call = None ->
  Coalescing w -> Coalescing (addFetch w call stale start).
Proof.
  intros Hkey [Ha Hb Hc Hd He Hw Hf]. split; simpl.
  - intros k pid H. destruct (Ha k pid H) as (f & Hf1 & Hf2).
    exists f. split; [by apply lookup_app_l_Some|done].
  - done.
  - intros pid f k [H|[_ <-]]%lookup_snoc_Some; [eauto|].
    unfold fetchKey. simpl. congruence.
  - done.
  - done.
  - intros i pid st H. destruct (Hw i pid st H) as [f Hf']. exists f.
    by apply lookup_app_l_Some.
  - intros i r pid H. destruct (Hf i r pid H) as (f & Hf1 & Hf2).
    exists f. split; [by apply lookup_app_l_Some|done].
Qed.

(** Replacing a task that is not an owner by one that is not an owner. *)
Lemma Coalescing_setTask w i t t0 :
  tasks w !! i = Some t0 ->
  (∀ k pid st, t0 ≠ AwaitOwn k pid st) ->
  (∀ k pid st, t ≠ AwaitOwn k pid st) ->
  (∀ pid st, t = AwaitExisting pid st ∨ t = AwaitDirect pid st ->
             is_Some (fetches w !! pid)) ->
  (∀ r pid, t = Finished r (Some pid) ->
            ∃ f, fetches w !! pid = Some f ∧ fetchResult f = Some (Ok r)) ->
  Coalescing w -> Coalescing (setTask w i t).
Proof.
  intros Hi Hold Hown Hwait Hfin [Ha Hb Hc Hd He Hw Hf].
  assert (Hlt : (i < length (tasks w))%nat) by by eapply lookup_lt_Some.
  assert (Hlook : ∀ j u, <[i:=t]> (tasks w) !! j = Some u ->
                         (j = i ∧ t = u) ∨ (j ≠ i ∧ tasks w !! j = Some u)).
  { intros j u H. destruct (decide (j = i)) as [->|Hne].
    - rewrite list_lookup_insert_eq in H by done. left. split; congruence.
    - rewrite list_lookup_insert_ne in H by done. by right. }
  split; simpl.
  - done.
  - intros k pid H. destruct (Hb k pid H) as (j & st & Hj). exists j, st.
    rewrite list_lookup_insert_ne; [done|]. intros ->.
    rewrite Hi in Hj. injection Hj as ->. by destruct (Hold k pid st).
  - done.
  - intros j k pid st [[_ Ht]|[_ H]]%Hlook; [by destruct (Hown k pid st)|eauto].
  - intros j j' k pid pid' st st' [[_ Ht]|[_ H]]%Hlook; [by destruct (Hown k pid st)|].
    intros [[_ Ht]|[_ H']]%Hlook; [by destruct (Hown k pid' st')|eauto].
  - intros j pid st [[[_ Ht]|[_ H]]%Hlook|[[_ Ht]|[_ H]]%Hlook]; eauto.
  - intros j r pid [[_ Ht]|[_ H]]%Hlook; eauto.
Qed.

Lemma callKey_producer c k : callKey (producer c k) = Some k.
Proof. by destruct c. Qed.

(** A miss with no promise registered for the key: the fetcher is called and
    its promise registered. *)
Lemma Coalescing_register w i c k stale start t0 :
  tasks w !! i = Some t0 ->
  (∀ k' pid st, t0 ≠ AwaitOwn k' pid st) ->
  inFlightRequests w !! k = None ->
  Coalescing w ->
  Coalescing (setTask (setInFlight (addFetch w (producer c k) stale start)
                                   (<[k := length (fetches w)]> (inFlightRequests w)))
                      i (AwaitOwn k (length (fetches w)) start)).
Proof.
  intros Hi Hold Hnone [Ha Hb Hc Hd He Hw Hf].
  assert (Hlt : (i < length (tasks w))%nat) by by eapply lookup_lt_Some.
  assert (Hlook : ∀ j u,
            <[i:=AwaitOwn k (length (fetches w)) start]> (tasks w) !! j = Some u ->
            (j = i ∧ AwaitOwn k (length (fetches w)) start = u)
            ∨ (j ≠ i ∧ tasks w !! j = Some u)).
  { intros j u H. destruct (decide (j = i)) as [->|Hne].
    - rewrite list_lookup_insert_eq in H by done. left. split; congruence.
    - rewrite list_lookup_insert_ne in H by done. by right. }
  split; simpl.
  - intros k' pid. destruct (decide (k = k')) as [<-|Hne].
    + rewrite lookup_insert_eq. intros [= <-].
      eexists. split; [apply list_lookup_middle; done|].
      unfold fetchKey. simpl. apply callKey_producer.
    + rewrite lookup_insert_ne by done. intros H.
      destruct (Ha k' pid H) as (f & Hf1 & Hf2).
      exists f. split; [by apply lookup_app_l_Some|done].
  - intros k' pid. destruct (decide (k = k')) as [<-|Hne].
    + rewrite lookup_insert_eq. intros [= <-].
      exists i, start. by apply list_lookup_insert_eq.
    + rewrite lookup_insert_ne by done. intros H.
      destruct (Hb k' pid H) as (j & st & Hj). exists j, st.
      rewrite list_lookup_insert_ne; [done|]. intros ->.
      rewrite Hi in Hj. injection Hj as ->. by destruct (Hold k' pid st).
  - intros pid f k' [H|[-> <-]]%lookup_snoc_Some Hk Hres.
    + destruct (decide (k = k')) as [<-|Hne].
      * specialize (Hc pid f k H Hk Hres). congruence.
      * rewrite lookup_insert_ne by done. eauto.
    + unfold fetchKey in Hk. simpl in Hk. rewrite callKey_producer in Hk.
      injection Hk as <-. by rewrite lookup_insert_eq.
  - intros j k' pid st [[_ [= <- <- <-]]|[_ H]]%Hlook.
    + by rewrite lookup_insert_eq.
    + destruct (decide (k = k')) as [<-|Hne].
      * specialize (Hd j k pid st H). congruence.
      * rewrite lookup_insert_ne by done. eauto.
  - intros j j' k' pid pid' st st' [[-> [= <- <- <-]]|[Hj H]]%Hlook
      [[-> Ht]|[Hj' H']]%Hlook.
    + done.
    + specialize (Hd j' k pid' st' H'). congruence.
    + injection Ht as <- <- <-. specialize (Hd j k pid st H). congruence.
    + eauto.
  - intros j pid st [[[_ Ht]|[_ H]]%Hlook|[[_ Ht]|[_ H]]%Hlook]; try done.
    + destruct (Hw j pid st (or_introl H)) as [f Hf']. exists f.
      by apply lookup_app_l_Some.
    + destruct (Hw j pid st (or_intror H)) as [f Hf']. exists f.
      by apply lookup_app_l_Some.
  - intros j r pid [[_ Ht]|[_ H]]%Hlook; [done|].
    destruct (Hf j r pid H) as (f & Hf1 & Hf2).
    exists f. split; [by apply lookup_app_l_Some|done].
Qed.

(** The origin call of a fetch comes back. *)
Lemma Coalescing_settle w pid f r puts :
  fetches w !! pid = Some f ->
  fetchResult f = None ->
  Coalescing w ->
  Coalescing {| inFlightRequests := inFlightRequests w;
                fetches := <[pid := {| fetchCall := fetchCall f;
                                       fetchStale := fetchStale f;
                                       fetchStart := fetchStart f;
                                       fetchResult := Some r |}]> (fetches w);
                tasks := tasks w;
                CACHE := CACHE w;
                scheduled := scheduled w ++ puts |}.
Proof.
  intros Hpid Hres [Ha Hb Hc Hd He Hw Hf].
  assert (Hlt : (pid < length (fetches w))%nat) by by eapply lookup_lt_Some.
  split; simpl.
  - intros k pid' H. destruct (Ha k pid' H) as (f' & Hf1 & Hf2).
    destruct (decide (pid' = pid)) as [->|Hne].
    + rewrite list_lookup_insert_eq by done. eexists. split; [done|].
      rewrite Hpid in Hf1. injection Hf1 as ->. done.
    + rewrite list_lookup_insert_ne by done. eauto.
  - done.
  - intros pid' f' k H Hk Hres'. destruct (decide (pid' = pid)) as [->|Hne].
    + rewrite list_lookup_insert_eq in H by done. injection H as <-. done.
    + rewrite list_lookup_insert_ne in H by done. eauto.
  - done.
  - done.
  - intros i pid' st H. apply lookup_lt_is_Some. rewrite length_insert.
    apply lookup_lt_is_Some. eauto.
  - intros i r' pid' H. destruct (Hf i r' pid' H) as (f' & Hf1 & Hf2).
    destruct (decide (pid' = pid)) as [->|Hne].
    + rewrite Hpid in Hf1. injection Hf1 as ->. congruence.
    + rewrite list_lookup_insert_ne by done. eauto.
Qed.

(** The caller of the fetcher comes back from its await; [finally] removes
    the entry. *)
Lemma Coalescing_resume_owner w i k pid st result r from :
  tasks w !! i = Some (AwaitOwn k pid st) ->
  fetches w !! pid ≫= fetchResult = Some result ->
  (from = None ∨ (from = Some pid ∧ result = Ok r)) ->
  Coalescing w ->
  Coalescing (setTask (setInFlight w (delete k (inFlightRequests w)))
                      i (Finished r from)).
Proof.
  intros Hi Hr Hfrom [Ha Hb Hc Hd He Hw Hf].
  assert (Hlt : (i < length (tasks w))%nat) by by eapply lookup_lt_Some.
  assert (Hlook : ∀ j u, <[i:=Finished r from]> (tasks w) !! j = Some u ->
            (j = i ∧ Finished r from = u) ∨ (j ≠ i ∧ tasks w !! j = Some u)).
  { intros j u H. destruct (decide (j = i)) as [->|Hne].
    - rewrite list_lookup_insert_eq in H by done. left. split; congruence.
    - rewrite list_lookup_insert_ne in H by done. by right. }
  destruct (fetches w !! pid) as [f|] eqn:Hpid; [simpl in Hr|done].
  split; simpl.
  - intros k' pid' [Hne H]%lookup_delete_Some. eauto.
  - intros k' pid' [Hne H]%lookup_delete_Some.
    destruct (Hb k' pid' H) as (j & st' & Hj). exists j, st'.
    rewrite list_lookup_insert_ne; [done|]. intros ->.
    rewrite Hi in Hj. congruence.
  - intros pid' f' k' H Hk Hres.
    specialize (Hc pid' f' k' H Hk Hres).
    apply lookup_delete_Some. split; [|done]. intros <-.
    specialize (Hd i k pid st Hi). rewrite Hd in Hc. injection Hc as <-.
    congruence.
  - intros j k' pid' st' [[_ Ht]|[Hj H]]%Hlook; [done|].
    apply lookup_delete_Some. split; [|eauto]. intros <-.
    apply Hj. by eapply He.
  - intros j j' k' pid' pid'' st' st'' [[_ Ht]|[_ H]]%Hlook; [done|].
    intros [[_ Ht]|[_ H']]%Hlook; [done|eauto].
  - intros j pid' st' [[[_ Ht]|[_ H]]%Hlook|[[_ Ht]|[_ H]]%Hlook]; try done; eauto.
  - intros j r' pid' [[_ Ht]|[_ H]]%Hlook; [|eauto].
    destruct Hfrom as [->|[-> ->]]; [done|]. injection Ht as <- <-. eauto.
Qed.

Lemma Coalescing_cache w cache sched :
  Coalescing w ->
  Coalescing {| inFlightRequests := inFlightRequests w; fetches := fetches w;
                tasks := tasks w; CACHE := cache; scheduled := sched |}.
Proof. intros [Ha Hb Hc Hd He Hw Hf]. by split. Qed.

Lemma Coalescing_joinOrFetch w i c k start cached :
  tasks w !! i = Some (AwaitCache c k start) ->
  Coalescing w -> Coalescing (joinOrFetch w i c k start cached).
Proof.
  intros Hi HC. unfold joinOrFetch.
  destruct (inFlightRequests w !! k) as [pid|] eqn:Hk.
  - eapply Coalescing_setTask; try done.
    + intros pid' st [[= <- <-]|?]; [|done].
      destruct (registered_fetch w HC k pid Hk) as (f & -> & _). done.
  - refine (Coalescing_register w i c k cached start _ Hi _ Hk HC). done.
Qed.

(** Every transition keeps the bookkeeping. *)
Lemma Coalescing_exec w ev w' :
  exec P w ev = Some w' -> Coalescing w -> Coalescing w'.
Proof.
  intros Hexec HC.
  destruct ev as [req st now|i failure now|pid outcome now|i now|n now];
    simpl in Hexec.
  - destruct (fetch P req st now) as [r|c k|call] eqn:Hfetch; simplify_eq.
    + apply Coalescing_addTask; [done| |done|done]. intros ?? [?|?]; discriminate.
    + apply Coalescing_addTask; [done| |done|done]. intros ?? [?|?]; discriminate.
    + apply Coalescing_addTask; [done| |done|].
      * intros pid st' [[= <- <-]|[= <- <-]]; simpl.
        apply lookup_lt_is_Some. rewrite length_app. simpl. lia.
      * apply Coalescing_addFetch; [|done]. by eapply fetch_CallOrigin.
  - destruct (tasks w !! i) as [[c k st| | | |]|] eqn:Hi; simplify_eq.
    unfold afterCacheRead.
    destruct (getCachedResponse _) as [cached|].
    + destruct (negb (isStale now cached)).
      * refine (Coalescing_setTask w i _ _ Hi _ _ _ _ HC); [done|done| |done].
        intros ?? [?|?]; discriminate.
      * by apply Coalescing_joinOrFetch.
    + by apply Coalescing_joinOrFetch.
  - destruct (fetches w !! pid) as [f|] eqn:Hpid; [|done].
    unfold outstanding in Hexec.
    destruct (fetchResult f) eqn:Hres; [done|].
    destruct (settle f outcome now) as [r puts]. simplify_eq.
    by apply Coalescing_settle.
  - destruct (tasks w !! i) as [[| pid st | k pid st | pid st |]|] eqn:Hi; try done;
      destruct (fetches w !! pid ≫= fetchResult) as [[r|error]|] eqn:Hr; simplify_eq.
    + refine (Coalescing_setTask w i _ _ Hi _ _ _ _ HC); [done|done| |].
      * intros ?? [?|?]; discriminate.
      * intros r' pid' [= <- <-].
        destruct (fetches w !! pid) as [f|]; [|done]. eauto.
    + refine (Coalescing_setTask w i _ _ Hi _ _ _ _ HC); [done|done| |done].
      intros ?? [?|?]; discriminate.
    + eapply Coalescing_resume_owner; [done|done| |done]. by right.
    + eapply Coalescing_resume_owner; [done|done| |done]. by left.
    + refine (Coalescing_setTask w i _ _ Hi _ _ _ _ HC); [done|done| |].
      * intros ?? [?|?]; discriminate.
      * intros r' pid' [= <- <-].
        destruct (fetches w !! pid) as [f|]; [|done]. eauto.
    + refine (Coalescing_setTask w i _ _ Hi _ _ _ _ HC); [done|done| |done].
      intros ?? [?|?]; discriminate.
  - destruct (scheduled w !! n); simplify_eq. by apply Coalescing_cache.
Qed.

Lemma Coalescing_reachable w : reachable P w -> Coalescing w.
Proof.
  induction 1 as [cache|w w' _ IH [ev Hexec]].
  - apply Coalescing_initial.
  - by eapply Coalescing_exec.
Qed.

End CoalescingSteps.

Lemma run_reachable (P : Platform) evs : ∀ w w',
  reachable P w -> run P w evs = Some w' -> reachable P w'.
Proof.
  induction evs as [|ev evs IH]; simpl; intros w w' Hw Hrun.
  - by simplify_eq.
  - destruct (exec P w ev) as [w1|] eqn:Hexec; [|done].
    apply (IH w1 w'); [|done]. eapply reach_step; [done|]. by exists ev.
Qed.







(* ===================================================================== *)
(** ** Response headers                                                   *)
(* ===================================================================== *)

Lemma createSuccessResponse_kind data cacheStatus startTime etag now r :
  createSuccessResponse data cacheStatus startTime etag now = Ok r -> ResponseKind r.
Proof.
  intros (? & ? & ? & ? & ?)%createSuccessResponse_Ok.
  by apply (IsSuccess _ cacheStatus).
Qed.

Lemma successResponse_kind data cacheStatus startTime etagHeaders now :
  ResponseKind (successResponse data cacheStatus startTime etagHeaders now).
Proof.
  apply (IsSuccess _ cacheStatus); [done|done|by eexists|by repeat split].
Qed.

Lemma createErrorResponse_kind message code startTime now :
  code ∈ [400; 405; 500; 503]%Z ->
  ResponseKind (createErrorResponse message code startTime now).
Proof.
  intros Hcode. apply IsError; [done|done|by eexists|by repeat split].
Qed.

Lemma fetch_Respond_kind (P : Platform) req startTime now r :
  fetch P req startTime now = Respond r -> ResponseKind r.
Proof.
  assert (H400 : ∀ m, ResponseKind (createErrorResponse m 400 startTime now)).
  { intros m. apply createErrorResponse_kind. set_solver. }
  assert (H405 : ∀ m, ResponseKind (createErrorResponse m 405 startTime now)).
  { intros m. apply createErrorResponse_kind. set_solver. }
  assert (H500 : ∀ m, ResponseKind (createErrorResponse m 500 startTime now)).
  { intros m. apply createErrorResponse_kind. set_solver. }
  unfold fetch, handleProductRecommendation, handleCartRecommendation,
    handleStorefrontRequest, handleUpsellRequest, handleThinkRecommendations.
  intros H. repeat case_match; simplify_eq; try done.
  - by apply IsNotFound.
  - apply IsPreflight; [done..|by repeat split].
Qed.

Lemma settle_kind (f : OriginFetch) outcome now r :
  (settle f outcome now).1 = Ok r -> ResponseKind r.
Proof.
  destruct (noPayload_cases outcome) as [Hno|(code & h & payload & -> & Hok)].
  - rewrite (settle_noPayload f outcome now Hno). simpl.
    destruct (fetchStale f) as [stale|].
    + apply createSuccessResponse_kind.
    + intros [= <-]. apply createErrorResponse_kind. set_solver.
  - destruct (settle_success f code h payload now Hok) as [fs ->].
    intros [= <-]. apply successResponse_kind.
Qed.

Lemma orInternalError_kind (result : Result Response) startTime now :
  (∀ r, result = Ok r -> ResponseKind r) ->
  ResponseKind (orInternalError result startTime now).
Proof.
  intros H. destruct result as [r|error]; simpl; [by apply H|].
  apply createErrorResponse_kind. set_solver.
Qed.

Section ResponseSteps.
Context (P : Platform).

Lemma responsesInv_exec w ev w' :
  exec P w ev = Some w' -> responsesInv w -> responsesInv w'.
Proof.
  intros Hexec [Ht Hf].
  assert (Hset : ∀ i t,
    (∀ r from, t = Finished r from -> ResponseKind r) ->
    ∀ j r from, <[i:=t]> (tasks w) !! j = Some (Finished r from) -> ResponseKind r).
  { intros i t Hnew j r from H. destruct (decide (j = i)) as [->|Hne].
    - destruct (decide (i < length (tasks w))%nat).
      + rewrite list_lookup_insert_eq in H by done. injection H as ->. eauto.
      + rewrite list_insert_ge in H by lia. eauto.
    - rewrite list_lookup_insert_ne in H by done. eauto. }
  assert (Hadd : ∀ t,
    (∀ r from, t = Finished r from -> ResponseKind r) ->
    ∀ j r from, (tasks w ++ [t]) !! j = Some (Finished r from) -> ResponseKind r).
  { intros t Hnew j r from [H|[_ H]]%lookup_snoc_Some; eauto. }
  assert (Hfadd : ∀ call stale st pid f r,
    (fetches w ++ [ {| fetchCall := call; fetchStale := stale; fetchStart := st;
                       fetchResult := None |} ]) !! pid = Some f ->
    fetchResult f = Some (Ok r) -> ResponseKind r).
  { intros call stale st pid f r [H|[_ <-]]%lookup_snoc_Some; [eauto|done]. }
  assert (H500 : ∀ error st now,
    ResponseKind (orInternalError (Threw error) st now)).
  { intros error st now. by apply orInternalError_kind. }
  destruct ev as [req st now|i failure now|pid outcome now|i now|n now];
    simpl in Hexec.
  - destruct (fetch P req st now) as [r|c k|call] eqn:Hfetch; simplify_eq;
      (split; simpl; [apply Hadd|by eauto]); intros r' from [= <- <-] || done.
    by eapply fetch_Respond_kind.
  - destruct (tasks w !! i) as [[c k st| | | |]|] eqn:Hi; simplify_eq.
    unfold afterCacheRead, joinOrFetch.
    repeat case_match; simpl; (split; simpl; [apply Hset|by eauto]);
      intros r' from [= <- <-] || done.
    apply orInternalError_kind. apply createSuccessResponse_kind.
  - destruct (fetches w !! pid) as [f|] eqn:Hpid; [|done].
    destruct (outstanding f); [|done].
    pose proof (settle_kind f outcome now) as Hkind.
    destruct (settle f outcome now) as [result puts]. simplify_eq.
    split; simpl; [done|].
    intros pid' f' r' H Hres. destruct (decide (pid' = pid)) as [->|Hne].
    + rewrite list_lookup_insert_eq in H by by eapply lookup_lt_Some.
      injection H as <-. simpl in Hres. injection Hres as ->. by apply Hkind.
    + rewrite list_lookup_insert_ne in H by done. eauto.
  - destruct (tasks w !! i) as [[| pid st | k pid st | pid st |]|] eqn:Hi; try done;
      destruct (fetches w !! pid) as [f|] eqn:Hpid; try done; simpl in Hexec;
      destruct (fetchResult f) as [[r|error]|] eqn:Hr; simplify_eq;
      (split; simpl; [apply Hset|done]); intros r' from [= <- <-]; eauto;
      apply (H500 error st now).
  - destruct (scheduled w !! n); simplify_eq. by split.
Qed.

Lemma responsesInv_reachable w : reachable P w -> responsesInv w.
Proof.
  induction 1 as [cache|w w' _ IH [ev Hexec]].
  - split; simpl; intros; done.
  - by eapply responsesInv_exec.
Qed.
End ResponseSteps.

(** C6 as the code has it.  Every response a handler returns is of one of four
    kinds: a success (200) with [X-Cache] in HIT / MISS / STALE / BYPASS, a
    response time and the CORS headers; an error (400, 405, 500, 503) with a
    response time and the CORS headers and no [X-Cache]; the 404 for an unknown
    path with none of these headers; the answer to OPTIONS with the CORS
    headers only. *)
Theorem every_response_kind
    (P : Platform) (w : Worker) (i : nat) (r : Response) (from : option nat) :
  reachable P w ->
  tasks w !! i = Some (Finished r from) ->
  ResponseKind r.
Proof.
  intros Hreach Hi. by eapply (proj1 (responsesInv_reachable P w Hreach)).
Qed.

(** C6 as stated fails: the 405 answer has no cache-status header. *)
Lemma error_response_counterexample :
  exec Sample.platform (initial ∅) (Arrive Sample.wrongMethod 0 3)
  = Some (addTask (initial ∅)
            (Finished (createErrorResponse "Method not allowed" 405 0 3) None))
  ∧ header "X-Cache" (createErrorResponse "Method not allowed" 405 0 3) = None.
Proof. split; reflexivity. Qed.

Lemma every_response_kind_witness :
  ResponseKind (createErrorResponse "Method not allowed" 405 0 3).
Proof.
  apply (every_response_kind Sample.platform
           (addTask (initial ∅)
              (Finished (createErrorResponse "Method not allowed" 405 0 3) None))
           0 _ None).
  - apply (reach_step Sample.platform (initial ∅)); [apply reach_initial|].
    exists (Arrive Sample.wrongMethod 0 3). reflexivity.
  - reflexivity.
Defined.

(* ===================================================================== *)
(** ** Storefront actions                                                 *)
(* ===================================================================== *)

(** C4 as the code has it.  A storefront request whose [actionType] is truthy
    (a non-empty string) calls the fetcher directly with no key and no stale
    entry: the handler does not read the cache, the in-flight map, the store
    and the scheduled writes are the same after each of its steps, the fetcher
    schedules no write, and a successful answer is tagged BYPASS. *)
Theorem action_request_bypasses_cache
    (P : Platform) (req : Request) (parsed : Json) (startTime t0 : Z) (w : Worker) :
  let pid := length (fetches w) in
  let i := length (tasks w) in
  let f := {| fetchCall := CallStorefront parsed None; fetchStale := None;
              fetchStart := startTime; fetchResult := None |} in
  method req = "POST" ->
  Str.includes "/api/v2/recommendation/product" (pathname req) = false ->
  Str.includes "/api/v2/recommendation/cart" (pathname req) = false ->
  Str.includes "/api/storefront" (pathname req) = true ->
  parseStorefrontRequestBody req = Some parsed ->
  JS.truthy (JS.prop parsed "actionType") = true ->
  exec P w (Arrive req startTime t0)
  = Some {| inFlightRequests := inFlightRequests w;
            fetches := fetches w ++ [f];
            tasks := tasks w ++ [AwaitDirect pid startTime];
            CACHE := CACHE w;
            scheduled := scheduled w |}
  ∧ (∀ outcome now, (settle f outcome now).2 = [])
  ∧ (∀ code etagHeader payload now,
       responseOk code = true ->
       ∃ r, (settle f (Resolved code etagHeader (Ok payload)) now).1 = Ok r
            ∧ status r = 200%Z
            ∧ header "X-Cache" r = Some "BYPASS"
            ∧ body r = Some (JSON.stringify payload))
  ∧ (∀ w' outcome now,
       fetches w' !! pid = Some f ->
       ∃ w'', exec P w' (OriginSettles pid outcome now) = Some w''
              ∧ inFlightRequests w'' = inFlightRequests w'
              ∧ CACHE w'' = CACHE w'
              ∧ scheduled w'' = scheduled w'
              ∧ fetches w'' !! pid ≫= fetchResult = Some (settle f outcome now).1)
  ∧ (∀ w' result now,
       tasks w' !! i = Some (AwaitDirect pid startTime) ->
       fetches w' !! pid ≫= fetchResult = Some result ->
       ∃ w'', exec P w' (Resume i now) = Some w''
              ∧ inFlightRequests w'' = inFlightRequests w'
              ∧ CACHE w'' = CACHE w'
              ∧ scheduled w'' = scheduled w'
              ∧ tasks w'' !! i
                = Some match result with
                       | Ok r => Finished r (Some pid)
                       | Threw error =>
                           Finished (orInternalError (Threw error) startTime now) None
                       end).
Proof.
  intros pid i f Hmethod Hproduct Hcart Hstore Hparse Haction.
  assert (Hputs : ∀ outcome now, (settle f outcome now).2 = []).
  { intros outcome now. unfold settle, fetchStorefrontFromOrigin. simpl.
    destruct (afterFetch _ _ _ _ _ _ _ _).2 as [|p ps] eqn:E; [done|].
    assert (p ∈ (afterFetch "Origin timeout (15s)" 300 BYPASS None None startTime
                   outcome now).2) as [? _]%afterFetch_puts; [|done].
    rewrite E. left. }
  split; [|split; [done|split; [|split]]].
  - unfold exec, fetch, handleStorefrontRequest.
    rewrite Hproduct, Hcart, Hstore, Hmethod, Hparse, Haction. done.
  - intros code etagHeader payload now Hok.
    unfold settle, fetchStorefrontFromOrigin. cbn [fetchCall fetchStale fetchStart f].
    rewrite afterFetch_success by done. eexists. split; [done|]. done.
  - intros w' outcome now Hpid.
    assert (Hlt : (pid < length (fetches w'))%nat) by by eapply lookup_lt_Some.
    cbn [exec]. rewrite Hpid. cbn [outstanding fetchResult f].
    pose proof (Hputs outcome now) as Hp.
    destruct (settle f outcome now) as [r puts]. simpl in Hp. subst puts.
    eexists. split; [done|]. simpl. rewrite app_nil_r.
    repeat split. by rewrite list_lookup_insert_eq.
  - intros w' result now Htask Hr.
    assert (Hlt : (i < length (tasks w'))%nat) by by eapply lookup_lt_Some.
    cbn [exec]. rewrite Htask, Hr.
    destruct result as [r|error]; (eexists; split; [done|]); simpl;
      repeat split; by apply list_lookup_insert_eq.
Qed.

Lemma action_request_bypasses_cache_witness :
  exec Sample.platform (initial Sample.storefrontStore)
       (Arrive (Sample.storefrontRequest Sample.actionBody) 2000 2000)
  = Some {| inFlightRequests := ∅;
            fetches := [ {| fetchCall := CallStorefront Sample.actionBody None;
                            fetchStale := None; fetchStart := 2000;
                            fetchResult := None |} ];
            tasks := [ AwaitDirect 0 2000 ];
            CACHE := Sample.storefrontStore;
            scheduled := [] |}.
Proof.
  refine (proj1 (action_request_bypasses_cache Sample.platform
                   (Sample.storefrontRequest Sample.actionBody) Sample.actionBody
                   2000 2000 (initial Sample.storefrontStore) _ _ _ _ _ _));
    reflexivity.
Defined.

(** C4 as stated fails for a body whose [actionType] is present and empty: the
    handler reads the cache, registers a promise in the in-flight map, the
    fetcher schedules a write, and the answer is tagged MISS. *)
Lemma empty_actionType_counterexample :
  JS.prop Sample.emptyActionBody "actionType" = Some (JStr EmptyString)
  ∧ (∃ key, exec Sample.platform (initial ∅)
              (Arrive (Sample.storefrontRequest Sample.emptyActionBody) 0 0)
            = Some (addTask (initial ∅)
                      (AwaitCache (StorefrontRequest Sample.emptyActionBody) key 0)))
  ∧ (size ∘ inFlightRequests
       <$> run Sample.platform (initial ∅) (take 2 Sample.emptyActionRun)) = Some 1%nat
  ∧ (length ∘ scheduled
       <$> run Sample.platform (initial ∅) Sample.emptyActionRun) = Some 1%nat
  ∧ (run Sample.platform (initial ∅) Sample.emptyActionRun
       ≫= fun w => tasks w !! 0%nat
       ≫= fun t => match t with
                   | Finished r _ => header "X-Cache" r
                   | _ => None
                   end) = Some "MISS".
Proof.
  split; [reflexivity|]. split; [eexists; reflexivity|].
  split; [|split]; vm_compute; reflexivity.
Qed.

(* ===================================================================== *)
(** ** The worker's test suite, run on the model                          *)
(* ===================================================================== *)

(** should reject non-GET requests for product endpoint *)
Example suite_rejects_post :
  Suite.response ∅ [ Arrive Sample.wrongMethod Suite.now Suite.now ]
  = Some (createErrorResponse "Method not allowed" 405 Suite.now Suite.now).
Proof. reflexivity. Qed.

(** should reject requests with missing required fields *)
Example suite_rejects_missing_fields :
  status <$> Suite.response ∅ [ Arrive Suite.missingFields Suite.now Suite.now ]
  = Some 400%Z.
Proof. reflexivity. Qed.

(** should accept valid requests *)
Example suite_accepts_valid :
  (fun r => (status r, header "X-Cache" r))
    <$> Suite.response ∅
          [ Arrive Suite.valid Suite.now Suite.now; CacheRead 0 None Suite.now;
            OriginSettles 0 (Resolved 200 None (Ok (Suite.products "fresh-product")))
                          Suite.now;
            Resume 0 Suite.now ]
  = Some (200%Z, Some "MISS").
Proof. vm_compute. reflexivity. Qed.

(** should return cached response when available *)
Example suite_returns_cached :
  (fun r => (status r, header "X-Cache" r, body r))
    <$> Suite.response
          (Suite.store {| data := Suite.products "cached-product";
                          timestamp := Suite.now - 1000; etag := None |})
          [ Arrive Suite.valid Suite.now Suite.now; CacheRead 0 None Suite.now ]
  = Some (200%Z, Some "HIT", Some (JSON.stringify (Suite.products "cached-product"))).
Proof. vm_compute. reflexivity. Qed.

(** should fetch from origin when cache is stale *)
Example suite_refetches_stale :
  (fun w => (length (scheduled w),
             tasks w !! 0%nat ≫= fun t => match t with
                                          | Finished r _ => header "X-Cache" r
                                          | _ => None
                                          end))
    <$> run Sample.platform
          (initial (Suite.store {| data := Suite.products "stale-product";
                                   timestamp := Suite.now - 3700000; etag := None |}))
          [ Arrive Suite.valid Suite.now Suite.now; CacheRead 0 None Suite.now;
            OriginSettles 0 (Resolved 200 None (Ok (Suite.products "fresh-product")))
                          Suite.now;
            Resume 0 Suite.now ]
  = Some (1%nat, Some "MISS").
Proof. vm_compute. reflexivity. Qed.

(** should serve stale cache when origin fails *)
Example suite_serves_stale :
  (fun r => (status r, header "X-Cache" r, body r))
    <$> Suite.response
          (Suite.store {| data := Suite.products "stale-product";
                          timestamp := Suite.now - 3700000;
                          etag := Some "stale-etag" |})
          [ Arrive Suite.valid Suite.now Suite.now; CacheRead 0 None Suite.now;
            OriginSettles 0 (Rejected (newError "Origin timeout")) Suite.now;
            Resume 0 Suite.now ]
  = Some (200%Z, Some "STALE", Some (JSON.stringify (Suite.products "stale-product"))).
Proof. vm_compute. reflexivity. Qed.

(** should generate consistent cache keys for identical requests *)
Example suite_consistent_keys :
  Suite.cachedKey (Suite.withExclude "3,2,1") = Suite.cachedKey (Suite.withExclude "1,2,3")
  ∧ is_Some (Suite.cachedKey (Suite.withExclude "3,2,1")).
Proof. split; [reflexivity|by eexists]. Qed.

(* ===================================================================== *)
(** ** Further properties of the worker                                   *)
(* ===================================================================== *)

(** *** Key namespaces *)

(** X1.  The keys of the five generators never meet: whatever the digest and
    the requests, a key of one endpoint differs from a key of every other one,
    so requests of different endpoints never share a store entry or a promise
    of the in-flight map. *)
Theorem keys_of_different_endpoints_differ
    (P : Platform) (product : ProductRequestBody) (cart storefront upsell : Json)
    (shop productHandle : string) (cartKey storefrontKey upsellKey : string) :
  generateCartCacheKey P cart = Ok cartKey ->
  generateStorefrontCacheKey P storefront = Ok storefrontKey ->
  generateUpsellCacheKey P upsell = Ok upsellKey ->
  NoDup [ generateProductCacheKey P product; cartKey; storefrontKey; upsellKey;
          generateRecommendationsCacheKey P shop productHandle ].
Proof.
  unfold generateCartCacheKey, generateStorefrontCacheKey, generateUpsellCacheKey,
    generateProductCacheKey, generateRecommendationsCacheKey.
  intros Hc Hs Hu.
  destruct (cartKeyData cart); [|done].
  destruct (storefrontKeyData P storefront); [|done].
  destruct (upsellKeyItems P upsell); [|done].
  injection Hc as <-. injection Hs as <-. injection Hu as <-.
  repeat (apply NoDup_cons; split;
          [rewrite ?elem_of_cons, elem_of_nil; unfold String.app; simpl;
           intros H; repeat destruct H as [H|H]; discriminate || done|]).
  apply NoDup_nil_2.
Qed.

Lemma keys_of_different_endpoints_differ_witness :
  ∃ cartKey storefrontKey upsellKey,
    NoDup [ generateProductCacheKey Sample.platform Sample.parsedProduct;
            cartKey; storefrontKey; upsellKey;
            generateRecommendationsCacheKey Sample.platform "s.myshopify.com" "mug" ].
Proof.
  eexists _, _, _.
  apply (keys_of_different_endpoints_differ Sample.platform Sample.parsedProduct
           Sample.cartBody Sample.storefrontBodyA More.upsellBody
           "s.myshopify.com" "mug"); reflexivity.
Defined.

(** *** Strings: further lemmas *)

Lemma app_cons a (s t : string) : String a s +:+ t = String a (s +:+ t).
Proof. reflexivity. Qed.

Lemma app_empty (t : string) : EmptyString +:+ t = t.
Proof. reflexivity. Qed.

Lemma startsWith_app (p s : string) : Str.startsWith p (p +:+ s) = true.
Proof.
  induction p as [|a p IH]; [done|].
  rewrite app_cons. simpl. by rewrite Ascii.eqb_refl.
Qed.

Lemma includes_startsWith (needle s : string) :
  Str.startsWith needle s = true -> Str.includes needle s = true.
Proof. intros H. destruct s; simpl; by rewrite H. Qed.

Lemma includes_app (needle before after : string) :
  Str.includes needle (before +:+ needle +:+ after) = true.
Proof.
  induction before as [|a before IH].
  - rewrite app_empty. apply includes_startsWith, startsWith_app.
  - rewrite app_cons. cbn [Str.includes]. rewrite IH. by destruct (Str.startsWith _ _).
Qed.

(** *** The fetchers when the origin answers *)

Lemma settle_fetchFor c key stale start outcome now :
  Str.isEmpty key = false ->
  writesBack c = true ->
  settle (fetchFor c key stale start) outcome now
  = afterFetch (timeoutMessage (producer c key)) (hardTtl (endpointOf c)) MISS (Some key)
               stale start outcome now.
Proof.
  intros Hkey Hw. destruct c; try done.
  unfold settle, fetchFor, fetchStorefrontFromOrigin. simpl in *. by rewrite Hkey, Hw.
Qed.

(** X2.  Write-back and read-back.  When the origin answers a cacheable request
    with a 2xx status and a JSON body, the fetcher schedules exactly one write,
    under the request's key, with the endpoint's TTL.  Once that write has
    landed, a request with the same key that reads the store before the TTL is
    over and within one hour of the fetch is answered HIT with the body and the
    ETag of the MISS response, and calls no fetcher.  (A key is never empty:
    it begins with the prefix of its endpoint.) *)
Theorem miss_then_hit
    (P : Platform) (c c' : Cacheable) (key : string) (stale : option CachedResponse)
    (start : Z) (code : Z) (etagHeader : option HeaderValue) (payload : Json)
    (fetched : Z) :
  Str.isEmpty key = false ->
  writesBack c = true ->
  responseOk code = true ->
  ∃ miss p,
    settle (fetchFor c key stale start) (Resolved code etagHeader (Ok payload)) fetched
    = (Ok miss, [p])
    ∧ header "X-Cache" miss = Some "MISS"
    ∧ putKey p = key
    ∧ expirationTtl p = hardTtl (endpointOf c)
    ∧ ∀ (w : Worker) (cache : gmap string KvEntry) (i : nat) (landed start' now : Z),
        CACHE w = kvPut cache p landed ->
        tasks w !! i = Some (AwaitCache c' key start') ->
        (now < landed + hardTtl (endpointOf c) * 1000)%Z ->
        (now - fetched ≤ 60 * 60 * 1000)%Z ->
        ∃ hit, exec P w (CacheRead i None now) = Some (setTask w i (Finished hit None))
               ∧ status hit = 200%Z
               ∧ header "X-Cache" hit = Some "HIT"
               ∧ body hit = body miss
               ∧ header "ETag" hit = header "ETag" miss.
Proof.
  intros Hkey Hw Hok.
  rewrite (settle_fetchFor _ _ _ _ _ _ Hkey Hw),
    (afterFetch_success _ _ _ _ _ _ _ _ _ _ Hok).
  eexists _, _. split; [done|]. split; [done|]. split; [done|]. split; [done|].
  intros w cache i landed start' now Hcache Htask Hlive Hage.
  eexists. split.
  - cbn [exec]. rewrite Htask, Hcache. unfold cacheGet, kvGet, kvPut.
    cbn [putKey putValue expirationTtl]. rewrite lookup_insert_eq.
    cbn [kvExpires kvValue]. apply Z.ltb_lt in Hlive. rewrite Hlive.
    cbn [getCachedResponse]. unfold afterCacheRead.
    rewrite (proj2 (isStale_false now _)) by done. cbn [negb data etag].
    rewrite createSuccessResponse_fresh. done.
  - done.
Qed.

Lemma miss_then_hit_witness :
  ∃ miss p,
    settle (fetchFor (ProductRequest Sample.parsedProduct)
                     (generateProductCacheKey Sample.platform Sample.parsedProduct)
                     None 1000)
           (Resolved 200 (Some More.originTag) (Ok Sample.payload)) 1200
    = (Ok miss, [p])
    ∧ header "X-Cache" miss = Some "MISS"
    ∧ putKey p = generateProductCacheKey Sample.platform Sample.parsedProduct
    ∧ expirationTtl p = 3600%Z
    ∧ ∀ (w : Worker) (cache : gmap string KvEntry) (i : nat) (landed start' now : Z),
        CACHE w = kvPut cache p landed ->
        tasks w !! i
        = Some (AwaitCache (ProductRequest Sample.parsedProduct)
                  (generateProductCacheKey Sample.platform Sample.parsedProduct)
                  start') ->
        (now < landed + 3600 * 1000)%Z ->
        (now - 1200 ≤ 60 * 60 * 1000)%Z ->
        ∃ hit, exec Sample.platform w (CacheRead i None now)
               = Some (setTask w i (Finished hit None))
               ∧ status hit = 200%Z
               ∧ header "X-Cache" hit = Some "HIT"
               ∧ body hit = body miss
               ∧ header "ETag" hit = header "ETag" miss.
Proof.
  apply (miss_then_hit Sample.platform (ProductRequest Sample.parsedProduct)
           (ProductRequest Sample.parsedProduct)
           (generateProductCacheKey Sample.platform Sample.parsedProduct)
           None 1000 200 (Some More.originTag) Sample.payload 1200); reflexivity.
Defined.

Lemma afterFetch_put_value tm ttl fs wk stale start outcome now p :
  p ∈ (afterFetch tm ttl fs wk stale start outcome now).2 ->
  timestamp (putValue p) = now.
Proof.
  destruct (noPayload_cases outcome) as [Hno|(code & h & payload & -> & Hok)].
  - rewrite afterFetch_noPayload by done. simpl. intros H. by apply elem_of_nil in H.
  - rewrite afterFetch_success by done. simpl. destruct wk as [k|].
    + intros ->%list_elem_of_singleton. done.
    + intros H. by apply elem_of_nil in H.
Qed.

(** X3.  An entry is stale after one hour, and the store drops it when its TTL
    (at most one hour) is over.  So the store can hand a handler a stale entry
    written by a fetcher only if the write landed more than [1 h - TTL] after
    the fetch: any delay for product and cart, but more than 55 minutes for
    storefront, 30 for upsell and 50 for handle recommendations. *)
Theorem stale_entry_needs_late_write
    (c : Cacheable) (key : string) (stale : option CachedResponse) (start : Z)
    (outcome : FetchOutcome) (fetched landed now : Z)
    (p : KvPut) (cache : gmap string KvEntry) (cached : CachedResponse) :
  p ∈ (settle (fetchFor c key stale start) outcome fetched).2 ->
  kvGet (kvPut cache p landed) key now = Some cached ->
  isStale now cached = true ->
  (60 * 60 * 1000 - hardTtl (endpointOf c) * 1000 < landed - fetched)%Z.
Proof.
  intros Hp Hget Hstale.
  destruct (settle_ttl c key stale start outcome fetched p Hp) as [Hkey Httl].
  assert (Hts : timestamp (putValue p) = fetched).
  { unfold fetchFor in Hp.
    destruct (settle_afterFetch {| fetchCall := producer c key; fetchStale := stale;
                                   fetchStart := start; fetchResult := None |}
                outcome fetched) as (ttl & fs & wk & E).
    rewrite E in Hp. by apply afterFetch_put_value in Hp. }
  unfold kvGet, kvPut in Hget. rewrite Hkey, lookup_insert_eq in Hget. simpl in Hget.
  destruct (now <? landed + expirationTtl p * 1000)%Z eqn:Hlive; [|done].
  injection Hget as <-. apply Z.ltb_lt in Hlive.
  unfold isStale, ONE_HOUR in Hstale. apply Z.ltb_lt in Hstale.
  rewrite Hts in Hstale. rewrite Httl in Hlive. lia.
Qed.

Lemma stale_entry_needs_late_write_witness :
  (60 * 60 * 1000 - hardTtl (endpointOf (ProductRequest Sample.parsedProduct)) * 1000
   < 1210 - 1200)%Z.
Proof.
  apply (stale_entry_needs_late_write (ProductRequest Sample.parsedProduct)
           (generateProductCacheKey Sample.platform Sample.parsedProduct)
           None 1000 (Resolved 200 (Some More.originTag) (Ok Sample.payload))
           1200 1210 3601205
           {| putKey := generateProductCacheKey Sample.platform Sample.parsedProduct;
              putValue := {| data := Sample.payload; timestamp := 1200;
                             etag := Some "W/origin" |};
              expirationTtl := 3600 |}
           ∅
           {| data := Sample.payload; timestamp := 1200; etag := Some "W/origin" |}).
  - apply list_elem_of_singleton. reflexivity.
  - vm_compute. reflexivity.
  - reflexivity.
Defined.

(** X4.  A 2xx answer of the origin whose body is not JSON is treated like a
    failed call: nothing is written to the cache.  With a stale entry whose
    etag can be set as a header the response is that entry, 200 and tagged
    STALE; with a stale entry whose etag cannot, the fetcher throws.  Without
    a stale entry the response is a 503 without [X-Cache] whose body is
    [{ success: false, error: message }], the message being the timeout
    message when the error of [json()] has "abort" in its message and
    "Origin unavailable" otherwise. *)
Theorem unparsable_origin_body_is_a_failure
    (f : OriginFetch) (code : Z) (etagHeader : option HeaderValue) (e : JsError)
    (now : Z) :
  let outcome := Resolved code etagHeader (Threw e) in
  responseOk code = true ->
  (settle f outcome now).2 = []
  ∧ match fetchStale f with
    | Some stale =>
        (etagHeld (etag stale) = true ->
         ∃ r, (settle f outcome now).1 = Ok r
              ∧ status r = 200%Z
              ∧ header "X-Cache" r = Some "STALE"
              ∧ body r = Some (JSON.stringify (data stale)))
        ∧ (etagHeld (etag stale) = false ->
           (settle f outcome now).1 = Threw typeError)
    | None =>
        ∃ r, (settle f outcome now).1 = Ok r
             ∧ status r = 503%Z
             ∧ header "X-Cache" r = None
             ∧ body r
               = Some (errorBody
                         (if instanceofError e && Str.includes "abort" (message e)
                          then timeoutMessage (fetchCall f)
                          else "Origin unavailable"))
    end.
Proof.
  intros outcome Hok. unfold outcome.
  rewrite settle_noPayload by done. split; [done|].
  destruct (fetchStale f) as [stale|]; cbn [fst].
  - split; intros Hheld.
    + destruct (createSuccessResponse_held (data stale) STALE (fetchStart f) (etag stale)
                  now Hheld) as [r Hr].
      exists r. split; [done|].
      by destruct (createSuccessResponse_Ok _ _ _ _ _ _ Hr) as (? & ? & ? & _).
    + by apply createSuccessResponse_not_held.
  - eexists. split; [done|]. unfold failureMessage. rewrite Hok. done.
Qed.

Lemma unparsable_origin_body_is_a_failure_witness :
  (settle (Sample.failedFetch None)
          (Resolved 200 None (Threw (newError "Unexpected token <"))) 5000010).2 = []
  ∧ ∃ r, (settle (Sample.failedFetch None)
                 (Resolved 200 None (Threw (newError "Unexpected token <"))) 5000010).1
         = Ok r
         ∧ status r = 503%Z
         ∧ header "X-Cache" r = None
         ∧ body r = Some (errorBody "Origin unavailable").
Proof.
  apply (unparsable_origin_body_is_a_failure (Sample.failedFetch None) 200 None
           (newError "Unexpected token <") 5000010).
  reflexivity.
Defined.

(** *** Joining and completion *)

(** X5.  The fallback is the producer's, not the joiner's.  A caller that read
    a stale entry but found a promise registered for its key joins it; if the
    producer had no fallback and the origin call fails, the joiner answers 503
    although it holds a stale entry. *)
Theorem joiner_does_not_use_its_stale_entry
    (P : Platform) (w : Worker) (i : nat) (c : Cacheable) (key : string)
    (startTime now now' now'' : Z) (cached : CachedResponse)
    (pid : nat) (f : OriginFetch) (outcome : FetchOutcome) :
  tasks w !! i = Some (AwaitCache c key startTime) ->
  kvGet (CACHE w) key now = Some cached ->
  isStale now cached = true ->
  inFlightRequests w !! key = Some pid ->
  fetches w !! pid = Some f ->
  fetchStale f = None ->
  fetchResult f = None ->
  originFailed outcome = true ->
  ∃ w' r,
    run P w [ CacheRead i None now; OriginSettles pid outcome now'; Resume i now'' ]
    = Some w'
    ∧ tasks w' !! i = Some (Finished r (Some pid))
    ∧ status r = 503%Z
    ∧ header "X-Cache" r = None
    ∧ body r = Some (errorBody (failureMessage (timeoutMessage (fetchCall f)) outcome)).
Proof.
  intros Hi Hget Hstale Hreg Hpid Hnone Hout Hfail.
  assert (Hlt : (i < length (tasks w))%nat) by by eapply lookup_lt_Some.
  assert (Hlt' : (pid < length (fetches w))%nat) by by eapply lookup_lt_Some.
  pose proof (settle_noPayload f outcome now' (originFailed_noPayload outcome Hfail))
    as Hsettle.
  rewrite Hnone in Hsettle.
  set (r := createErrorResponse (failureMessage (timeoutMessage (fetchCall f)) outcome)
              503 (fetchStart f) now') in *.
  set (w1 := setTask w i (AwaitExisting pid startTime)).
  set (w2 := {| inFlightRequests := inFlightRequests w1;
                fetches := <[pid := {| fetchCall := fetchCall f;
                                       fetchStale := fetchStale f;
                                       fetchStart := fetchStart f;
                                       fetchResult := Some (Ok r) |}]> (fetches w1);
                tasks := tasks w1; CACHE := CACHE w1;
                scheduled := scheduled w1 ++ [] |}).
  set (w3 := setTask w2 i (Finished (clone r) (Some pid))).
  assert (H1 : exec P w (CacheRead i None now) = Some w1).
  { cbn [exec]. rewrite Hi. unfold cacheGet. rewrite Hget. cbn [getCachedResponse].
    unfold afterCacheRead, joinOrFetch. by rewrite Hstale, Hreg. }
  assert (H2 : exec P w1 (OriginSettles pid outcome now') = Some w2).
  { cbn [exec]. change (fetches w1) with (fetches w). rewrite Hpid.
    unfold outstanding. by rewrite Hout, Hsettle. }
  assert (H3 : exec P w2 (Resume i now'') = Some w3).
  { unfold exec. simpl. rewrite !list_lookup_insert_eq by done. done. }
  exists w3, r. split; [|split; [|split; [|split]]].
  - cbn [run]. by rewrite H1, H2, H3.
  - simpl. apply list_lookup_insert_eq. by rewrite length_insert.
  - done.
  - done.
  - done.
Qed.

Lemma producerWithoutFallback_reachable :
  reachable Sample.platform More.producerWithoutFallback.
Proof.
  unfold More.producerWithoutFallback.
  destruct (run Sample.platform _ _) as [w|] eqn:E.
  - exact (run_reachable _ _ _ _ (reach_initial _ More.staleStore) E).
  - exfalso. vm_compute in E. discriminate.
Qed.

Lemma joiner_does_not_use_its_stale_entry_witness :
  ∃ w' r,
    run Sample.platform More.producerWithoutFallback
        [ CacheRead 1 None 4000003; OriginSettles 0 (Rejected abortError) 4010002;
          Resume 1 4010003 ] = Some w'
    ∧ tasks w' !! 1%nat = Some (Finished r (Some 0%nat))
    ∧ status r = 503%Z
    ∧ header "X-Cache" r = None
    ∧ body r = Some (errorBody "Origin timeout (10s)").
Proof.
  apply (joiner_does_not_use_its_stale_entry Sample.platform More.producerWithoutFallback
           1 (ProductRequest (productBodyAfterKey Sample.parsedProduct))
           (generateProductCacheKey Sample.platform Sample.parsedProduct)
           4000001 4000003 4010002 4010003 More.staleEntry 0
           (fetchFor (ProductRequest (productBodyAfterKey Sample.parsedProduct))
                     (generateProductCacheKey Sample.platform Sample.parsedProduct)
                     None 4000000)
           (Rejected abortError));
    vm_compute; reflexivity.
Defined.

Lemma finish_waiting (P : Platform) w i pid t outcome now :
  tasks w !! i = Some t ->
  ((∃ st, t = AwaitExisting pid st) ∨ (∃ k st, t = AwaitOwn k pid st)
   ∨ (∃ st, t = AwaitDirect pid st)) ->
  is_Some (fetches w !! pid) ->
  ∃ evs w' r from,
    (length evs ≤ 2)%nat
    ∧ Forall (ofRequest i outcome now) evs
    ∧ run P w evs = Some w'
    ∧ tasks w' !! i = Some (Finished r from).
Proof.
  intros Hi Ht [f Hpid].
  assert (Hlt : (i < length (tasks w))%nat) by by eapply lookup_lt_Some.
  assert (Hlt' : (pid < length (fetches w))%nat) by by eapply lookup_lt_Some.
  assert (Hresume : ∀ w1 result, tasks w1 !! i = Some t ->
            fetches w1 !! pid ≫= fetchResult = Some result ->
            ∃ w' r' from, exec P w1 (Resume i now) = Some w'
                          ∧ tasks w' !! i = Some (Finished r' from)).
  { intros w1 result Hi1 Hr.
    assert ((i < length (tasks w1))%nat) by by eapply lookup_lt_Some.
    cbn [exec]. rewrite Hi1.
    destruct Ht as [[st ->]|[(k & st & ->)|[st ->]]]; rewrite Hr;
      destruct result as [r|error];
      eexists _, _, _; (split; [done|]); simpl; by apply list_lookup_insert_eq. }
  destruct (fetchResult f) as [result|] eqn:Hres.
  - destruct (Hresume w result Hi) as (w' & r' & from & Hexec & Hfin).
    { rewrite Hpid. done. }
    exists [Resume i now], w', r', from. split; [simpl; lia|]. split.
    + constructor; [right; by right|constructor].
    + cbn [run]. by rewrite Hexec.
  - destruct (settle f outcome now) as [result puts] eqn:Hsettle.
    set (w1 := {| inFlightRequests := inFlightRequests w;
                  fetches := <[pid := {| fetchCall := fetchCall f;
                                         fetchStale := fetchStale f;
                                         fetchStart := fetchStart f;
                                         fetchResult := Some result |}]> (fetches w);
                  tasks := tasks w; CACHE := CACHE w;
                  scheduled := scheduled w ++ puts |}).
    assert (Hexec1 : exec P w (OriginSettles pid outcome now) = Some w1).
    { cbn [exec]. rewrite Hpid. unfold outstanding. by rewrite Hres, Hsettle. }
    destruct (Hresume w1 result Hi) as (w' & r' & from & Hexec & Hfin).
    { simpl. by rewrite list_lookup_insert_eq. }
    exists [OriginSettles pid outcome now; Resume i now], w', r', from.
    split; [simpl; lia|]. split.
    + constructor; [right; left; by eexists|constructor; [right; by right|constructor]].
    + cbn [run]. by rewrite Hexec1, Hexec.
Qed.

(** X6.  No handler is left waiting.  In every state the worker can reach, a
    request that has not been answered is answered after at most three more
    events of its own (its cache read, the return of the origin call it waits
    for, its continuation), whatever the store holds and whatever the origin
    call comes back with: the promise a handler waits for is always one of the
    fetches that were started. *)
Theorem every_request_completes
    (P : Platform) (w : Worker) (i : nat) (t : Task) (outcome : FetchOutcome) (now : Z) :
  reachable P w ->
  tasks w !! i = Some t ->
  ∃ evs w' r from,
    (length evs ≤ 3)%nat
    ∧ Forall (ofRequest i outcome now) evs
    ∧ run P w evs = Some w'
    ∧ tasks w' !! i = Some (Finished r from).
Proof.
  intros Hreach Hi. pose proof (Coalescing_reachable P w Hreach) as HC.
  assert (Hlt : (i < length (tasks w))%nat) by by eapply lookup_lt_Some.
  assert (Hweaken : ∀ w0 pid t0,
    tasks w0 !! i = Some t0 ->
    ((∃ st, t0 = AwaitExisting pid st) ∨ (∃ k st, t0 = AwaitOwn k pid st)
     ∨ (∃ st, t0 = AwaitDirect pid st)) ->
    is_Some (fetches w0 !! pid) ->
    ∃ evs w' r from, (length evs ≤ 2)%nat ∧ Forall (ofRequest i outcome now) evs
                     ∧ run P w0 evs = Some w' ∧ tasks w' !! i = Some (Finished r from)).
  { intros w0 pid t0. apply finish_waiting. }
  destruct t as [c key st|pid st|key pid st|pid st|r from].
  - (* the read of the cache, then as below *)
    set (cached := getCachedResponse (cacheGet (CACHE w) key None now)).
    set (w1 := afterCacheRead w i c key st cached now).
    assert (Hexec : exec P w (CacheRead i None now) = Some w1).
    { cbn [exec]. by rewrite Hi. }
    assert (HC1 : Coalescing w1) by by eapply Coalescing_exec.
    assert (Hcases : (∃ r, tasks w1 !! i = Some (Finished r None))
                     ∨ ∃ pid t1, tasks w1 !! i = Some t1
                                 ∧ ((∃ st, t1 = AwaitExisting pid st)
                                    ∨ (∃ k st, t1 = AwaitOwn k pid st)
                                    ∨ (∃ st, t1 = AwaitDirect pid st))).
    { unfold w1, afterCacheRead, joinOrFetch.
      destruct cached as [entry|]; [destruct (negb (isStale now entry))|];
        try (left; eexists; simpl; by apply list_lookup_insert_eq);
        destruct (inFlightRequests w !! key) as [pid|]; right;
        eexists _, _; (split; [simpl; by apply list_lookup_insert_eq|]); eauto 6. }
    destruct Hcases as [[r Hr]|(pid & t1 & Ht1 & Hshape)].
    + exists [CacheRead i None now], w1, r, None. split; [simpl; lia|]. split.
      * constructor; [by left|constructor].
      * cbn [run]. by rewrite Hexec.
    + destruct (Hweaken w1 pid t1 Ht1 Hshape) as (evs & w' & r & from & Hlen & Hall & Hrun & Hfin).
      { destruct Hshape as [[st' ->]|[(k & st' & ->)|[st' ->]]].
        - by apply (waiting_fetch w1 HC1 i pid st'); left.
        - pose proof (owner_registered w1 HC1 i k pid st' Ht1) as Hreg.
          destruct (registered_fetch w1 HC1 k pid Hreg) as (f & -> & _). done.
        - by apply (waiting_fetch w1 HC1 i pid st'); right. }
      exists (CacheRead i None now :: evs), w', r, from. split; [simpl; lia|]. split.
      * constructor; [by left|done].
      * cbn [run]. by rewrite Hexec.
  - destruct (Hweaken w pid _ Hi) as (evs & w' & r & from & Hlen & Hrest);
      [left; by eexists| |].
    { by apply (waiting_fetch w HC i pid st); left. }
    exists evs, w', r, from. split; [lia|done].
  - destruct (Hweaken w pid _ Hi) as (evs & w' & r & from & Hlen & Hrest);
      [right; left; by eexists _, _| |].
    { pose proof (owner_registered w HC i key pid st Hi) as Hreg.
      destruct (registered_fetch w HC key pid Hreg) as (f & -> & _). done. }
    exists evs, w', r, from. split; [lia|done].
  - destruct (Hweaken w pid _ Hi) as (evs & w' & r & from & Hlen & Hrest);
      [right; right; by eexists| |].
    { by apply (waiting_fetch w HC i pid st); right. }
    exists evs, w', r, from. split; [lia|done].
  - exists [], w, r, from. split; [simpl; lia|]. split; [constructor|done].
Qed.

Lemma every_request_completes_witness :
  ∃ evs w' r from,
    (length evs ≤ 3)%nat
    ∧ Forall (ofRequest 1 (Rejected abortError) 4010002) evs
    ∧ run Sample.platform More.producerWithoutFallback evs = Some w'
    ∧ tasks w' !! 1%nat = Some (Finished r from).
Proof.
  apply (every_request_completes Sample.platform More.producerWithoutFallback 1
           (AwaitCache (ProductRequest (productBodyAfterKey Sample.parsedProduct))
                       (generateProductCacheKey Sample.platform Sample.parsedProduct)
                       4000001)
           (Rejected abortError) 4010002).
  - apply producerWithoutFallback_reachable.
  - reflexivity.
Defined.

(** X7.  The in-flight map holds a key exactly while the handler that started
    the origin call for it is between [set] and the [delete] of its [finally]:
    in every state the worker can reach, the registered promises are those of
    the handlers waiting for their own call, and once every handler has
    returned the map is empty. *)
Theorem in_flight_map_is_cleaned (P : Platform) (w : Worker) :
  reachable P w ->
  (∀ key pid, inFlightRequests w !! key = Some pid
              ↔ ∃ i startTime, tasks w !! i = Some (AwaitOwn key pid startTime))
  ∧ ((∀ i t, tasks w !! i = Some t -> ∃ r from, t = Finished r from) ->
     inFlightRequests w = ∅).
Proof.
  intros HC%Coalescing_reachable. split.
  - intros key pid. split.
    + apply (registered_owner w HC).
    + intros (i & st & Hi). by apply (owner_registered w HC i key pid st).
  - intros Hdone. apply map_empty. intros key.
    destruct (inFlightRequests w !! key) as [pid|] eqn:Hkey; [|done].
    destruct (registered_owner w HC key pid Hkey) as (i & st & Hi).
    by destruct (Hdone i _ Hi) as (r & from & ?).
Qed.

Lemma in_flight_map_is_cleaned_witness :
  (∀ key pid, inFlightRequests More.producerWithoutFallback !! key = Some pid
              ↔ ∃ i startTime, tasks More.producerWithoutFallback !! i
                               = Some (AwaitOwn key pid startTime))
  ∧ ((∀ i t, tasks More.producerWithoutFallback !! i = Some t
             -> ∃ r from, t = Finished r from) ->
     inFlightRequests More.producerWithoutFallback = ∅).
Proof.
  apply (in_flight_map_is_cleaned Sample.platform More.producerWithoutFallback).
  apply producerWithoutFallback_reachable.
Defined.

(** *** Routing *)

(** X8.  Routing looks for the endpoint's path anywhere in the pathname, in a
    fixed order.  A request other than OPTIONS whose pathname contains
    "/api/v2/recommendation/product" at any place goes to the product handler;
    one that contains "/api/storefront" and neither recommendation path goes to
    the storefront handler. *)
Theorem routing_is_by_substring
    (P : Platform) (req : Request) (before after : string) (startTime now : Z) :
  method req ≠ "OPTIONS" ->
  (pathname req = before +:+ "/api/v2/recommendation/product" +:+ after ->
   fetch P req startTime now = handleProductRecommendation P req startTime now)
  ∧ (pathname req = before +:+ "/api/storefront" +:+ after ->
     Str.includes "/api/v2/recommendation/product" (pathname req) = false ->
     Str.includes "/api/v2/recommendation/cart" (pathname req) = false ->
     fetch P req startTime now = handleStorefrontRequest P req startTime now).
Proof.
  intros Hmethod%String.eqb_neq. unfold fetch. split.
  - intros Hpath.
    assert (Str.includes "/api/v2/recommendation/product" (pathname req) = true) as ->
      by (rewrite Hpath; apply includes_app).
    cbn [negb andb]. by rewrite Hmethod.
  - intros Hpath Hproduct Hcart. rewrite Hproduct, Hcart.
    assert (Str.includes "/api/storefront" (pathname req) = true) as ->
      by (rewrite Hpath; apply includes_app).
    cbn [negb andb]. by rewrite Hmethod.
Qed.

Lemma routing_is_by_substring_witness :
  fetch Sample.platform
        {| method := "DELETE"; pathname := "/v9/api/v2/recommendation/product/api/storefront";
           searchParams := []; json := Threw typeError |} 0 0
  = Respond (createErrorResponse "Method not allowed" 405 0 0).
Proof.
  apply (proj1 (routing_is_by_substring Sample.platform
                  {| method := "DELETE";
                     pathname := "/v9/api/v2/recommendation/product/api/storefront";
                     searchParams := []; json := Threw typeError |}
                  "/v9" "/api/storefront" 0 0 ltac:(discriminate))).
  reflexivity.
Defined.

(** *** Requests to the origin *)

(** X9.  The access headers go out with every request to an [ORIGIN_URL] that
    contains one of the two protected host names at any place, and never with
    a request to the think origin. *)
Theorem access_headers_by_substring
    (env : Env) (before after host : string) (call : OriginCall) :
  host ∈ ["tunnel.magicsell.ai"; "api.magicsell.ai"] ->
  ORIGIN_URL env = before +:+ host +:+ after ->
  accessHeaders (originRequest env call)
  = match call with
    | CallRecommendations _ _ _ => false
    | _ => true
    end.
Proof.
  intros Hhost Hurl.
  assert (protectedOrigin env = true) as Hp.
  { unfold protectedOrigin. rewrite Hurl.
    apply elem_of_cons in Hhost as [->|Hhost].
    - by rewrite includes_app.
    - apply list_elem_of_singleton in Hhost as ->. rewrite includes_app.
      by destruct (Str.includes _ _). }
  by destruct call.
Qed.

Lemma access_headers_by_substring_witness :
  accessHeaders (originRequest Sample.env
                   (CallProduct Sample.parsedProduct
                      (generateProductCacheKey Sample.platform Sample.parsedProduct)))
  = true.
Proof.
  apply (access_headers_by_substring Sample.env "https://" EmptyString "api.magicsell.ai"
           (CallProduct Sample.parsedProduct
              (generateProductCacheKey Sample.platform Sample.parsedProduct))).
  - right. left.
  - reflexivity.
Defined.

(** X10.  [limit] and [excludeProductIds] are part of the object serialised for
    the product key and are not sent to the origin: two requests with different
    limits have different key objects and the same origin request. *)
Theorem limit_is_keyed_but_not_forwarded
    (env : Env) (body : ProductRequestBody) (limitA limitB : option JsNumber)
    (ids : option (list string)) :
  JSON.ofNumber <$> limitA ≠ JSON.ofNumber <$> limitB ->
  productKeyData (withLimit limitA body) ≠ productKeyData (withLimit limitB body)
  ∧ productOriginRequest env (withLimit limitA body)
    = productOriginRequest env (withLimit limitB body)
  ∧ productOriginRequest env (withExcludeProductIds ids body)
    = productOriginRequest env body.
Proof.
  intros Hne. split; [|done].
  unfold productKeyData, JS.objectLiteral. simpl.
  destruct (productId body), (productHandle body), (layout body),
    (excludeProductIds body), limitA as [a|], limitB as [b|]; simpl;
    intros H; apply Hne; simpl; simplify_eq; congruence.
Qed.

Lemma limit_is_keyed_but_not_forwarded_witness :
  productKeyData (withLimit (Some (Num 4)) Sample.parsedProduct)
  ≠ productKeyData (withLimit (Some (Num 8)) Sample.parsedProduct)
  ∧ productOriginRequest Sample.env (withLimit (Some (Num 4)) Sample.parsedProduct)
    = productOriginRequest Sample.env (withLimit (Some (Num 8)) Sample.parsedProduct)
  ∧ productOriginRequest Sample.env
      (withExcludeProductIds (Some ["7"]) Sample.parsedProduct)
    = productOriginRequest Sample.env Sample.parsedProduct.
Proof.
  apply (limit_is_keyed_but_not_forwarded Sample.env Sample.parsedProduct
           (Some (Num 4)) (Some (Num 8)) (Some ["7"])).
  discriminate.
Defined.

(** *** The path of a handle recommendation *)

Lemma split_nonempty sep s : ∃ h t, Str.split sep s = h :: t.
Proof.
  induction s as [|a s (h & t & IH)]; simpl; [by eexists _, _|].
  destruct (Ascii.eqb a sep); [by eexists _, _|]. rewrite IH. by eexists _, _.
Qed.

Lemma split_no_separator sep s : Str.hasChar sep s = false -> Str.split sep s = [s].
Proof.
  induction s as [|a s IH]; simpl; [done|].
  rewrite Ascii.eqb_sym. destruct (Ascii.eqb a sep); [done|].
  intros H. by rewrite IH.
Qed.

Lemma split_app sep a b :
  Str.hasChar sep a = false ->
  Str.split sep (a +:+ String sep b) = a :: Str.split sep b.
Proof.
  induction a as [|c a IH].
  - intros _. rewrite app_empty. simpl. by rewrite Ascii.eqb_refl.
  - rewrite app_cons. simpl. rewrite Ascii.eqb_sym.
    destruct (Ascii.eqb c sep); [done|]. intros H. by rewrite IH.
Qed.

(** X11.  The handle handler takes the shop and the product handle from the
    fourth and fifth part of the pathname split at "/", and ignores the parts
    after them.  An empty shop or handle is answered 400 "Missing shop or
    product handle"; a pathname without a fifth part is answered 400 "Invalid
    URL format". *)
Theorem handle_path_segments
    (P : Platform) (req : Request) (shop tail : string) (startTime now : Z) :
  let productHandle := default EmptyString (head (Str.split "/" tail)) in
  method req = "GET" ->
  Str.hasChar "/" shop = false ->
  (pathname req = "/recommendations/handle/" +:+ shop +:+ "/" +:+ tail ->
   handleThinkRecommendations P req startTime now
   = if Str.isEmpty shop || Str.isEmpty productHandle
     then Respond (createErrorResponse "Missing shop or product handle" 400 startTime now)
     else ReadCache (RecommendationsRequest shop productHandle)
                    (generateRecommendationsCacheKey P shop productHandle))
  ∧ (pathname req = "/recommendations/handle/" +:+ shop ->
     handleThinkRecommendations P req startTime now
     = Respond (createErrorResponse "Invalid URL format" 400 startTime now)).
Proof.
  intros productHandle Hmethod Hshop. unfold handleThinkRecommendations.
  rewrite Hmethod. simpl. split; intros ->.
  - change ("/recommendations/handle/" +:+ shop +:+ "/" +:+ tail)
      with (EmptyString +:+ String "/" ("recommendations" +:+ String "/"
              ("handle" +:+ String "/" (shop +:+ String "/" tail)))).
    rewrite !split_app by done.
    destruct (split_nonempty "/" tail) as (h & t & Hsplit).
    unfold productHandle. rewrite Hsplit. simpl.
    destruct shop, h; done.
  - change ("/recommendations/handle/" +:+ shop)
      with (EmptyString +:+ String "/" ("recommendations" +:+ String "/"
              ("handle" +:+ String "/" shop))).
    rewrite !split_app by done. rewrite split_no_separator by done. done.
Qed.

Lemma handle_path_segments_witness :
  handleThinkRecommendations Sample.platform
    (More.thinkRequest "/recommendations/handle/s.myshopify.com/blue-mug/extra/parts") 0 0
  = ReadCache (RecommendationsRequest "s.myshopify.com" "blue-mug")
              (generateRecommendationsCacheKey Sample.platform "s.myshopify.com" "blue-mug")
  ∧ handleThinkRecommendations Sample.platform
      (More.thinkRequest "/recommendations/handle/s.myshopify.com") 0 0
    = Respond (createErrorResponse "Invalid URL format" 400 0 0).
Proof.
  split.
  - apply (proj1 (handle_path_segments Sample.platform
                    (More.thinkRequest
                       "/recommendations/handle/s.myshopify.com/blue-mug/extra/parts")
                    "s.myshopify.com" "blue-mug/extra/parts" 0 0 eq_refl eq_refl)).
    reflexivity.
  - apply (proj2 (handle_path_segments Sample.platform
                    (More.thinkRequest "/recommendations/handle/s.myshopify.com")
                    "s.myshopify.com" EmptyString 0 0 eq_refl eq_refl)).
    reflexivity.
Defined.

(** *** Validation *)

Lemma orUndefined_not_empty v : JS.orUndefined v ≠ Some EmptyString.
Proof. by destruct v as [[|]|]. Qed.

(** X12.  What [parseProductQueryParams] lets through.  A parsed request has
    the non-empty [shop] and [type] of the query and a product id or a product
    handle; an optional text parameter that is empty in the query is absent
    from the parsed request, and a list of excluded ids is never empty.  A
    rejected query lacks [shop], [type], or both product identifiers. *)
Theorem product_parameters_validated (params : list (string * string)) :
  match parseProductQueryParams params with
  | Some parsed =>
      JS.assoc "shop" params = Some (shop parsed) ∧ shop parsed ≠ EmptyString
      ∧ JS.assoc "type" params = Some (type parsed) ∧ type parsed ≠ EmptyString
      ∧ (JS.truthyStr (productId parsed) = true ∨ JS.truthyStr (productHandle parsed) = true)
      ∧ productId parsed ≠ Some EmptyString
      ∧ productHandle parsed ≠ Some EmptyString
      ∧ layout parsed ≠ Some EmptyString
      ∧ cartToken parsed ≠ Some EmptyString
      ∧ excludeProductIds parsed ≠ Some []
      ∧ (is_Some (limit parsed) ↔ JS.truthyStr (JS.assoc "limit" params) = true)
  | None =>
      JS.truthyStr (JS.assoc "shop" params) = false
      ∨ JS.truthyStr (JS.assoc "type" params) = false
      ∨ (JS.truthyStr (JS.assoc "productId" params) = false
         ∧ JS.truthyStr (JS.assoc "productHandle" params) = false)
  end.
Proof.
  unfold parseProductQueryParams.
  destruct (JS.assoc "shop" params) as [s|]; [|by left].
  destruct (JS.assoc "type" params) as [t|]; [|by right; left].
  destruct s as [|a s]; [by left|]. destruct t as [|b t]; [by right; left|].
  cbn [Str.isEmpty orb].
  destruct (JS.truthyStr (JS.assoc "productId" params)) eqn:Hid;
    destruct (JS.truthyStr (JS.assoc "productHandle" params)) eqn:Hhandle;
    cbn [negb andb]; try (right; right; done);
    cbn [shop type productId productHandle layout cartToken excludeProductIds limit];
    (split; [done|]); (split; [done|]); (split; [done|]); (split; [done|]);
    (split; [unfold JS.orUndefined; rewrite ?Hid, ?Hhandle; auto|]);
    (split; [apply orUndefined_not_empty|]); (split; [apply orUndefined_not_empty|]);
    (split; [apply orUndefined_not_empty|]); (split; [apply orUndefined_not_empty|]);
    (split;
      [destruct (JS.truthyStr (JS.assoc "excludeProductIds" params)); [|done];
       destruct (JS.assoc "excludeProductIds" params) as [ids|]; [|done]; simpl;
       destruct (split_nonempty "," ids) as (h & tl & ->); done|]);
    destruct (JS.truthyStr (JS.assoc "limit" params)) eqn:Hl;
    (split; [intros [x Hx]; try done|intros; try done]);
    destruct (JS.assoc "limit" params); try done; by eexists.
Qed.

(** X13.  A body accepted by one of the three JSON parsers is the parsed
    document itself, is a JSON object (not null, an array, a text, a number or
    a boolean), and has the truthy properties its handler requires. *)
Theorem parsed_bodies_are_objects (req : Request) (parsed : Json) :
  (parseCartRequestBody req = Some parsed ->
   json req = Ok parsed ∧ (∃ fields, parsed = JObj fields)
   ∧ JS.truthy (JS.prop parsed "shop") = true ∧ JS.truthy (JS.prop parsed "type") = true)
  ∧ (parseStorefrontRequestBody req = Some parsed ->
     json req = Ok parsed ∧ (∃ fields, parsed = JObj fields)
     ∧ JS.truthy (JS.prop parsed "cart") = true
     ∧ JS.truthy (JS.prop parsed "shop") = true)
  ∧ (parseUpsellRequestBody req = Some parsed ->
     json req = Ok parsed ∧ (∃ fields, parsed = JObj fields)
     ∧ JS.truthy (JS.prop parsed "shop") = true ∧ JS.truthy (JS.prop parsed "type") = true
     ∧ (JS.truthy (JS.prop parsed "items") = true
        ∨ JS.truthy (JS.prop parsed "productId") = true)).
Proof.
  unfold parseCartRequestBody, parseStorefrontRequestBody, parseUpsellRequestBody.
  destruct (json req) as [doc|e]; [|done].
  split; [|split].
  - destruct doc; try done; simpl.
    destruct (JS.truthy (JS.assoc "shop" fields)) eqn:Hs; [|done].
    destruct (JS.truthy (JS.assoc "type" fields)) eqn:Ht; [|done].
    intros [= <-]. repeat split; try done. by eexists.
  - destruct doc; try done; simpl.
    destruct (JS.truthy (JS.assoc "cart" fields)) eqn:Hs; [|done].
    destruct (JS.truthy (JS.assoc "shop" fields)) eqn:Ht; [|done].
    intros [= <-]. repeat split; try done. by eexists.
  - destruct doc; try done; simpl.
    destruct (JS.truthy (JS.assoc "shop" fields)) eqn:Hs; [|done].
    destruct (JS.truthy (JS.assoc "type" fields)) eqn:Ht; [|done].
    destruct (JS.truthy (JS.assoc "items" fields)) eqn:Hi;
      destruct (JS.truthy (JS.assoc "productId" fields)) eqn:Hp; simpl; try done;
      intros [= <-]; repeat split; try done; try (by eexists); auto.
Qed.

Lemma parsed_bodies_are_objects_witness :
  json (Sample.storefrontRequest Sample.storefrontBodyA) = Ok Sample.storefrontBodyA
  ∧ (∃ fields, Sample.storefrontBodyA = JObj fields)
  ∧ JS.truthy (JS.prop Sample.storefrontBodyA "cart") = true
  ∧ JS.truthy (JS.prop Sample.storefrontBodyA "shop") = true.
Proof.
  apply (proj1 (proj2 (parsed_bodies_are_objects
                         (Sample.storefrontRequest Sample.storefrontBodyA)
                         Sample.storefrontBodyA))).
  reflexivity.
Defined.

Lemma mapR_Threw {A B} (f : A -> Result B) (l : list A) x e :
  x ∈ l -> f x = Threw e -> ∃ e', mapR f l = Threw e'.
Proof.
  intros Hx Hf. induction l as [|y l IH]; [by apply elem_of_nil in Hx|].
  simpl. apply elem_of_cons in Hx as [<-|Hx].
  - rewrite Hf. by eexists.
  - destruct (f y); [|by eexists]. destruct (IH Hx) as [e' ->]. by eexists.
Qed.

(** X14.  A valid JSON body with a collection of the wrong shape is answered
    500, not 400, and no fetcher is called: a cart request whose [products] is
    neither null nor an array; a storefront request (without action) whose
    [cart.items] is neither null nor an array, or is an array that contains
    null. *)
Theorem wrong_shaped_collection_is_a_500
    (P : Platform) (req : Request) (parsed v : Json) (startTime now : Z) :
  method req = "POST" ->
  (parseCartRequestBody req = Some parsed ->
   JS.prop parsed "products" = Some v ->
   v ≠ JNull -> (∀ xs, v ≠ JArr xs) ->
   handleCartRecommendation P req startTime now
   = Respond (createErrorResponse "Internal server error" 500 startTime now))
  ∧ (parseStorefrontRequestBody req = Some parsed ->
     JS.truthy (JS.prop parsed "actionType") = false ->
     JS.optProp (JS.prop parsed "cart") "items" = Some v ->
     (v ≠ JNull ∧ ∀ xs, v ≠ JArr xs) ∨ (∃ xs, v = JArr xs ∧ JNull ∈ xs) ->
     handleStorefrontRequest P req startTime now
     = Respond (createErrorResponse "Internal server error" 500 startTime now)).
Proof.
  intros Hmethod. split.
  - intros Hparse Hv Hnull Hnot. unfold handleCartRecommendation.
    rewrite Hmethod, Hparse. simpl.
    unfold generateCartCacheKey, cartKeyData, sortedProducts. rewrite Hv.
    destruct v; try done. by destruct (Hnot xs).
  - intros Hparse Haction Hv Hshape. unfold handleStorefrontRequest.
    rewrite Hmethod, Hparse, Haction. simpl.
    unfold generateStorefrontCacheKey, storefrontKeyData, storefrontKeyItems. rewrite Hv.
    destruct Hshape as [[Hnull Hnot]|(xs & -> & Hin)].
    + destruct v; try done. by destruct (Hnot xs).
    + destruct (mapR_Threw storefrontKeyItem xs JNull typeError Hin eq_refl) as [e' ->].
      done.
Qed.

Lemma wrong_shaped_collection_is_a_500_witness :
  handleCartRecommendation Sample.platform
    (More.cartRequest (withProp "products" (JStr "4,30") Sample.cartBody)) 0 0
  = Respond (createErrorResponse "Internal server error" 500 0 0)
  ∧ handleStorefrontRequest Sample.platform
      (Sample.storefrontRequest
         (More.cartWithItems (JArr [ lineItem 7 []; JNull ]))) 0 0
    = Respond (createErrorResponse "Internal server error" 500 0 0).
Proof.
  split.
  - apply (proj1 (wrong_shaped_collection_is_a_500 Sample.platform
                    (More.cartRequest (withProp "products" (JStr "4,30") Sample.cartBody))
                    (withProp "products" (JStr "4,30") Sample.cartBody)
                    (JStr "4,30") 0 0 eq_refl)); try reflexivity; discriminate.
  - apply (proj2 (wrong_shaped_collection_is_a_500 Sample.platform
                    (Sample.storefrontRequest
                       (More.cartWithItems (JArr [ lineItem 7 []; JNull ])))
                    (More.cartWithItems (JArr [ lineItem 7 []; JNull ]))
                    (JArr [ lineItem 7 []; JNull ]) 0 0 eq_refl)); try reflexivity.
    right. exists [ lineItem 7 []; JNull ]. split; [reflexivity|]. right. left.
Defined.

(** *** What the origin receives of a cart *)

Lemma setField_setField name (v v' : Json) fields :
  JS.setField name v (JS.setField name v' fields) = JS.setField name v fields.
Proof.
  induction fields as [|[k w] rest IH]; simpl.
  - by rewrite String.eqb_refl.
  - destruct (String.eqb k name) eqn:E; simpl; rewrite E; [done|by rewrite IH].
Qed.

(** X15.  The sort of [products] for the cart key works in place, so the order
    in which the client sent the products reaches neither the key nor the
    origin: two cart requests that differ only in the order of the numbers in
    [products] read the same key and hand the fetcher the same body, whose
    [products] are in the order of the default sort. *)
Theorem cart_order_is_not_forwarded
    (P : Platform) (req : Request) (body : Json) (productsA productsB : list Z)
    (startTime now : Z) :
  method req = "POST" ->
  parseCartRequestBody req = Some body ->
  JS.prop body "products" = Some (JArr (JNum <$> productsA)) ->
  productsA ≡ₚ productsB ->
  ∃ forwarded key,
    handleCartRecommendation P req startTime now
    = ReadCache (CartRequest forwarded) key
    ∧ handleCartRecommendation P
        (withJson (withProp "products" (JArr (JNum <$> productsB)) body) req) startTime now
      = ReadCache (CartRequest forwarded) key
    ∧ JS.prop forwarded "products"
      = Some (JArr (ArraySort.sortDefault (JNum <$> productsA))).
Proof.
  intros Hmethod Hparse Hproducts Hperm.
  destruct body as [| | | | |fields]; try done.
  assert (Htruthy : negb (JS.truthy (JS.assoc "shop" fields))
                    || negb (JS.truthy (JS.assoc "type" fields)) = false).
  { unfold parseCartRequestBody in Hparse.
    destruct (json req) as [doc|]; [|done]. destruct doc; try done.
    cbn [JS.propOf JS.prop] in Hparse.
    destruct (negb (JS.truthy (JS.assoc "shop" fields0)) || _) eqn:E; [done|].
    by injection Hparse as ->. }
  assert (Hparse' : parseCartRequestBody
                      (withJson (withProp "products" (JArr (JNum <$> productsB))
                                          (JObj fields)) req)
                    = Some (withProp "products" (JArr (JNum <$> productsB)) (JObj fields))).
  { unfold parseCartRequestBody. cbn [json withJson withProp JS.propOf JS.prop].
    rewrite !assoc_setField.
    change (String.eqb "products" "shop") with false.
    change (String.eqb "products" "type") with false. cbn match. by rewrite Htruthy. }
  unfold handleCartRecommendation. cbn [withJson method]. rewrite Hmethod, Hparse, Hparse'.
  unfold generateCartCacheKey, cartKeyData, cartBodyAfterKey, sortedProducts.
  cbn [JS.prop withProp] in *. rewrite Hproducts, !assoc_setField.
  change (String.eqb "products" "products") with true.
  change (String.eqb "products" "shop") with false.
  change (String.eqb "products" "type") with false.
  change (String.eqb "products" "layout") with false.
  change (String.eqb "products" "limit") with false. cbn match.
  rewrite <- (sortDefault_numbers_Permutation _ _ Hperm), setField_setField.
  eexists _, _. split; [done|]. split; [done|].
  cbn [JS.prop]. rewrite assoc_setField. done.
Qed.

Lemma cart_order_is_not_forwarded_witness :
  ∃ forwarded key,
    handleCartRecommendation Sample.platform (More.cartRequest Sample.cartBody) 0 0
    = ReadCache (CartRequest forwarded) key
    ∧ handleCartRecommendation Sample.platform
        (withJson (withProp "products" (JArr (JNum <$> [100; 30; 4]%Z)) Sample.cartBody)
                  (More.cartRequest Sample.cartBody)) 0 0
      = ReadCache (CartRequest forwarded) key
    ∧ JS.prop forwarded "products"
      = Some (JArr (ArraySort.sortDefault (JNum <$> [30; 4; 100]%Z))).
Proof.
  apply (cart_order_is_not_forwarded Sample.platform (More.cartRequest Sample.cartBody)
           Sample.cartBody [30; 4; 100]%Z [100; 30; 4]%Z 0 0).
  - reflexivity.
  - reflexivity.
  - reflexivity.
  - change [100; 30; 4]%Z with ([100] ++ [30; 4])%Z.
    change [30; 4; 100]%Z with ([30; 4] ++ [100])%Z. apply Permutation_app_comm.
Defined.

(** *** The order of the line items *)

Section SortOn.
Context {A : Type} (gt : A -> A -> bool) (D : A -> Prop).
Hypothesis gt_asym : ∀ x y, D x -> D y -> gt x y = true -> gt y x = false.
Hypothesis le_trans :
  ∀ x y z, D x -> D y -> D z -> gt x y = false -> gt y z = false -> gt x z = false.

Lemma insert_Forall x l : D x -> Forall D l -> Forall D (ArraySort.insert gt x l).
Proof.
  intros Hx. induction 1 as [|y ys Hy Hys IH]; simpl; [by repeat constructor|].
  destruct (gt x y); by repeat constructor.
Qed.

Lemma sort_Forall l : Forall D l -> Forall D (ArraySort.sort gt l).
Proof. induction 1; simpl; [constructor|by apply insert_Forall]. Qed.

Lemma insert_insert_on x y l :
  D x -> D y -> Forall D l ->
  (gt x y = false -> gt y x = false -> x = y) ->
  ArraySort.insert gt x (ArraySort.insert gt y l)
  = ArraySort.insert gt y (ArraySort.insert gt x l).
Proof.
  intros Hx Hy Hl Hxy. induction Hl as [|z zs Hz Hzs IH]; simpl.
  - destruct (gt x y) eqn:Exy, (gt y x) eqn:Eyx; simpl; rewrite ?Exy, ?Eyx; try done.
    + by rewrite (gt_asym _ _ Hx Hy Exy) in Eyx.
    + by rewrite (Hxy eq_refl eq_refl).
  - destruct (gt y z) eqn:Eyz, (gt x z) eqn:Exz; simpl; rewrite ?Eyz, ?Exz.
    + by rewrite IH.
    + destruct (gt y x) eqn:Eyx; simpl; rewrite ?Eyz; [done|].
      by rewrite (le_trans _ _ _ Hy Hx Hz Eyx Exz) in Eyz.
    + destruct (gt x y) eqn:Exy; simpl; rewrite ?Exz; [done|].
      by rewrite (le_trans _ _ _ Hx Hy Hz Exy Eyz) in Exz.
    + destruct (gt x y) eqn:Exy, (gt y x) eqn:Eyx; simpl; rewrite ?Eyz, ?Exz; try done.
      * by rewrite (gt_asym _ _ Hx Hy Exy) in Eyx.
      * by rewrite (Hxy eq_refl eq_refl).
Qed.

Lemma sort_Permutation_on l l' :
  l ≡ₚ l' ->
  Forall D l ->
  (∀ x y, x ∈ l -> y ∈ l -> gt x y = false -> gt y x = false -> x = y) ->
  ArraySort.sort gt l = ArraySort.sort gt l'.
Proof.
  induction 1 as [|x l l' Hperm IH|x y l|l l' l'' Hperm1 IH1 Hperm2 IH2];
    intros HD Heq; simpl.
  - done.
  - rewrite IH; [done|by eapply Forall_inv_tail|].
    intros a b Ha Hb. apply Heq; by right.
  - apply Forall_cons in HD as [Hy [Hx Hl]%Forall_cons].
    apply insert_insert_on; [done|done|by apply sort_Forall|].
    apply Heq; [left|right; left].
  - rewrite IH1 by done. apply IH2.
    + by rewrite <- Hperm1.
    + intros a b Ha Hb. apply Heq; by rewrite Hperm1.
Qed.
End SortOn.

Lemma mapR_Ok {A B} (f : A -> Result B) (g : A -> B) (l : list A) :
  (∀ x, x ∈ l -> f x = Ok (g x)) -> mapR f l = Ok (g <$> l).
Proof.
  induction l as [|x l IH]; intros H; [done|].
  simpl. rewrite (H x) by left. rewrite IH; [done|].
  intros y Hy. apply H. by right.
Qed.

Lemma NoDup_fmap_eq {A B} (f : A -> B) (l : list A) x y :
  NoDup (f <$> l) -> x ∈ l -> y ∈ l -> f x = f y -> x = y.
Proof.
  induction l as [|z l IH]; csimpl; [by intros _ ?%elem_of_nil|].
  intros [Hz Hl]%NoDup_cons [->|Hx]%elem_of_cons [->|Hy]%elem_of_cons Hf; [done| | |by apply IH].
  - destruct Hz. rewrite Hf. by apply list_elem_of_fmap_2.
  - destruct Hz. rewrite <- Hf. by apply list_elem_of_fmap_2.
Qed.

(** X16.  The order of the line items does not reach the storefront key when
    every item has a number as [variant_id] and no two items share one: two
    bodies with the same shop, cart token, total and item count, and the same
    line items in any order, get the same key. *)
Theorem storefront_key_ignores_item_order
    (P : Platform) (A B : Json) (itemsA itemsB : list Json) :
  JS.prop A "shop" = JS.prop B "shop" ->
  (∀ name, name ∈ ["token"; "total_price"; "item_count"] ->
           JS.optProp (JS.prop A "cart") name = JS.optProp (JS.prop B "cart") name) ->
  JS.optProp (JS.prop A "cart") "items" = Some (JArr itemsA) ->
  JS.optProp (JS.prop B "cart") "items" = Some (JArr itemsB) ->
  (∀ item, item ∈ itemsA -> ∃ n, variantOf item = Some (JNum n)) ->
  NoDup (variantOf <$> itemsA) ->
  itemsA ≡ₚ itemsB ->
  generateStorefrontCacheKey P A = generateStorefrontCacheKey P B.
Proof.
  intros Hshop Hcart HA HB Hnum Hdup Hperm.
  unfold generateStorefrontCacheKey, storefrontKeyData, storefrontKeyItems.
  rewrite HA, HB, Hshop, !Hcart by set_solver.
  set (mk := λ item, {| id := JS.prop item "variant_id";
                        quantity := JS.prop item "quantity";
                        properties := JS.prop item "properties" |}).
  assert (Hmk : ∀ l, (∀ item, item ∈ l -> ∃ n, variantOf item = Some (JNum n)) ->
                     mapR storefrontKeyItem l = Ok (mk <$> l)).
  { intros l Hl. apply mapR_Ok. intros item [n Hn]%Hl. by destruct item. }
  rewrite (Hmk itemsA Hnum).
  rewrite (Hmk itemsB) by (intros item Hitem; apply Hnum; by rewrite Hperm).
  enough (ArraySort.sort (byIdGt P) (mk <$> itemsA)
          = ArraySort.sort (byIdGt P) (mk <$> itemsB)) as -> by done.
  apply (sort_Permutation_on (byIdGt P) (λ it, ∃ n, id it = Some (JNum n))).
  - intros x y [nx Hx] [ny Hy]. unfold byIdGt. rewrite Hx, Hy. simpl.
    intros ?%Z.ltb_lt. apply Z.ltb_ge. lia.
  - intros x y z [nx Hx] [ny Hy] [nz Hz]. unfold byIdGt. rewrite Hx, Hy, Hz. simpl.
    intros ?%Z.ltb_ge ?%Z.ltb_ge. apply Z.ltb_ge. lia.
  - by apply fmap_Permutation.
  - apply Forall_fmap, Forall_forall. intros item Hitem. by apply Hnum.
  - intros x y (a & -> & Ha)%list_elem_of_fmap (b & -> & Hb)%list_elem_of_fmap.
    destruct (Hnum a Ha) as [na Hna], (Hnum b Hb) as [nb Hnb].
    unfold byIdGt, mk. cbn [id]. unfold variantOf in Hna, Hnb. rewrite Hna, Hnb. simpl.
    intros ?%Z.ltb_ge ?%Z.ltb_ge.
    assert (a = b) as ->; [|congruence].
    apply (NoDup_fmap_eq variantOf itemsA); [done..|].
    unfold variantOf. rewrite Hna, Hnb. do 2 f_equal. lia.
Qed.

Lemma storefront_key_ignores_item_order_witness :
  generateStorefrontCacheKey Sample.platform
    (More.cartWithItems (JArr [ lineItem 9 [("quantity", JNum 2)]; lineItem 7 [] ]))
  = generateStorefrontCacheKey Sample.platform
      (More.cartWithItems (JArr [ lineItem 7 []; lineItem 9 [("quantity", JNum 2)] ])).
Proof.
  apply (storefront_key_ignores_item_order Sample.platform
           (More.cartWithItems (JArr [ lineItem 9 [("quantity", JNum 2)]; lineItem 7 [] ]))
           (More.cartWithItems (JArr [ lineItem 7 []; lineItem 9 [("quantity", JNum 2)] ]))
           [ lineItem 9 [("quantity", JNum 2)]; lineItem 7 [] ]
           [ lineItem 7 []; lineItem 9 [("quantity", JNum 2)] ]).
  - reflexivity.
  - intros name Hname.
    repeat (apply elem_of_cons in Hname as [->|Hname]; [reflexivity|]).
    by apply elem_of_nil in Hname.
  - reflexivity.
  - reflexivity.
  - intros item Hitem.
    repeat (apply elem_of_cons in Hitem as [->|Hitem]; [by eexists|]).
    by apply elem_of_nil in Hitem.
  - apply NoDup_cons. split; [|apply NoDup_singleton].
    intros H. apply list_elem_of_singleton in H. discriminate.
  - apply perm_swap.
Defined.

(** *** The items of an upsell request *)

Lemma insertR_length {A} (gt : A -> A -> Result bool) x l s :
  ArraySort.insertR gt x l = Ok s -> length s = S (length l).
Proof.
  revert s. induction l as [|y ys IH]; simpl; intros s.
  - by intros [= <-].
  - destruct (gt x y) as [[|]|]; [|by intros [= <-]|done].
    destruct (ArraySort.insertR gt x ys) as [r|]; [|done].
    intros [= <-]. simpl. by rewrite (IH r).
Qed.

Lemma sortR_length {A} (gt : A -> A -> Result bool) l s :
  ArraySort.sortR gt l = Ok s -> length s = length l.
Proof.
  revert s. induction l as [|x xs IH]; simpl; intros s.
  - by intros [= <-].
  - destruct (ArraySort.sortR gt xs) as [r|]; [|done].
    intros H%insertR_length. by rewrite H, (IH r).
Qed.

(** X17.  The comparator of the upsell key reads [productId] as a text, and it
    only runs when there are two items to compare.  When no item of the
    request has a text as [productId], a request with at most one item reads
    the cache, and a request with two or more items is answered 500. *)
Theorem upsell_ids_are_compared_as_text
    (P : Platform) (req : Request) (body : Json) (items : list Json) (startTime now : Z) :
  method req = "POST" ->
  parseUpsellRequestBody req = Some body ->
  JS.prop body "items" = Some (JArr items) ->
  (∀ item, item ∈ items -> item ≠ JNull ∧ ∀ text, JS.prop item "productId" ≠ Some (JStr text)) ->
  ((length items ≤ 1)%nat ->
   ∃ key, handleUpsellRequest P req startTime now = ReadCache (UpsellRequest body) key)
  ∧ ((2 ≤ length items)%nat ->
     handleUpsellRequest P req startTime now
     = Respond (createErrorResponse "Internal server error" 500 startTime now)).
Proof.
  intros Hmethod Hparse Hitems Hall. unfold handleUpsellRequest.
  rewrite Hmethod, Hparse. cbn [String.eqb Ascii.eqb Bool.eqb negb].
  unfold generateUpsellCacheKey, upsellKeyItems. rewrite Hitems.
  set (mk := λ item, {| uProductId := JS.prop item "productId";
                        uVariantId := JS.prop item "variantId" |}).
  rewrite (mapR_Ok upsellKeyItem mk)
    by (intros item [Hnull _]%Hall; by destruct item).
  split; intros Hlen.
  - destruct items as [|x [|y rest]]; [by eexists|by eexists|simpl in Hlen; lia].
  - destruct items as [|x [|y rest]]; [simpl in Hlen; lia..|].
    change (mk <$> x :: y :: rest) with (mk x :: (mk <$> y :: rest)).
    cbn [ArraySort.sortR].
    destruct (ArraySort.sortR (byProductIdGt P) (mk <$> y :: rest)) as [sorted|] eqn:Hsort;
      [|done].
    apply sortR_length in Hsort. destruct sorted as [|z zs]; [done|].
    cbn [ArraySort.insertR]. unfold byProductIdGt at 1. cbn [mk uProductId].
    destruct (Hall x ltac:(left)) as [_ Hx].
    destruct (JS.prop x "productId") as [[]|]; try done. by destruct (Hx s).
Qed.

Lemma upsell_ids_are_compared_as_text_witness :
  (∃ key, handleUpsellRequest Sample.platform
            (More.upsellRequest (More.upsellItems [ More.upsellItem 7 ])) 0 0
          = ReadCache (UpsellRequest (More.upsellItems [ More.upsellItem 7 ])) key)
  ∧ handleUpsellRequest Sample.platform
      (More.upsellRequest (More.upsellItems [ More.upsellItem 7; More.upsellItem 9 ])) 0 0
    = Respond (createErrorResponse "Internal server error" 500 0 0).
Proof.
  split.
  - refine (proj1 (upsell_ids_are_compared_as_text Sample.platform
                     (More.upsellRequest (More.upsellItems [ More.upsellItem 7 ]))
                     (More.upsellItems [ More.upsellItem 7 ])
                     [ More.upsellItem 7 ] 0 0 eq_refl eq_refl eq_refl _) _).
    + intros item Hitem.
      repeat (apply elem_of_cons in Hitem as [->|Hitem]; [split; discriminate|]).
      by apply elem_of_nil in Hitem.
    + simpl. lia.
  - refine (proj2 (upsell_ids_are_compared_as_text Sample.platform
                     (More.upsellRequest
                        (More.upsellItems [ More.upsellItem 7; More.upsellItem 9 ]))
                     (More.upsellItems [ More.upsellItem 7; More.upsellItem 9 ])
                     [ More.upsellItem 7; More.upsellItem 9 ] 0 0 eq_refl eq_refl eq_refl _) _).
    + intros item Hitem.
      repeat (apply elem_of_cons in Hitem as [->|Hitem]; [split; discriminate|]).
      by apply elem_of_nil in Hitem.
    + simpl. lia.
Defined.

(** *** The generated ETag *)

Lemma toInt32_wraps n : ∃ k, Etag.toInt32 n = (n + k * 4294967296)%Z.
Proof.
  unfold Etag.toInt32. change (2 ^ 32)%Z with 4294967296%Z.
  change (2 ^ 31)%Z with 2147483648%Z.
  pose proof (Z.div_mod n 4294967296 ltac:(lia)) as H.
  destruct (2147483648 <=? n mod 4294967296)%Z.
  - exists (- (n / 4294967296) - 1)%Z. lia.
  - exists (- (n / 4294967296))%Z. lia.
Qed.

Lemma toInt32_range n : (- 2147483648 ≤ Etag.toInt32 n < 2147483648)%Z.
Proof.
  unfold Etag.toInt32. change (2 ^ 32)%Z with 4294967296%Z.
  change (2 ^ 31)%Z with 2147483648%Z.
  pose proof (Z.mod_pos_bound n 4294967296 ltac:(lia)).
  destruct (2147483648 <=? n mod 4294967296)%Z eqn:E; [apply Z.leb_le in E|apply Z.leb_gt in E];
    lia.
Qed.

Lemma toInt32_shift n k : Etag.toInt32 (n + k * 4294967296) = Etag.toInt32 n.
Proof.
  unfold Etag.toInt32. change (2 ^ 32)%Z with 4294967296%Z.
  by rewrite Z.mod_add by lia.
Qed.

Lemma poly31_shift s : ∀ h k, ∃ k', poly31 s (h + k * 4294967296) = (poly31 s h + k' * 4294967296)%Z.
Proof.
  induction s as [|c s IH]; intros h k; simpl; [by exists k|].
  destruct (IH (31 * h + c)%Z (31 * k)%Z) as [k' Hk'].
  exists k'. rewrite <- Hk'. f_equal. lia.
Qed.

Lemma hashLoop_poly31 s : ∀ h, Etag.hashLoop s (Etag.toInt32 h) = Etag.toInt32 (poly31 s h).
Proof.
  induction s as [|c s IH]; intros h; [done|].
  cbn [Etag.hashLoop poly31]. rewrite IH.
  destruct (toInt32_wraps h) as [k Hk].
  destruct (toInt32_wraps (Etag.toInt32 h * 2 ^ 5)) as [k2 Hk2].
  rewrite Hk2, Hk.
  change (2 ^ 5)%Z with 32%Z.
  replace ((h + k * 4294967296) * 32 + k2 * 4294967296 - (h + k * 4294967296) + c)%Z
    with ((31 * h + c) + (31 * k + k2) * 4294967296)%Z by lia.
  destruct (poly31_shift s (31 * h + c) (31 * k + k2)) as [k' ->].
  apply toInt32_shift.
Qed.

Lemma value36_app a b : ∀ acc, value36 (a +:+ b) acc = value36 b (value36 a acc).
Proof.
  induction a as [|c a IH]; intros acc; [done|]. rewrite app_cons. simpl. apply IH.
Qed.

Lemma digitValue_digit36 d : (0 ≤ d < 36)%Z -> digitValue (Etag.digit36 d) = d.
Proof.
  intros Hd. unfold digitValue, Etag.digit36.
  rewrite N_ascii_embedding.
  - destruct (d <? 10)%Z eqn:E; [apply Z.ltb_lt in E|apply Z.ltb_ge in E];
      rewrite Z2N.id by lia.
    + assert ((48 + d <? 58)%Z = true) as -> by (apply Z.ltb_lt; lia). lia.
    + assert ((87 + d <? 58)%Z = false) as -> by (apply Z.ltb_ge; lia). lia.
  - destruct (d <? 10)%Z; lia.
Qed.

Lemma isDigit36_digit36 d : (0 ≤ d < 36)%Z -> isDigit36 (Etag.digit36 d) = true.
Proof.
  intros Hd. unfold isDigit36, Etag.digit36.
  rewrite N_ascii_embedding.
  - destruct (d <? 10)%Z eqn:E; [apply Z.ltb_lt in E|apply Z.ltb_ge in E];
      rewrite Z2N.id by lia; cbv zeta.
    + apply orb_true_iff. left. apply andb_true_iff. split; lia.
    + apply orb_true_iff. right. apply andb_true_iff. split; lia.
  - destruct (d <? 10)%Z; lia.
Qed.

Lemma digitValue_range c : isDigit36 c = true -> (0 ≤ digitValue c < 36)%Z.
Proof.
  unfold isDigit36, digitValue. cbv zeta. intros H.
  destruct (Z.of_N (N_of_ascii c) <? 58)%Z eqn:E;
    [apply Z.ltb_lt in E|apply Z.ltb_ge in E]; lia.
Qed.

Lemma digitValue_inj c c' :
  isDigit36 c = true -> isDigit36 c' = true -> digitValue c = digitValue c' -> c = c'.
Proof.
  unfold isDigit36, digitValue. cbv zeta. intros H H' Heq.
  rewrite <- (ascii_N_embedding c), <- (ascii_N_embedding c'). f_equal.
  destruct (Z.of_N (N_of_ascii c) <? 58)%Z eqn:E;
    [apply Z.ltb_lt in E|apply Z.ltb_ge in E];
    destruct (Z.of_N (N_of_ascii c') <? 58)%Z eqn:E';
    [apply Z.ltb_lt in E'|apply Z.ltb_ge in E'|apply Z.ltb_lt in E'|apply Z.ltb_ge in E'];
    lia.
Qed.

Lemma digitValue_zero c : isDigit36 c = true -> digitValue c = 0%Z -> c = "0"%char.
Proof. intros H H0. by apply digitValue_inj. Qed.

Lemma allDigits36_app a b :
  allDigits36 (a +:+ b) = allDigits36 a && allDigits36 b.
Proof.
  induction a as [|c a IH]; [done|]. rewrite app_cons. simpl. rewrite IH.
  by rewrite andb_assoc.
Qed.

Lemma value36_toString36 fuel : ∀ n,
  (0 ≤ n < 36 ^ Z.of_nat (S fuel))%Z -> value36 (Etag.toString36 fuel n) 0 = n.
Proof.
  induction fuel as [|fuel IH]; intros n Hn.
  - change (36 ^ Z.of_nat 1)%Z with 36%Z in Hn. simpl.
    rewrite digitValue_digit36 by (apply Z.mod_pos_bound; lia).
    rewrite Z.mod_small; lia.
  - cbn [Etag.toString36]. destruct (n <? 36)%Z eqn:E.
    + apply Z.ltb_lt in E. simpl. rewrite digitValue_digit36; lia.
    + apply Z.ltb_ge in E. rewrite value36_app. rewrite IH.
      * simpl. rewrite digitValue_digit36 by (apply Z.mod_pos_bound; lia).
        pose proof (Z.div_mod n 36 ltac:(lia)). lia.
      * split; [apply Z.div_pos; lia|].
        apply Z.div_lt_upper_bound; [lia|].
        replace (Z.of_nat (S (S fuel))) with (Z.succ (Z.of_nat (S fuel))) in Hn by lia.
        rewrite Z.pow_succ_r in Hn by lia. lia.
Qed.

Lemma allDigits36_toString36 fuel : ∀ n,
  (0 ≤ n)%Z -> allDigits36 (Etag.toString36 fuel n) = true.
Proof.
  induction fuel as [|fuel IH]; intros n Hn.
  - simpl. rewrite isDigit36_digit36 by (apply Z.mod_pos_bound; lia). done.
  - cbn [Etag.toString36]. destruct (n <? 36)%Z eqn:E.
    + apply Z.ltb_lt in E. simpl. rewrite isDigit36_digit36 by lia. done.
    + rewrite allDigits36_app, IH by (apply Z.div_pos; lia). simpl.
      rewrite isDigit36_digit36 by (apply Z.mod_pos_bound; lia). done.
Qed.

(** The numeral of a positive number does not begin with 0. *)
Lemma toString36_leading fuel : ∀ n,
  (0 < n < 36 ^ Z.of_nat (S fuel))%Z ->
  ∃ c rest, Etag.toString36 fuel n = String c rest ∧ c ≠ "0"%char.
Proof.
  assert (Hdigit : ∀ d, (0 < d < 36)%Z -> Etag.digit36 d ≠ "0"%char).
  { intros d Hd Heq. pose proof (digitValue_digit36 d ltac:(lia)) as H.
    rewrite Heq in H. vm_compute in H. lia. }
  induction fuel as [|fuel IH]; intros n Hn.
  - change (36 ^ Z.of_nat 1)%Z with 36%Z in Hn. simpl. eexists _, _. split; [done|].
    apply Hdigit. rewrite Z.mod_small; lia.
  - cbn [Etag.toString36]. destruct (n <? 36)%Z eqn:E.
    + apply Z.ltb_lt in E. eexists _, _. split; [done|]. apply Hdigit. lia.
    + apply Z.ltb_ge in E. destruct (IH (n / 36)%Z) as (c & rest & -> & Hc).
      * split; [apply Z.div_str_pos; lia|].
        apply Z.div_lt_upper_bound; [lia|].
        replace (Z.of_nat (S (S fuel))) with (Z.succ (Z.of_nat (S fuel))) in Hn by lia.
        rewrite Z.pow_succ_r in Hn by lia. lia.
      * rewrite app_cons. by eexists _, _.
Qed.

Lemma numeral36_toString36 fuel n :
  (0 ≤ n < 36 ^ Z.of_nat (S fuel))%Z -> numeral36 (Etag.toString36 fuel n) = true.
Proof.
  intros Hn. pose proof (allDigits36_toString36 fuel n ltac:(lia)) as Hall.
  destruct (decide (n = 0%Z)) as [->|Hpos].
  - by destruct fuel.
  - destruct (toString36_leading fuel n ltac:(lia)) as (c & rest & E & Hc).
    rewrite E in *. unfold numeral36. rewrite Hall.
    apply Ascii.eqb_neq in Hc. by rewrite Hc.
Qed.

(** A numeral stands for a number between two powers of 36, by its length. *)
Lemma value36_bounds s : ∀ acc,
  allDigits36 s = true -> (0 ≤ acc)%Z ->
  (acc * 36 ^ Z.of_nat (String.length s) ≤ value36 s acc
   < (acc + 1) * 36 ^ Z.of_nat (String.length s))%Z.
Proof.
  induction s as [|c s IH]; intros acc Hall Hacc.
  - simpl. lia.
  - simpl in Hall. apply andb_true_iff in Hall as [Hc Hall].
    pose proof (digitValue_range c Hc) as Hd.
    cbn [value36 String.length].
    specialize (IH (36 * acc + digitValue c)%Z Hall ltac:(lia)).
    replace (Z.of_nat (S (String.length s))) with (Z.succ (Z.of_nat (String.length s)))
      by lia.
    rewrite Z.pow_succ_r by lia.
    pose proof (Z.pow_pos_nonneg 36 (Z.of_nat (String.length s)) ltac:(lia) ltac:(lia)).
    nia.
Qed.

Lemma value36_inj_length a : ∀ b acc acc',
  allDigits36 a = true -> allDigits36 b = true ->
  String.length a = String.length b ->
  (0 ≤ acc)%Z -> (0 ≤ acc')%Z ->
  value36 a acc = value36 b acc' -> acc = acc' ∧ a = b.
Proof.
  induction a as [|c a IH]; intros [|c' b] acc acc' Ha Hb Hlen Hacc Hacc' Heq;
    try done.
  simpl in Ha, Hb. apply andb_true_iff in Ha as [Hc Ha].
  apply andb_true_iff in Hb as [Hc' Hb].
  pose proof (digitValue_range c Hc). pose proof (digitValue_range c' Hc').
  cbn [value36] in Heq.
  assert (Hlen' : String.length a = String.length b) by by injection Hlen.
  destruct (IH b (36 * acc + digitValue c)%Z (36 * acc' + digitValue c')%Z Ha Hb Hlen'
              ltac:(lia) ltac:(lia) Heq) as [Hacc'' ->].
  assert (digitValue c = digitValue c') by lia.
  split; [lia|]. f_equal. by apply digitValue_inj.
Qed.

(** Two numerals of the same number are the same. *)
Lemma numeral36_unique a b :
  numeral36 a = true -> numeral36 b = true -> value36 a 0 = value36 b 0 -> a = b.
Proof.
  assert (Hlead : ∀ c rest,
    numeral36 (String c rest) = true ->
    (c = "0"%char ∧ rest = EmptyString ∧ value36 (String c rest) 0 = 0%Z)
    ∨ (36 ^ Z.of_nat (String.length rest) ≤ value36 (String c rest) 0
       < 36 ^ Z.of_nat (S (String.length rest)))%Z).
  { intros c rest H. unfold numeral36 in H. apply andb_true_iff in H as [Hall Hlead].
    pose proof Hall as Hall'. simpl in Hall'. apply andb_true_iff in Hall' as [Hc Hrest].
    pose proof (digitValue_range c Hc) as Hd.
    destruct (Ascii.eqb c "0"%char) eqn:E.
    - apply Ascii.eqb_eq in E. destruct rest; [|done]. left. by subst c.
    - right. apply Ascii.eqb_neq in E.
      assert (digitValue c ≠ 0%Z) by (intros H0; by apply E, digitValue_zero).
      pose proof (value36_bounds rest (36 * 0 + digitValue c)%Z Hrest ltac:(lia)) as Hb.
      cbn [value36].
      replace (Z.of_nat (S (String.length rest)))
        with (Z.succ (Z.of_nat (String.length rest))) by lia.
      rewrite Z.pow_succ_r by lia.
      pose proof (Z.pow_pos_nonneg 36 (Z.of_nat (String.length rest)) ltac:(lia)
                    ltac:(lia)).
      nia. }
  intros Ha Hb Heq.
  destruct a as [|ca ra]; [done|]. destruct b as [|cb rb]; [done|].
  assert (Hpos : ∀ n : nat, (0 < 36 ^ Z.of_nat n)%Z)
    by (intros n; apply Z.pow_pos_nonneg; lia).
  destruct (Hlead _ _ Ha) as [(-> & -> & Hva)|Hva];
    destruct (Hlead _ _ Hb) as [(-> & -> & Hvb)|Hvb]; [done| | |].
  - pose proof (Hpos (String.length rb)). lia.
  - pose proof (Hpos (String.length ra)). lia.
  - assert (Hlen : String.length ra = String.length rb).
    { destruct (decide (String.length ra = String.length rb)) as [|Hne]; [done|].
      exfalso.
      destruct (decide (String.length ra < String.length rb)%nat).
      - pose proof (Z.pow_le_mono_r 36 (Z.of_nat (S (String.length ra)))
                      (Z.of_nat (String.length rb)) ltac:(lia) ltac:(lia)). lia.
      - pose proof (Z.pow_le_mono_r 36 (Z.of_nat (S (String.length rb)))
                      (Z.of_nat (String.length ra)) ltac:(lia) ltac:(lia)). lia. }
    apply andb_true_iff in Ha as [Ha _]. apply andb_true_iff in Hb as [Hb _].
    apply (value36_inj_length (String ca ra) (String cb rb) 0 0); try done.
    simpl. by rewrite Hlen.
Qed.

(** X18.  The generated ETag is, between double quotes, the numeral in base 36
    (digits 0-9 and a-z, no leading zero) of the absolute value of a 32-bit
    hash, and no other numeral stands for that number; the hash is the
    polynomial with factor 31 over the UTF-16 code units of the serialised
    payload, wrapped to 32 bits ([(hash << 5) - hash] is [31 * hash]). *)
Theorem generated_etag (payload : Json) :
  let hash := Etag.toInt32 (poly31 (Str.codeUnits (JSON.stringify payload)) 0) in
  ∃ digits,
    Etag.generateEtag payload
    = String Str.dquote (digits +:+ String Str.dquote EmptyString)
    ∧ numeral36 digits = true
    ∧ value36 digits 0 = Z.abs hash
    ∧ (∀ other, numeral36 other = true -> value36 other 0 = Z.abs hash ->
                other = digits)
    ∧ (- 2 ^ 31 ≤ hash < 2 ^ 31)%Z.
Proof.
  intros hash. unfold Etag.generateEtag.
  pose proof (toInt32_range (poly31 (Str.codeUnits (JSON.stringify payload)) 0)) as Hr.
  fold hash in Hr.
  assert (Hhash : Etag.hashLoop (Str.codeUnits (JSON.stringify payload)) 0 = hash).
  { change 0%Z with (Etag.toInt32 0) at 1. by rewrite hashLoop_poly31. }
  assert (Hbound : (0 ≤ Z.abs hash < 36 ^ Z.of_nat 7)%Z).
  { change (36 ^ Z.of_nat 7)%Z with 78364164096%Z. lia. }
  eexists. split; [done|]. cbv zeta. rewrite Hhash.
  pose proof (value36_toString36 6 _ Hbound) as Hvalue.
  pose proof (numeral36_toString36 6 _ Hbound) as Hnumeral.
  split; [done|]. split; [done|]. split.
  - intros other Hother Hsame. apply numeral36_unique; [done|done|]. by rewrite Hvalue.
  - change (2 ^ 31)%Z with 2147483648%Z. lia.
Qed.
